(** * Intake gating pipeline and identity codec: a shallow embedding

    The development follows [backend/app.py] (the [/api/patients] intake
    endpoint and its helpers), [backend/patient_encryption_with_PSI.py]
    (the identity codec and the encrypted upsert), [backend/protection.py]
    (the extraction gate) and the hash based intersection of
    [backend/test_psi_encrypted.py] and [backend/encrypt_and_upload.py].
    Further modules follow the read endpoints and the hospital endpoints of
    [backend/app.py], the upload script [backend/encrypt_and_upload.py], the
    linkage demonstration [backend/test_psi_encrypted.py] and the accounts
    ([backend/routes/auth.py], [backend/utils/auth.py],
    [backend/models_auth/user.py]).

    Conventions.
    - A Python [str] is the list of its code points; [.encode()] is UTF-8
      with the default strict error handler (lone surrogates raise).
    - A Python [float] is a rational or one of the three special values;
      only comparisons are performed on floats by the modelled code, and
      these are exact on doubles.
    - The body of a submission is what [request.get_json(silent=True)]
      gives: a JSON object, a scalar or an array, or nothing when the body
      fails to parse. Module [App] follows the endpoint on an object or
      nothing, module [Intake] on every body. The field values of an object
      are scalars, nested arrays and objects as field values being outside
      the model.
    - The documents carry no [created_at]; where the code sorts by it, the
      stamps of the inserts and the server's sort are parameters.
    - Console output ([print]) and the application logger are not modelled.
    - The classifiers, the TenSEAL encryption and the MongoDB driver are
      collaborators: they appear as fields of an environment record and may
      raise. *)

From Stdlib Require Import ZArith NArith QArith Lia String Ascii.
From stdpp Require Import base option list gmap pretty sorting.

Local Open Scope Z_scope.

(** ** Python strings *)

Module Py.

Definition pystr := list N.

(** A literal of the source, as a list of code points. *)
Definition u (s : string) : pystr :=
  (λ a : ascii, N_of_ascii a) <$> list_ascii_of_string s.

Definition is_surrogate (c : N) : bool :=
  ((0xD800 <=? c) && (c <=? 0xDFFF))%N.

(** [str.encode()] on one code point: UTF-8, strict. *)
Definition utf8_char (c : N) : option (list Z) :=
  let z := Z.of_N c in
  if (c <? 0x80)%N then Some [z]
  else if (c <? 0x800)%N then
    Some [Z.lor 0xC0 (Z.shiftr z 6); Z.lor 0x80 (Z.land z 0x3F)]
  else if (c <? 0x10000)%N then
    if is_surrogate c then None
    else Some [Z.lor 0xE0 (Z.shiftr z 12);
               Z.lor 0x80 (Z.land (Z.shiftr z 6) 0x3F);
               Z.lor 0x80 (Z.land z 0x3F)]
  else if (c <? 0x110000)%N then
    Some [Z.lor 0xF0 (Z.shiftr z 18);
          Z.lor 0x80 (Z.land (Z.shiftr z 12) 0x3F);
          Z.lor 0x80 (Z.land (Z.shiftr z 6) 0x3F);
          Z.lor 0x80 (Z.land z 0x3F)]
  else None.

Fixpoint encode (s : pystr) : option (list Z) :=
  match s with
  | [] => Some []
  | c :: s' =>
      match utf8_char c, encode s' with
      | Some bs, Some rest => Some (bs ++ rest)
      | _, _ => None
      end
  end.

(** [str.isspace] on one code point, the characters [str.strip()] removes. *)
Definition isspace (c : N) : bool :=
  (((0x09 <=? c) && (c <=? 0x0D)) || ((0x1C <=? c) && (c <=? 0x20))
   || (c =? 0x85) || (c =? 0xA0) || (c =? 0x1680)
   || ((0x2000 <=? c) && (c <=? 0x200A))
   || (c =? 0x2028) || (c =? 0x2029) || (c =? 0x202F) || (c =? 0x205F)
   || (c =? 0x3000))%N.

(** [s.strip() == ""] *)
Definition strip_is_empty (s : pystr) : bool := forallb isspace s.

(** [sep.join(l)] *)
Fixpoint join (sep : pystr) (l : list pystr) : pystr :=
  match l with
  | [] => []
  | [s] => s
  | s :: l' => s ++ sep ++ join sep l'
  end.

End Py.

(** ** SHA-256 (FIPS 180-4), as computed by [hashlib.sha256] *)

Module SHA256.

Definition wrap32 (x : Z) : Z := x mod 2 ^ 32.
Definition add32 (x y : Z) : Z := wrap32 (x + y).
Definition rotr (n x : Z) : Z :=
  Z.lor (Z.shiftr x n) (wrap32 (Z.shiftl x (32 - n))).
Definition not32 (x : Z) : Z := Z.lxor x 0xFFFFFFFF.

Definition Ch (x y z : Z) : Z := Z.lxor (Z.land x y) (Z.land (not32 x) z).
Definition Maj (x y z : Z) : Z :=
  Z.lxor (Z.lxor (Z.land x y) (Z.land x z)) (Z.land y z).
Definition bsig0 (x : Z) : Z := Z.lxor (Z.lxor (rotr 2 x) (rotr 13 x)) (rotr 22 x).
Definition bsig1 (x : Z) : Z := Z.lxor (Z.lxor (rotr 6 x) (rotr 11 x)) (rotr 25 x).
Definition ssig0 (x : Z) : Z := Z.lxor (Z.lxor (rotr 7 x) (rotr 18 x)) (Z.shiftr x 3).
Definition ssig1 (x : Z) : Z := Z.lxor (Z.lxor (rotr 17 x) (rotr 19 x)) (Z.shiftr x 10).

(** The constants of sections 4.2.2 and 5.3.3 are defined from the first
    sixty-four primes: the first 32 bits of the fractional parts of their cube
    roots (round constants) and of the square roots of the first eight
    (initial hash value). [iroot k x] is the integer [k]-th root of [x],
    found bit by bit from bit 47 down. *)
Fixpoint iroot_from (k x : Z) (bits : nat) (r : Z) : Z :=
  match bits with
  | O => r
  | S b =>
      let c := r + 2 ^ Z.of_nat b in
      iroot_from k x b (if c ^ k <=? x then c else r)
  end.

Definition iroot (k x : Z) : Z := iroot_from k x 48 0.

Definition is_prime (n : Z) : bool :=
  forallb (λ d, negb (n mod d =? 0)) (seqZ 2 (n - 2)).

Definition first_primes (count : nat) : list Z :=
  take count (List.filter is_prime (seqZ 2 310)).

Definition round_constants : list Z :=
  Eval vm_compute in (λ p, iroot 3 (p * 2 ^ 96) mod 2 ^ 32) <$> first_primes 64.

Definition initial_hash : list Z :=
  Eval vm_compute in (λ p, iroot 2 (p * 2 ^ 64) mod 2 ^ 32) <$> first_primes 8.

(** Big-endian value of a byte string, and the [k] low bytes of a number. *)
Definition be_value (bs : list Z) : Z := fold_left (λ acc b, acc * 256 + b) bs 0.

Fixpoint be_bytes (k : nat) (x : Z) : list Z :=
  match k with
  | O => []
  | S k' => be_bytes k' (x / 256) ++ [x mod 256]
  end.

(** Padding of section 5.1.1: a 1 bit, zeros up to 56 modulo 64 bytes, and the
    bit length on 8 bytes. *)
Definition pad (msg : list Z) : list Z :=
  let len := Z.of_nat (length msg) in
  let zeros := Z.to_nat ((55 - len) mod 64) in
  msg ++ [0x80] ++ replicate zeros 0 ++ be_bytes 8 (8 * len).

Fixpoint chunks (fuel k : nat) (l : list Z) : list (list Z) :=
  match fuel, l with
  | O, _ | _, [] => []
  | S fuel', _ => take k l :: chunks fuel' k (drop k l)
  end.

Definition words_of_block (blk : list Z) : list Z :=
  be_value <$> chunks 16 4 blk.

(** The message schedule, most recent word first. *)
Fixpoint extend (n : nat) (rev_w : list Z) : list Z :=
  match n with
  | O => rev_w
  | S n' =>
      let w := add32 (add32 (add32 (ssig1 (nth 1 rev_w 0)) (nth 6 rev_w 0))
                            (ssig0 (nth 14 rev_w 0))) (nth 15 rev_w 0) in
      extend n' (w :: rev_w)
  end.

Definition schedule (blk : list Z) : list Z :=
  rev (extend 48 (rev (words_of_block blk))).

Definition round (st : list Z) (kw : Z * Z) : list Z :=
  match st with
  | [a; b; c; d; e; f; g; h] =>
      let t1 := add32 (add32 (add32 (add32 h (bsig1 e)) (Ch e f g)) kw.1) kw.2 in
      let t2 := add32 (bsig0 a) (Maj a b c) in
      [add32 t1 t2; a; b; c; add32 d t1; e; f; g]
  | _ => st
  end.

Definition compress (hs : list Z) (blk : list Z) : list Z :=
  zip_with add32 hs (fold_left round (zip round_constants (schedule blk)) hs).

(** [hashlib.sha256(msg).digest()] *)
Definition digest (msg : list Z) : list Z :=
  let p := pad msg in
  mjoin (be_bytes 4 <$> fold_left compress (chunks (length p) 64 p) initial_hash).

End SHA256.

(** ** Hexadecimal text *)

Module Hex.
Import Py.

Definition digit (d : Z) : N :=
  if d <? 10 then Z.to_N (48 + d) else Z.to_N (87 + d).

(** [bytes.hex()], as used by [hexdigest()]: two lowercase digits per byte. *)
Definition hex (bs : list Z) : pystr :=
  mjoin ((λ b, [digit (b / 16); digit (b mod 16)]) <$> bs).

Definition digit_value (c : N) : option Z :=
  if ((48 <=? c) && (c <=? 57))%N then Some (Z.of_N c - 48)
  else if ((97 <=? c) && (c <=? 102))%N then Some (Z.of_N c - 87)
  else if ((65 <=? c) && (c <=? 70))%N then Some (Z.of_N c - 55)
  else None.

Fixpoint int16_go (acc : Z) (s : pystr) : option Z :=
  match s with
  | [] => Some acc
  | c :: s' =>
      match digit_value c with
      | Some d => int16_go (16 * acc + d) s'
      | None => None
      end
  end.

(** [int(s, 16)] on a string made of hexadecimal digits, the only kind of
    argument the codec passes (a [hexdigest()]); [None] is [ValueError]. *)
Definition int16 (s : pystr) : option Z :=
  match s with
  | [] => None
  | _ => int16_go 0 s
  end.

End Hex.

(** ** Python values *)

Module Val.
Import Py.

Inductive pyfloat := Finite (q : Q) | PosInf | NegInf | NaN.

(** The scalars a JSON document can hold. *)
Inductive pyval :=
  | PNone
  | PBool (b : bool)
  | PInt (z : Z)
  | PFloat (x : pyfloat)
  | PStr (s : pystr).

(** The outcome of a call: a value, or an exception carried as [str(e)]. *)
Inductive result (A : Type) := Ok (a : A) | Raise (e : pystr).
Arguments Ok {A} a.
Arguments Raise {A} e.

Definition fcompare (a b : pyfloat) : option comparison :=
  match a, b with
  | NaN, _ | _, NaN => None
  | Finite p, Finite q => Some (p ?= q)%Q
  | PosInf, PosInf | NegInf, NegInf => Some Eq
  | PosInf, _ | _, NegInf => Some Gt
  | NegInf, _ | _, PosInf => Some Lt
  end.

(** [a > b], [a >= b] and [a == b] on floats. *)
Definition fgt (a b : pyfloat) : bool :=
  match fcompare a b with Some Gt => true | _ => false end.
Definition fge (a b : pyfloat) : bool :=
  match fcompare a b with Some Gt | Some Eq => true | _ => false end.
Definition feq (a b : pyfloat) : bool :=
  match fcompare a b with Some Eq => true | _ => false end.

(** What the interpreter does with floating point text and with [repr];
    these algorithms are not part of the repository. *)
Class Interp := {
  float_of_str : pystr → option pyfloat;  (* float(s); None is ValueError *)
  float_of_int : Z → option pyfloat;      (* float(n); None is OverflowError *)
  str_of_float : pyfloat → pystr;         (* str(x) *)
  repr_of_str : pystr → pystr;            (* repr(s) *)
  format_4f : pyfloat → pystr;            (* f"{x:.4f}" *)
}.

Section WithInterp.
Context `{Interp}.

(** [str(v)] *)
Definition py_str (v : pyval) : pystr :=
  match v with
  | PNone => u "None"
  | PBool true => u "True"
  | PBool false => u "False"
  | PInt z => u (pretty z)
  | PFloat x => str_of_float x
  | PStr s => s
  end.

(** [float(v)] *)
Definition py_float (v : pyval) : result pyfloat :=
  match v with
  | PNone =>
      Raise (u "float() argument must be a string or a real number, not 'NoneType'")
  | PBool b => Ok (Finite (if b then 1 else 0))
  | PInt z =>
      match float_of_int z with
      | Some x => Ok x
      | None => Raise (u "int too large to convert to float")
      end
  | PFloat x => Ok x
  | PStr s =>
      match float_of_str s with
      | Some x => Ok x
      | None => Raise (u "could not convert string to float: " ++ repr_of_str s)
      end
  end.

(** [bool(v)] *)
Definition py_truthy (v : pyval) : bool :=
  match v with
  | PNone => false
  | PBool b => b
  | PInt z => negb (z =? 0)
  | PFloat x => negb (feq x (Finite 0))
  | PStr s => negb (bool_decide (s = []))
  end.

(** The number a bool, int or float stands for in a comparison. *)
Definition as_number (v : pyval) : option pyfloat :=
  match v with
  | PBool b => Some (Finite (if b then 1 else 0))
  | PInt z => Some (Finite (inject_Z z))
  | PFloat x => Some x
  | _ => None
  end.

(** [a == b] *)
Definition py_eq (a b : pyval) : bool :=
  match a, b with
  | PNone, PNone => true
  | PStr s, PStr t => bool_decide (s = t)
  | _, _ =>
      match as_number a, as_number b with
      | Some x, Some y => feq x y
      | _, _ => false
      end
  end.

(** [l.index(v)]; [None] is [ValueError]. *)
Fixpoint py_index (v : pyval) (l : list pyval) : option Z :=
  match l with
  | [] => None
  | x :: l' => if py_eq x v then Some 0 else Z.succ <$> py_index v l'
  end.

End WithInterp.

Definition dict := gmap pystr pyval.

(** A dict literal with the keys written as source literals. *)
Definition dict_of (l : list (string * pyval)) : gmap pystr pyval :=
  list_to_map (prod_map u id <$> l).

End Val.

(** ** The identity codec ([patient_encryption_with_PSI.py]) *)

Module Codec.
Import Py Val.

Definition ciphertext := list Z.

(** A TenSEAL context, seen through [ts.bfv_vector(context, [n]).serialize()]:
    the first argument numbers the call, since the scheme is randomised. *)
Definition context := nat → Z → result ciphertext.

Definition plain_modulus : Z := 65537.

(** [hashlib.sha256(s.encode()).hexdigest()] for a [str] *)
Definition sha256_hexdigest (s : pystr) : result pystr :=
  match encode s with
  | Some bs => Ok (Hex.hex (SHA256.digest bs))
  | None => Raise (u "'utf-8' codec can't encode character: surrogates not allowed")
  end.

Section WithInterp.
Context `{Interp}.

Definition hash_text (text : pyval) : result pystr :=
  sha256_hexdigest (py_str text).

(** The integer slot value of [encrypt_vector], before encryption. *)
Definition hashed_int (value : pyval) : result Z :=
  match hash_text (PStr (py_str value)) with
  | Ok h =>
      match Hex.int16 h with
      | Some n => Ok (n mod plain_modulus)
      | None => Raise (u "invalid literal for int() with base 16")
      end
  | Raise e => Raise e
  end.

(** [encrypt_vector(context, value)]: any exception is turned into [None]. *)
Definition encrypt_vector (ctx : context) (nonce : nat) (value : pyval)
  : option ciphertext :=
  match hashed_int value with
  | Ok n => match ctx nonce n with Ok c => Some c | Raise _ => None end
  | Raise _ => None
  end.

End WithInterp.
End Codec.

(** ** The persistent store and the audit trail *)

Module Store.
Import Py Val Codec.

Record medical_fields := {
  gender : pyval;
  age : pyval;
  hypertension : pyval;
  heart_disease : pyval;
  bmi : pyval;
  HbA1c_level : pyval;
  blood_glucose_level : pyval;
  diabetes : Z;
}.

(** The [record] dict built by the endpoint. *)
Record patient_record := {
  NIC : pyval;
  Name : pyval;
  Address : pyval;
  medical : medical_fields;
}.

(** A document of the [patients] collection. *)
Record patient_document := {
  NIC_Hashed : pystr;
  NIC_Encrypted : ciphertext;
  Name_Encrypted : ciphertext;
  Address_Encrypted : ciphertext;
  doc_medical : medical_fields;
}.

(** A document of the [patients_plain] collection ([created_at] left out). *)
Record plain_summary := {
  plain_NIC_Hashed : option pystr;
  name : pyval;
  plain_diabetes : Z;
}.

(** The [event_type] strings the endpoint passes to the audit logger. *)
Inductive event_type :=
  | poisoning_check | poisoning_check_error
  | extraction_check | extraction_check_error
  | prediction_success | prediction_error
  | record_created | record_creation_error
  | system_error.

(** A document of the [security_logs] collection. The two timestamps and
    [input_hash] (a digest of [json.dumps] of the input, which cannot fail on
    JSON data) are left out. *)
Record log_entry := {
  mse : pyfloat;
  is_attack : bool;
  ev_type : event_type;
  additional_info : gmap pystr pyval;
}.

Inductive stage := Poisoning | Extraction | Prediction | Persistence.

(** Ghost events: a stage of the endpoint begins; the audit logger is called. *)
Inductive event :=
  | Enter (s : stage)
  | Audit (e : log_entry).

Record world := {
  patients : list patient_document;
  patients_plain : list plain_summary;
  security_logs : list log_entry;
  clock : nat;          (* collaborator calls issued so far *)
  trace : list event;
}.

(** [find_one_and_update({"NIC_Hashed": h}, {"$set": doc}, upsert=True)]:
    the first match is overwritten, and [doc] is inserted when none matches. *)
Fixpoint find_one_and_update (h : pystr) (doc : patient_document)
    (col : list patient_document) : list patient_document :=
  match col with
  | [] => [doc]
  | d :: col' =>
      if decide (NIC_Hashed d = h) then doc :: col'
      else d :: find_one_and_update h doc col'
  end.

(** [count_documents({"NIC_Hashed": h})] on either collection *)
Definition count_documents (h : pystr) (col : list patient_document) : nat :=
  length (filter (λ d, NIC_Hashed d = h) col).

Definition count_plain (h : option pystr) (col : list plain_summary) : nat :=
  length (filter (λ d, plain_NIC_Hashed d = h) col).

End Store.

(** ** The intake endpoint ([app.py]) *)

Module App.
Import Py Val Codec Store.

Definition vec := list pyfloat.

(** A scikit-learn style classifier: with [predict_proba] (positive class
    probability of the single row) or with [predict] only (its label). *)
Inductive classifier :=
  | WithProba (predict_proba : vec → result pyfloat)
  | PredictOnly (predict : vec → result Z).

(** An entry of the [encoders] metadata; JSON object keys are strings. *)
Inductive encoder :=
  | EncDict (d : gmap pystr pyval)
  | EncList (l : list pyval)
  | EncOther.

(** The process-wide state loaded at start-up, and the collaborators. *)
Record env := {
  feature_order : list pystr;
  encoders : gmap pystr encoder;
  poisoning_scaler : option (vec → result vec);
  poisoning_model : classifier;
  poisoning_threshold : pyval;
  detect_attack : vec → result (bool * pyfloat);  (* [Protection.detect_attack] *)
  scaler : option (vec → result vec);
  model : classifier;
  load_context : result context;
  store_fault : nat → option pystr;  (* the store call issued at this clock raises *)
}.

Record response := {
  status : Z;
  body : gmap pystr pyval;
}.

Definition respond (code : Z) (b : list (string * pyval)) : response :=
  {| status := code; body := dict_of b |}.

(** *** State and exceptions *)

Definition M (A : Type) : Type := world → result A * world.

Definition ret {A} (a : A) : M A := λ w, (Ok a, w).
Definition lift {A} (r : result A) : M A := λ w, (r, w).
Definition bind {A B} (m : M A) (k : A → M B) : M B :=
  λ w, match m w with
       | (Ok a, w') => k a w'
       | (Raise e, w') => (Raise e, w')
       end.

Notation "'do' x <- m ; k" := (bind m (λ x, k))
  (at level 10, x name, m at level 100, k at level 200).
Notation "'do' '_' <- m ; k" := (bind m (λ _, k))
  (at level 10, m at level 100, k at level 200).

(** [try: body / except Exception as e: return handler(e)] followed by [k]. *)
Definition try_stage {A B} (body : M A) (handler : pystr → M B) (k : A → M B)
  : M B :=
  λ w, match body w with
       | (Ok a, w') => k a w'
       | (Raise e, w') => handler e w'
       end.

(** [try: body / except Exception: pass] *)
Definition try_pass (body : M unit) : M unit :=
  λ w, match body w with
       | (Ok _, w') => (Ok (), w')
       | (Raise _, w') => (Ok (), w')
       end.

Definition tick (w : world) : world :=
  {| patients := patients w; patients_plain := patients_plain w;
     security_logs := security_logs w; clock := S (clock w); trace := trace w |}.

Definition emit (ev : event) : M unit :=
  λ w, (Ok (),
        {| patients := patients w; patients_plain := patients_plain w;
           security_logs := security_logs w; clock := clock w;
           trace := trace w ++ [ev] |}).

Definition enter (s : stage) : M unit := emit (Enter s).

Section WithEnv.
Context `{Interp} (E : env).

(** One call to the store: it raises when the driver faults, and otherwise
    applies [f] to the collections. *)
Definition store_call (f : world → world) : M unit :=
  λ w, match store_fault E (clock w) with
       | Some e => (Raise e, tick w)
       | None => (Ok (), tick (f w))
       end.

Definition insert_log (entry : log_entry) (w : world) : world :=
  {| patients := patients w; patients_plain := patients_plain w;
     security_logs := security_logs w ++ [entry]; clock := clock w;
     trace := trace w |}.

Definition insert_plain (s : plain_summary) (w : world) : world :=
  {| patients := patients w; patients_plain := patients_plain w ++ [s];
     security_logs := security_logs w; clock := clock w; trace := trace w |}.

Definition upsert_patient (doc : patient_document) (w : world) : world :=
  {| patients := find_one_and_update (NIC_Hashed doc) doc (patients w);
     patients_plain := patients_plain w;
     security_logs := security_logs w; clock := clock w; trace := trace w |}.

(** [log_security_event]: the whole body sits in a [try] whose handler only
    reports, so a failed insert is swallowed. [input_data] only feeds
    [input_hash]. *)
Definition log_security_event (input_data : option dict) (mse_score : pyfloat)
    (is_attack : bool) (event_type : event_type) (additional_info : dict)
  : M unit :=
  let entry := {| mse := mse_score; is_attack := is_attack;
                  ev_type := event_type; additional_info := additional_info |} in
  do _ <- emit (Audit entry);
  try_pass (store_call (insert_log entry)).

(** *** Helpers *)

Definition _coerce_feature (name : pystr) (val : pyval) : result pyfloat :=
  match val with
  | PNone => Raise (u "Missing value for " ++ name)
  | _ =>
      match py_float val with
      | Ok x => Ok x
      | Raise _ => Raise (u "Invalid value for " ++ name ++ u ": " ++ py_str val)
      end
  end.

(** The categorical lookup of the poisoning gate for one column. *)
Definition encode_value (col : pystr) (val : pyval) : pyval :=
  match encoders E !! col with
  | Some (EncDict enc) =>
      match val with
      | PStr s => default (PInt 0) (enc !! s)
      | _ => PInt 0
      end
  | Some (EncList enc) =>
      match py_index val enc with
      | Some i => PInt i
      | None => PInt 0
      end
  | Some EncOther | None => val
  end.

Definition poisoning_feature (feature_dict : dict) (col : pystr) : pyfloat :=
  let val := encode_value col (default (PInt 0) (feature_dict !! col)) in
  match py_float val with
  | Ok x => x
  | Raise _ => Finite 0
  end.

Definition apply_scaler (s : option (vec → result vec)) (x : vec) : result vec :=
  match s with
  | Some transform => transform x
  | None => Ok x
  end.

Definition rbind {A B} (r : result A) (k : A → result B) : result B :=
  match r with
  | Ok a => k a
  | Raise e => Raise e
  end.

(** [_run_poisoning_check]: [Ok true] when poisoning is suspected; every
    internal exception is re-raised as a [RuntimeError]. *)
Definition _run_poisoning_check (feature_dict : dict) : result bool :=
  let features := poisoning_feature feature_dict <$> feature_order E in
  let attempt :=
    rbind (apply_scaler (poisoning_scaler E) features) (λ X,
    rbind (match poisoning_model E with
           | WithProba predict_proba => predict_proba X
           | PredictOnly predict =>
               rbind (predict X) (λ label, py_float (PInt label))
           end) (λ prob,
    rbind (py_float (poisoning_threshold E)) (λ threshold,
    Ok (fgt prob threshold)))) in
  match attempt with
  | Ok flag => Ok flag
  | Raise e => Raise (u "Poisoning check failed: " ++ e)
  end.

(** [[_coerce_feature(f, data[f]) for f in feature_order]]; a feature that is
    not a key of [data] is a [KeyError]. *)
Fixpoint coerce_all (data : dict) (cols : list pystr) : result vec :=
  match cols with
  | [] => Ok []
  | f :: cols' =>
      match data !! f with
      | None => Raise (repr_of_str f)
      | Some v =>
          rbind (_coerce_feature f v) (λ x,
          rbind (coerce_all data cols') (λ xs, Ok (x :: xs)))
      end
  end.

(** The label and, when the model has [predict_proba], the probability. *)
Definition predict_label (xs : vec) : result (Z * option pyfloat) :=
  match model E with
  | WithProba predict_proba =>
      rbind (predict_proba xs) (λ prob,
      Ok (if fge prob (Finite (1 # 2)) then 1 else 0, Some prob))
  | PredictOnly predict =>
      rbind (predict xs) (λ label, Ok (label, None))
  end.

(** *** [update_patient_record] ([patient_encryption_with_PSI.py]) *)

Definition encrypt_field (ctx : context) (value : pyval) : M (option ciphertext) :=
  λ w, (Ok (encrypt_vector ctx (clock w) value), tick w).

Definition update_patient_record (record : patient_record) : M unit :=
  do ctx <- lift (load_context E);
  let nic_plain := PStr (py_str (NIC record)) in
  do nic_hashed <- lift (hash_text nic_plain);
  do encrypted_nic <- encrypt_field ctx nic_plain;
  do encrypted_name <- encrypt_field ctx (Name record);
  do encrypted_address <- encrypt_field ctx (Address record);
  match encrypted_name, encrypted_address, encrypted_nic with
  | Some c_name, Some c_address, Some c_nic =>
      store_call (upsert_patient
        {| NIC_Hashed := nic_hashed;
           NIC_Encrypted := c_nic;
           Name_Encrypted := c_name;
           Address_Encrypted := c_address;
           doc_medical := medical record |})
  | _, _, _ => ret ()  (* "Record not saved." *)
  end.

(** *** [create_patient] *)

Definition required : list pystr :=
  u <$> ["NIC"; "Name"; "gender"; "age"; "hypertension"; "heart_disease";
         "bmi"; "HbA1c_level"; "blood_glucose_level"]%string.

Definition is_missing (data : dict) (f : pystr) : bool :=
  match data !! f with
  | None => true
  | Some v => strip_is_empty (py_str v)
  end.

(** [data.get(k, dflt)] *)
Definition get (data : dict) (k : string) (dflt : pyval) : pyval :=
  default dflt (data !! u k).

Definition prediction_name (pred : Z) : pyval :=
  PStr (if pred =? 1 then u "diabetic" else u "non_diabetic").

Definition error_info (e : pystr) : dict := dict_of [("error", PStr e)].

Definition entry (m : pyfloat) (a : bool) (t : event_type) (i : dict) : log_entry :=
  {| mse := m; is_attack := a; ev_type := t; additional_info := i |}.

(** The JSON answers of the endpoint, in the order of the source. *)
Definition resp_invalid_json : response :=
  respond 400 [("ok", PBool false);
               ("error", PStr (u "Invalid or missing JSON body"))].

Definition resp_missing (missing : list pystr) : response :=
  respond 400 [("ok", PBool false);
               ("error", PStr (u "Missing fields: " ++ join (u ", ") missing))].

Definition resp_poisoning_failed (e : pystr) : response :=
  respond 500 [("ok", PBool false);
               ("error", PStr (u "Poisoning check failed: " ++ e))].

Definition resp_poisoning_detected : response :=
  respond 403
    [("ok", PBool false);
     ("error", PStr (u "Model poisoning detected"));
     ("alert", PStr (u "Suspicious data patterns detected. This submission has been blocked for security reasons."))].

Definition resp_extraction_failed : response :=
  respond 500 [("ok", PBool false);
               ("error", PStr (u "Extraction check failed"))].

Definition resp_extraction_detected (mse : pyfloat) : response :=
  respond 403
    [("ok", PBool false);
     ("error", PStr (u "Model extraction attack detected"));
     ("alert", PStr (u "Potential model extraction attempt detected (MSE: "
                     ++ format_4f mse ++ u "). Access denied."));
     ("mse", PFloat mse)].

Definition resp_prediction_failed : response :=
  respond 500 [("ok", PBool false); ("error", PStr (u "Prediction failed"))].

Definition resp_save_failed : response :=
  respond 500 [("ok", PBool false); ("error", PStr (u "Failed to save record"))].

Definition resp_saved (pred : Z) : response :=
  respond 201
    [("ok", PBool true);
     ("message", PStr (u "Record saved successfully"));
     ("prediction", PStr (if pred =? 1 then u "Diabetic" else u "Non-Diabetic"))].

Definition resp_internal_error : response :=
  respond 500 [("ok", PBool false); ("error", PStr (u "Internal server error"))].

(** The [record] dict of step 4. *)
Definition record_of (data : dict) (pred : Z) : patient_record :=
  {| NIC := get data "NIC" PNone;
     Name := get data "Name" PNone;
     Address := get data "Address" (PStr []);
     medical := {| gender := get data "gender" PNone;
                   age := get data "age" PNone;
                   hypertension := get data "hypertension" PNone;
                   heart_disease := get data "heart_disease" PNone;
                   bmi := get data "bmi" PNone;
                   HbA1c_level := get data "HbA1c_level" PNone;
                   blood_glucose_level := get data "blood_glucose_level" PNone;
                   diabetes := pred |} |}.

(** The [nic_hash] of the plaintext summary. *)
Definition summary_key (record : patient_record) : result (option pystr) :=
  if py_truthy (NIC record)
  then rbind (sha256_hexdigest (py_str (NIC record))) (λ h, Ok (Some h))
  else Ok None.

(** The optional plaintext summary, in its own [try] whose handler only
    reports. *)
Definition plaintext_summary (record : patient_record) (pred : Z) : M unit :=
  try_pass (
    do nic_hash <- lift (summary_key record);
    store_call (insert_plain {| plain_NIC_Hashed := nic_hash;
                                name := Name record;
                                plain_diabetes := pred |})).

(** Step 4, and the answer. *)
Definition persist (data : dict) (pred : Z) : M response :=
  do _ <- enter Persistence;
  let record := record_of data pred in
  try_stage
    (do _ <- update_patient_record record;
     log_security_event (Some data) (Finite 0) false record_created
       (dict_of [("patient_name", Name record);
                 ("prediction", prediction_name pred)]))
    (λ e,
      do _ <- log_security_event (Some data) (Finite 0) false
                record_creation_error (error_info e);
      ret resp_save_failed)
    (λ _,
      do _ <- plaintext_summary record pred;
      ret (resp_saved pred)).

(** Step 3. *)
Definition predict (data : dict) (x : vec) (mse : pyfloat) : M response :=
  do _ <- enter Prediction;
  try_stage
    (do xs <- lift (apply_scaler (scaler E) x);
     do lp <- lift (predict_label xs);
     do _ <- log_security_event (Some data) mse false prediction_success
               (dict_of [("prediction", prediction_name lp.1);
                         ("probability",
                          match lp.2 with Some p => PFloat p | None => PNone end)]);
     ret lp.1)
    (λ e,
      do _ <- log_security_event (Some data) (Finite 0) false prediction_error
                (error_info e);
      ret resp_prediction_failed)
    (λ pred, persist data pred).

(** Step 2. The vector is built outside the inner [try]. *)
Definition extraction (data : dict) : M response :=
  do _ <- enter Extraction;
  do x <- lift (coerce_all data (feature_order E));
  try_stage
    (do am <- lift (detect_attack E x);
     do _ <- log_security_event (Some data) am.2 am.1 extraction_check
               (dict_of [("detection_threshold", PStr (u "auto"))]);
     ret am)
    (λ e,
      do _ <- log_security_event (Some data) (Finite 0) true
                extraction_check_error (error_info e);
      ret resp_extraction_failed)
    (λ am,
      if am.1 : bool then ret (resp_extraction_detected am.2)
      else predict data x am.2).

(** Step 1. *)
Definition poisoning (data : dict) : M response :=
  do _ <- enter Poisoning;
  try_stage
    (do poisoning_flag <- lift (_run_poisoning_check data);
     do _ <- log_security_event (Some data) (Finite 0) poisoning_flag
               poisoning_check
               (dict_of [("threshold", poisoning_threshold E)]);
     ret poisoning_flag)
    (λ e,
      do _ <- log_security_event (Some data) (Finite 0) true
                poisoning_check_error (error_info e);
      ret (resp_poisoning_failed e))
    (λ poisoning_flag,
      if poisoning_flag : bool then ret resp_poisoning_detected
      else extraction data).

(** The body of the outer [try]. [request] is what
    [request.get_json(silent=True)] returned: a JSON object, or [None]. *)
Definition create_patient_body (request : option dict) : M response :=
  match request with
  | None => ret resp_invalid_json
  | Some data =>
      if bool_decide (data = ∅) then ret resp_invalid_json
      else
        let missing := List.filter (is_missing data) required in
        match missing with
        | _ :: _ => ret (resp_missing missing)
        | [] => poisoning data
        end
  end.

(** [create_patient]: the outer handler logs a [system_error] and answers
    with a generic 500. *)
Definition create_patient (request : option dict) : M response :=
  try_stage (create_patient_body request)
    (λ e,
      do _ <- log_security_event request (Finite 0) false system_error
                (error_info e);
      ret resp_internal_error)
    ret.

End WithEnv.
End App.

(** ** The intake endpoint on any JSON body ([app.py]) *)

Module Intake.
Import Py Val Codec Store App.

(** What [request.get_json(silent=True)] returns when the body parses: an
    object, a scalar (a string, a number, a boolean or null) or an array,
    whose items are scalars ([Some]) or nested arrays and objects ([None]). *)
Inductive json :=
  | JObject (data : dict)
  | JScalar (v : pyval)
  | JArray (items : list (option pyval)).

(** [needle in hay] on two strings: a substring test. *)
Fixpoint starts_with (needle hay : pystr) : bool :=
  match needle, hay with
  | [], _ => true
  | c :: needle', d :: hay' => (c =? d)%N && starts_with needle' hay'
  | _ :: _, [] => false
  end.

Fixpoint contains (needle hay : pystr) : bool :=
  starts_with needle hay
  || match hay with
     | [] => false
     | _ :: hay' => contains needle hay'
     end.

(** [f in items] on an array: only a string item can equal the string [f]. *)
Definition in_array (f : pystr) (items : list (option pyval)) : bool :=
  existsb (λ item, match item with
                   | Some (PStr s) => bool_decide (s = f)
                   | _ => false
                   end) items.

Section WithEnv.
Context `{Interp} (E : env).

(** The body of the outer [try] on any body. On an object it is
    [App.create_patient_body]. On a truthy body of another type the
    comprehension of the required-field check evaluates [f not in data] for
    each required name in turn: a substring test on a string and a membership
    test on an array, after which [data[f]] raises for a name that is found,
    and a [TypeError] at once on a number or a boolean. *)
Definition create_patient_body (request : option json) : M response :=
  match request with
  | None => ret resp_invalid_json
  | Some (JObject data) => App.create_patient_body E (Some data)
  | Some (JScalar v) =>
      if negb (py_truthy v) then ret resp_invalid_json
      else
        match v with
        | PStr s =>
            if existsb (λ f, contains f s) required
            then lift (Raise (u "string indices must be integers, not 'str'"))
            else ret (resp_missing required)
        | PBool _ => lift (Raise (u "argument of type 'bool' is not iterable"))
        | PInt _ => lift (Raise (u "argument of type 'int' is not iterable"))
        | PFloat _ =>
            lift (Raise (u "argument of type 'float' is not iterable"))
        | PNone => ret resp_invalid_json
        end
  | Some (JArray items) =>
      match items with
      | [] => ret resp_invalid_json
      | _ :: _ =>
          if existsb (λ f, in_array f items) required
          then lift (Raise (u "list indices must be integers or slices, not str"))
          else ret (resp_missing required)
      end
  end.

(** The object handed to the logger by the outer handler, where there is
    one; it only feeds [input_hash]. *)
Definition logged_input (request : option json) : option dict :=
  match request with
  | Some (JObject data) => Some data
  | _ => None
  end.

(** [create_patient] on any body: the outer handler logs a [system_error] and
    answers with a generic 500. *)
Definition create_patient (request : option json) : M response :=
  try_stage (create_patient_body request)
    (λ e,
      do _ <- log_security_event E (logged_input request) (Finite 0) false
                system_error (error_info e);
      ret resp_internal_error)
    ret.

End WithEnv.
End Intake.

(** ** Concrete collaborators, to run the embedding on submissions *)

Module Demo.
Import Py Val Codec Store App.

Fixpoint digits_value (acc : Z) (s : pystr) : option (Z * nat) :=
  match s with
  | [] => Some (acc, O)
  | c :: s' =>
      if ((48 <=? c) && (c <=? 57))%N then
        match digits_value (10 * acc + (Z.of_N c - 48)) s' with
        | Some (v, n) => Some (v, S n)
        | None => None
        end
      else None
  end.

(** The text before the first full stop, and the text after it. *)
Fixpoint split_dot (s : pystr) : pystr * option pystr :=
  match s with
  | [] => ([], None)
  | c :: s' =>
      if (c =? 46)%N then ([], Some s')
      else let '(a, b) := split_dot s' in (c :: a, b)
  end.

(** Plain decimal numerals ([12], [27.5]): enough of [float(s)] for the
    examples. *)
Definition parse_decimal (s : pystr) : option pyfloat :=
  match split_dot s with
  | ((_ :: _) as int_part, None) =>
      match digits_value 0 int_part with
      | Some (i, _) => Some (Finite (inject_Z i))
      | None => None
      end
  | ((_ :: _) as int_part, Some ((_ :: _) as frac)) =>
      match digits_value 0 int_part, digits_value 0 frac with
      | Some (i, _), Some (f, n) =>
          Some (Finite (inject_Z i + (f # Pos.of_nat (Nat.pow 10 n)))%Q)
      | _, _ => None
      end
  | _ => None
  end.

#[export] Instance demo_interp : Interp := {|
  float_of_str := parse_decimal;
  float_of_int := λ z, Some (Finite (inject_Z z));
  str_of_float := λ _, u "0.0";
  repr_of_str := λ s, u "'" ++ s ++ u "'";
  format_4f := λ _, u "0.0000";
|}.

Definition features : list pystr :=
  u <$> ["gender"; "age"; "hypertension"; "heart_disease"; "bmi";
         "HbA1c_level"; "blood_glucose_level"]%string.

Definition demo_context : context := λ nonce n, Ok [Z.of_nat nonce; n].

(** Gates that pass, a model answering 0.73, a store that never faults. *)
Definition demo_env : env := {|
  feature_order := features;
  encoders := ∅;
  poisoning_scaler := None;
  poisoning_model := WithProba (λ _, Ok (Finite (1 # 10)));
  poisoning_threshold := PFloat (Finite (1 # 2));
  detect_attack := λ _, Ok (false, Finite (1 # 100));
  scaler := Some (λ x, Ok x);
  model := WithProba (λ _, Ok (Finite (73 # 100)));
  load_context := Ok demo_context;
  store_fault := λ _, None;
|}.

Definition submission (nic : pyval) (age_field : pyval) : dict :=
  dict_of [("NIC", nic); ("Name", PStr (u "Jane Perera"));
           ("Address", PStr (u "12 Lake Road"));
           ("gender", PInt 1); ("age", age_field); ("hypertension", PInt 0);
           ("heart_disease", PInt 0); ("bmi", PStr (u "27.5"));
           ("HbA1c_level", PStr (u "5.5")); ("blood_glucose_level", PInt 100)].

Definition demo_request : dict := submission (PStr (u "199012345V")) (PInt 45).

Definition empty_world : world :=
  {| patients := []; patients_plain := []; security_logs := [];
     clock := O; trace := [] |}.

End Demo.

Import Py Val Codec Store App.

(** ** The extraction gate ([protection.py]) *)

Module Protection.

(** The scaler, the autoencoder and the threshold loaded at import; the mean
    of the squared differences is floating point arithmetic of numpy. *)
Record config := {
  prot_scaler : vec → result vec;
  n_features_in : option nat;
  autoencoder : vec → result vec;
  threshold : pyfloat;
  mean_squared_error : vec → vec → pyfloat;
}.

(** [detect_attack(input_array)]: the reconstruction error of the scaled
    vector, and whether it exceeds the threshold. *)
Definition detect_attack (P : config) (x : vec) : result (bool * pyfloat) :=
  let n_expected := default (length x) (n_features_in P) in
  if bool_decide (length x = n_expected) then
    rbind (prot_scaler P x) (λ x_scaled,
    rbind (autoencoder P x_scaled) (λ recon,
    let mse := mean_squared_error P x_scaled recon in
    Ok (fgt mse (threshold P), mse)))
  else
    Raise (u "Protection scaler expects " ++ u (pretty n_expected)
           ++ u " features, got " ++ u (pretty (length x)) ++ u ".").

End Protection.

(** ** The linkage engine ([test_psi_encrypted.py], [encrypt_and_upload.py]) *)

Module PSI.

(** [set(hashed_nics_a).intersection(set(hashed_nics_b))] *)
Definition common_hashed_nics (hashed_nics_a hashed_nics_b : list pystr)
  : gset pystr :=
  list_to_set hashed_nics_a ∩ list_to_set hashed_nics_b.

(** [hashes_a.intersection(hashes_b)] on two sets *)
Definition intersect (hashes_a hashes_b : gset pystr) : gset pystr :=
  hashes_a ∩ hashes_b.

End PSI.

(** ** The identity codec in the words of the specification *)

(** Section 4.2 of the specification. *)
Module Spec.

(** [hash_digest = SHA-256(UTF8(stringify(value)))], a 256 bit digest;
    undefined when the text has no UTF-8 encoding. *)
Definition hash_digest `{Interp} (value : pyval) : option (list Z) :=
  SHA256.digest <$> encode (py_str value).

(** [ciphertext = HomomorphicEncrypt(hash_digest mod P, public_context)] *)
Definition ciphertext_of `{Interp} (ctx : context) (nonce : nat) (value : pyval)
  : option Codec.ciphertext :=
  match hash_digest value with
  | Some d =>
      match ctx nonce (SHA256.be_value d mod 65537) with
      | Ok c => Some c
      | Raise _ => None
      end
  | None => None
  end.

End Spec.

(** ** Environments of the scenarios *)

Module Scenarios.
Import Demo.

(** The poisoning classifier answers 0.9, above the threshold 0.5. *)
Definition poisoned_env : env := {|
  feature_order := features;
  encoders := ∅;
  poisoning_scaler := None;
  poisoning_model := WithProba (λ _, Ok (Finite (9 # 10)));
  poisoning_threshold := PFloat (Finite (1 # 2));
  detect_attack := detect_attack demo_env;
  scaler := scaler demo_env;
  model := model demo_env;
  load_context := load_context demo_env;
  store_fault := λ _, None;
|}.

(** The first store call of the run, the insert of the poisoning verdict,
    times out; the store is back afterwards. *)
Definition audit_outage_env : env := {|
  feature_order := features;
  encoders := ∅;
  poisoning_scaler := None;
  poisoning_model := poisoning_model demo_env;
  poisoning_threshold := poisoning_threshold demo_env;
  detect_attack := detect_attack demo_env;
  scaler := scaler demo_env;
  model := model demo_env;
  load_context := load_context demo_env;
  store_fault := λ k, if (k =? 0)%nat
                      then Some (u "ServerSelectionTimeoutError") else None;
|}.

(** [ts.bfv_vector] raises on the third encryption of the run (the address,
    issued at clock 5 after three audit inserts and two encryptions). *)
Definition failing_context : context :=
  λ nonce n, if (nonce =? 5)%nat then Raise (u "encryption failed")
             else demo_context nonce n.

Definition failing_encryption_env : env := {|
  feature_order := features;
  encoders := ∅;
  poisoning_scaler := None;
  poisoning_model := poisoning_model demo_env;
  poisoning_threshold := poisoning_threshold demo_env;
  detect_attack := detect_attack demo_env;
  scaler := scaler demo_env;
  model := model demo_env;
  load_context := Ok failing_context;
  store_fault := λ _, None;
|}.

(** The poisoning classifier raises on the submitted vector. *)
Definition crashing_poisoning_env : env := {|
  feature_order := features;
  encoders := ∅;
  poisoning_scaler := None;
  poisoning_model := WithProba (λ _, Raise (u "Input X contains NaN."));
  poisoning_threshold := poisoning_threshold demo_env;
  detect_attack := detect_attack demo_env;
  scaler := scaler demo_env;
  model := model demo_env;
  load_context := load_context demo_env;
  store_fault := λ _, None;
|}.

(** The scaler halves every feature, and the classifier answers 0.73 when the
    first feature it is given is 0.5 (a scaled [gender] of 1) and 0.1
    otherwise. *)
Definition halving_scaler (x : vec) : result vec :=
  Ok ((λ v, match v with
            | Finite q => Finite (q / 2)%Q
            | _ => v
            end) <$> x).

Definition scaled_gender_model (xs : vec) : result pyfloat :=
  Ok match xs with
     | Finite q :: _ =>
         if Qeq_bool q (1 # 2) then Finite (73 # 100) else Finite (1 # 10)
     | _ => Finite (1 # 10)
     end.

Definition scaling_env : env := {|
  feature_order := features;
  encoders := ∅;
  poisoning_scaler := None;
  poisoning_model := poisoning_model demo_env;
  poisoning_threshold := poisoning_threshold demo_env;
  detect_attack := detect_attack demo_env;
  scaler := Some halving_scaler;
  model := WithProba scaled_gender_model;
  load_context := load_context demo_env;
  store_fault := λ _, None;
|}.

End Scenarios.

(** ** The read endpoints ([app.py]) *)

Module Reads.

(** The endpoints are taken with the [Database] object of [db_connection.py]
    in place: it is made when the module is imported, which ends the process
    if the connection fails, so the branch that answers "Database not
    available" is not taken. *)

(** The query string, [request.args]. *)
Definition args := gmap pystr pystr.

(** What a read endpoint returns: a status with its payload, or a status with
    an error message. *)
Inductive answer (A : Type) :=
  | Payload (code : Z) (a : A)
  | Failure (code : Z) (error : pystr).
Arguments Payload {A} code a.
Arguments Failure {A} code error.

Definition code_of {A} (r : answer A) : Z :=
  match r with
  | Payload c _ | Failure c _ => c
  end.

(** A summary as the patient endpoints return it ([created_at] left out). *)
Record patient_view := {
  view_NIC_Hashed : option pystr;
  view_name : pyval;
  view_diabetes : Z;
  view_prediction : pystr;
}.

Record pagination := {
  page : Z;
  per_page : Z;
  total : Z;
  total_pages : Z;
}.

Record patient_page := {
  page_patients : list patient_view;
  page_pagination : pagination;
}.

(** The counts of [get_patient_stats]; the percentage, which is floating
    point arithmetic, and the count of the last seven days are left out. *)
Record patient_stats := {
  total_patients : nat;
  diabetic_patients : nat;
  non_diabetic_patients : nat;
}.

(** An audit entry as [get_logs] returns it ([id], [timestamp] and
    [input_hash] left out, as in [log_entry]). *)
Record log_view := {
  view_mse : pyfloat;
  view_is_attack : bool;
  view_event_type : pystr;
  view_additional_info : gmap pystr pyval;
}.

(** The [event_type] strings of the audit entries. *)
Definition event_type_name (t : event_type) : pystr :=
  u match t with
    | poisoning_check => "poisoning_check"
    | poisoning_check_error => "poisoning_check_error"
    | extraction_check => "extraction_check"
    | extraction_check_error => "extraction_check_error"
    | prediction_success => "prediction_success"
    | prediction_error => "prediction_error"
    | record_created => "record_created"
    | record_creation_error => "record_creation_error"
    | system_error => "system_error"
    end.

(** The documents of a collection with their [created_at]: the collections
    are kept in insertion order and are only appended to, and [created_at i]
    is the [datetime.utcnow()] the document inserted as number [i] was given,
    in the milliseconds the database keeps. *)
Definition stamped {A} (created_at : nat → Z) (col : list A) : list (Z * A) :=
  zip (created_at <$> seq 0 (length col)) col.

(** [a // b] on integers *)
Definition floordiv (a b : Z) : result Z :=
  if b =? 0 then Raise (u "integer division or modulo by zero") else Ok (a / b).

(** The counts of [get_logs_stats]; the rate and the mean, which are floating
    point arithmetic, the groups by event type and the counts of the last day
    are left out. *)
Record log_stats := {
  total_logs : nat;
  attack_logs : nat;
  normal_logs : Z;
}.

(** The queries of the two statistics endpoints:
    [count_documents({"is_attack": True})] and
    [count_documents({"diabetes": label})]. *)
Definition count_attacks (logs : list log_entry) : nat :=
  length (filter (λ e, is_attack e = true) logs).

Definition count_diabetes (label : Z) (col : list plain_summary) : nat :=
  length (filter (λ s, plain_diabetes s = label) col).

(** [col.find_one({"NIC_Hashed": nic_hash})]: the first match. *)
Definition find_one (nic_hash : pystr) (col : list plain_summary)
  : option plain_summary :=
  List.find (λ s, bool_decide (plain_NIC_Hashed s = Some nic_hash)) col.

Definition view (s : plain_summary) : patient_view :=
  {| view_NIC_Hashed := plain_NIC_Hashed s;
     view_name := name s;
     view_diabetes := plain_diabetes s;
     view_prediction :=
       if plain_diabetes s =? 1 then u "Diabetic" else u "Non-Diabetic" |}.

Definition view_log (e : log_entry) : log_view :=
  {| view_mse := mse e;
     view_is_attack := is_attack e;
     view_event_type := event_type_name (ev_type e);
     view_additional_info := additional_info e |}.

Section WithEnv.
Context `{Interp} (E : env).

(** [int(s)] on a query argument ([None] is [ValueError]), and what the
    driver returns for a negative limit [-n]: both are outside the
    repository. *)
Context (int_of_str : pystr → option Z).
Context (single_batch : ∀ A : Type, Z → list A → result (list A)).

(** The time each summary and each audit entry was inserted at, and the
    server's [.sort("created_at", -1)] on documents paired with that time:
    both are outside the repository. *)
Context (plain_created_at log_created_at : nat → Z).
Context (sort_desc : ∀ A : Type, list (Z * A) → list (Z * A)).

(** [col.find(query).sort("created_at", -1)] *)
Definition find_sorted {A} (created_at : nat → Z) (query : A → bool)
    (col : list A) : list A :=
  (sort_desc A (List.filter (λ d, query d.2) (stamped created_at col))).*2.

(** [int(request.args.get(name, dflt))] *)
Definition int_arg (a : args) (name : string) (dflt : Z) : result Z :=
  match a !! u name with
  | None => Ok dflt
  | Some s =>
      match int_of_str s with
      | Some z => Ok z
      | None =>
          Raise (u "invalid literal for int() with base 10: " ++ repr_of_str s)
      end
  end.

(** One read of the store. *)
Definition store_read {A} (f : world → A) : M A :=
  λ w, match store_fault E (clock w) with
       | Some e => (Raise e, tick w)
       | None => (Ok (f w), tick w)
       end.

(** [.skip(skip).limit(limit)] on the documents a query lists: a negative
    skip is refused by the driver, a skip beyond 64 bits cannot be encoded,
    and a limit of 0 is no limit. *)
Definition skip_limit {A} (skip limit : Z) (docs : world → list A)
  : M (list A) :=
  if skip <? 0 then lift (Raise (u "'skip' must be >= 0"))
  else if 2 ^ 63 <=? skip then
    lift (Raise (u "MongoDB can only handle up to 8-byte ints"))
  else
    do found <- store_read docs;
    let rest := drop (Z.to_nat skip) found in
    if limit =? 0 then ret rest
    else if 0 <? limit then ret (take (Z.to_nat limit) rest)
    else lift (single_batch A (- limit) rest).

(** [GET /api/patients] *)
Definition list_patients (a : args) : M (answer patient_page) :=
  try_stage
    (do page <- lift (int_arg a "page" 1);
     do per_page_arg <- lift (int_arg a "per_page" 10);
     let per_page := Z.min per_page_arg 100 in
     let skip := (page - 1) * per_page in
     do total <- store_read (λ w, Z.of_nat (length (patients_plain w)));
     do patients <- skip_limit skip per_page
                      (λ w, find_sorted plain_created_at (λ _, true)
                              (patients_plain w));
     do total_pages <- lift (floordiv (total + per_page - 1) per_page);
     ret (Payload 200
            {| page_patients := view <$> patients;
               page_pagination :=
                 {| page := page; per_page := per_page; total := total;
                    total_pages := total_pages |} |}))
    (λ _, ret (Failure 500 (u "Failed to retrieve patients")))
    ret.

(** [GET /api/patients/<nic_hash>] *)
Definition get_patient (nic_hash : pystr) : M (answer patient_view) :=
  try_stage
    (do patient <- store_read (λ w, find_one nic_hash (patients_plain w));
     match patient with
     | None => ret (Failure 404 (u "Patient not found"))
     | Some p => ret (Payload 200 (view p))
     end)
    (λ _, ret (Failure 500 (u "Failed to retrieve patient")))
    ret.

(** [GET /api/patients/stats]: four counts, the last one by creation time. *)
Definition get_patient_stats : M (answer patient_stats) :=
  try_stage
    (do total <- store_read (λ w, length (patients_plain w));
     do diabetic <- store_read (λ w, count_diabetes 1 (patients_plain w));
     do non_diabetic <- store_read (λ w, count_diabetes 0 (patients_plain w));
     do _ <- store_read (λ _, ());
     ret (Payload 200
            {| total_patients := total;
               diabetic_patients := diabetic;
               non_diabetic_patients := non_diabetic |}))
    (λ _, ret (Failure 500 (u "Failed to retrieve statistics")))
    ret.

(** [GET /api/logs/stats]: two counts, then two aggregations and two counts
    by creation time. *)
Definition get_logs_stats : M (answer log_stats) :=
  try_stage
    (do total <- store_read (λ w, length (security_logs w));
     do attacks <- store_read (λ w, count_attacks (security_logs w));
     do _ <- store_read (λ _, ());
     do _ <- store_read (λ _, ());
     do _ <- store_read (λ _, ());
     do _ <- store_read (λ _, ());
     ret (Payload 200
            {| total_logs := total;
               attack_logs := attacks;
               normal_logs := Z.of_nat total - Z.of_nat attacks |}))
    (λ _, ret (Failure 500 (u "Failed to retrieve statistics")))
    ret.

(** The filter of [get_logs]: an absent or empty [event_type] selects every
    entry. *)
Definition event_filter (a : args) (e : log_entry) : bool :=
  match a !! u "event_type" with
  | Some t =>
      if bool_decide (t = []) then true
      else bool_decide (event_type_name (ev_type e) = t)
  | None => true
  end.

(** [GET /api/logs]: any exception is answered with an empty list and 200. *)
Definition get_logs (a : args) : M (answer (list log_view)) :=
  try_stage
    (do page <- lift (int_arg a "page" 1);
     do per_page_arg <- lift (int_arg a "per_page" 50);
     let per_page := Z.min per_page_arg 100 in
     let skip := (page - 1) * per_page in
     do logs <- skip_limit skip per_page
                  (λ w, find_sorted log_created_at (event_filter a)
                          (security_logs w));
     ret (Payload 200 (view_log <$> logs)))
    (λ _, ret (Payload 200 []))
    ret.

End WithEnv.
End Reads.

(** ** The upload script ([encrypt_and_upload.py]) *)

Module Upload.

(** A value stored in a document: a scalar, or [Binary] data. *)
Inductive field :=
  | Scalar (v : pyval)
  | Binary (c : ciphertext).

(** A document of a hospital collection, and a row of a [DataFrame]. *)
Definition document := gmap pystr field.
Definition row := gmap pystr pyval.

Inductive hospital := A | B.

Record store := {
  hospital_a_patients : list document;
  hospital_b_patients : list document;
  calls : nat;          (* encryptions and driver calls issued so far *)
}.

(** What the script reads: the key file, the two CSV files, and the driver,
    whose call issued at a given count may raise. *)
Record files := {
  public_key : result context;
  hospital_csv : hospital → result (list row);
  driver_fault : nat → option pystr;
}.

Definition collection (h : hospital) (s : store) : list document :=
  match h with
  | A => hospital_a_patients s
  | B => hospital_b_patients s
  end.

Definition set_collection (h : hospital) (col : list document) (s : store)
  : store :=
  match h with
  | A => {| hospital_a_patients := col;
            hospital_b_patients := hospital_b_patients s; calls := calls s |}
  | B => {| hospital_a_patients := hospital_a_patients s;
            hospital_b_patients := col; calls := calls s |}
  end.

Definition advance (n : nat) (s : store) : store :=
  {| hospital_a_patients := hospital_a_patients s;
     hospital_b_patients := hospital_b_patients s; calls := (n + calls s)%nat |}.

(** The keys of the document built for a row, in the order of the source. *)
Definition document_keys : list pystr :=
  u <$> ["NIC_Hashed"; "NIC_Encrypted"; "Name_Encrypted"; "Address_Encrypted";
         "gender"; "age"; "hypertension"; "heart_disease"; "bmi";
         "HbA1c_level"; "blood_glucose_level"; "diabetes"]%string.

#[export] Instance result_bind : MBind result := λ A B k r, rbind r k.

Section WithFiles.
Context `{Interp} (int_of_str : pystr → option Z) (F : files).

(** [row[k]]; a missing column is a [KeyError]. *)
Definition getitem (r : row) (k : string) : result pyval :=
  match r !! u k with
  | Some v => Ok v
  | None => Raise (repr_of_str (u k))
  end.

(** [int(v)] *)
Definition py_int (v : pyval) : result Z :=
  match v with
  | PNone =>
      Raise (u "int() argument must be a string, a bytes-like object or a real number, not 'NoneType'")
  | PBool b => Ok (if b then 1 else 0)
  | PInt z => Ok z
  | PFloat (Finite q) => Ok (Qnum q ÷ Zpos (Qden q))
  | PFloat NaN => Raise (u "cannot convert float NaN to integer")
  | PFloat _ => Raise (u "cannot convert float infinity to integer")
  | PStr s =>
      match int_of_str s with
      | Some z => Ok z
      | None =>
          Raise (u "invalid literal for int() with base 10: " ++ repr_of_str s)
      end
  end.

(** [int(hashlib.sha256(str(value).encode()).hexdigest(), 16) % plain_modulus] *)
Definition slot_of (value : pyval) (plain_modulus : Z) : result Z :=
  h ← sha256_hexdigest (py_str value);
  match Hex.int16 h with
  | Some n => Ok (n mod plain_modulus)
  | None => Raise (u "invalid literal for int() with base 16")
  end.

(** [encrypt_value(context, value)], with the default [plain_modulus]; no
    exception is caught here. *)
Definition encrypt_value (ctx : context) (nonce : nat) (value : pyval)
  : result ciphertext :=
  hashed_int ← slot_of value 65537;
  ctx nonce hashed_int.

(** The body of the loop up to the insert: three encryptions whose results
    are dropped, then the document, whose values are evaluated in order.
    [n] numbers the first encryption. *)
Definition document_of_row (ctx : context) (n : nat) (r : row)
  : result document :=
  nic ← getitem r "NIC";
  nic_hashed ← sha256_hexdigest (py_str nic);
  nic_int ← slot_of nic 65537;
  _ ← ctx n nic_int;
  name ← getitem r "Name";
  name_int ← slot_of name 65537;
  _ ← ctx (1 + n)%nat name_int;
  address ← getitem r "Address";
  addr_int ← slot_of address 65537;
  _ ← ctx (2 + n)%nat addr_int;
  c_nic ← encrypt_value ctx (3 + n)%nat nic;
  c_name ← encrypt_value ctx (4 + n)%nat name;
  c_address ← encrypt_value ctx (5 + n)%nat address;
  gender ← getitem r "gender" ≫= py_int;
  age ← getitem r "age" ≫= py_int;
  hypertension ← getitem r "hypertension" ≫= py_int;
  heart_disease ← getitem r "heart_disease" ≫= py_int;
  bmi ← getitem r "bmi" ≫= py_float;
  HbA1c_level ← getitem r "HbA1c_level" ≫= py_float;
  blood_glucose_level ← getitem r "blood_glucose_level" ≫= py_int;
  diabetes ← getitem r "diabetes" ≫= py_int;
  Ok (list_to_map (zip document_keys
        [Scalar (PStr nic_hashed); Binary c_nic; Binary c_name;
         Binary c_address;
         Scalar (PInt gender); Scalar (PInt age); Scalar (PInt hypertension);
         Scalar (PInt heart_disease); Scalar (PFloat bmi);
         Scalar (PFloat HbA1c_level); Scalar (PInt blood_glucose_level);
         Scalar (PInt diabetes)])).

(** One call of the driver on a collection. *)
Definition driver_call (h : hospital)
    (f : list document → list document) (s : store) : result unit * store :=
  match driver_fault F (calls s) with
  | Some e => (Raise e, advance 1 s)
  | None => (Ok (), advance 1 (set_collection h (f (collection h s)) s))
  end.

(** [for idx, row in df.iterrows(): ... collection.insert_one(document)] *)
Fixpoint insert_rows (ctx : context) (h : hospital) (rows : list row)
    (s : store) : result unit * store :=
  match rows with
  | [] => (Ok (), s)
  | r :: rows' =>
      match document_of_row ctx (calls s) r with
      | Raise e => (Raise e, s)
      | Ok doc =>
          match driver_call h (λ col, col ++ [doc]) (advance 6 s) with
          | (Ok _, s') => insert_rows ctx h rows' s'
          | (Raise e, s') => (Raise e, s')
          end
      end
  end.

(** The body of the loop over the two hospitals. *)
Definition upload_hospital (ctx : context) (h : hospital) (s : store)
  : result unit * store :=
  match driver_call h (λ _, []) s with           (* delete_many({}) *)
  | (Raise e, s') => (Raise e, s')
  | (Ok _, s') =>
      match hospital_csv F h with                 (* pd.read_csv *)
      | Raise e => (Raise e, s')
      | Ok rows => insert_rows ctx h rows s'
      end
  end.

(** [doc['NIC_Hashed'] for doc in col.find({}, {'NIC_Hashed': 1})], as a
    set. The documents are the ones the loop has just inserted, whose
    [NIC_Hashed] is a [str]; on any other value this embedding stops. *)
Fixpoint hashes_of (col : list document) : result (gset pystr) :=
  match col with
  | [] => Ok ∅
  | doc :: col' =>
      match doc !! u "NIC_Hashed" with
      | Some (Scalar (PStr h)) => hs ← hashes_of col'; Ok ({[h]} ∪ hs)
      | Some _ => Raise (u "NIC_Hashed is not a str")
      | None => Raise (repr_of_str (u "NIC_Hashed"))
      end
  end.

Definition find_hashes (h : hospital) (s : store)
  : result (gset pystr) * store :=
  match driver_fault F (calls s) with
  | Some e => (Raise e, advance 1 s)
  | None => (hashes_of (collection h s), advance 1 s)
  end.

(** [upload_encrypted_data()]; the value is the number the verification
    prints, [len(common)]. *)
Definition upload_encrypted_data (s : store) : result nat * store :=
  match public_key F with
  | Raise e => (Raise e, s)
  | Ok ctx =>
      match upload_hospital ctx A s with
      | (Raise e, s1) => (Raise e, s1)
      | (Ok _, s1) =>
          match upload_hospital ctx B s1 with
          | (Raise e, s2) => (Raise e, s2)
          | (Ok _, s2) =>
              match find_hashes A s2 with
              | (Raise e, s3) => (Raise e, s3)
              | (Ok hashes_a, s3) =>
                  match find_hashes B s3 with
                  | (Raise e, s4) => (Raise e, s4)
                  | (Ok hashes_b, s4) =>
                      (Ok (size (PSI.intersect hashes_a hashes_b)), s4)
                  end
              end
          end
      end
  end.

End WithFiles.
End Upload.

(** ** The endpoints on the hospital collections ([app.py]) *)

Module Mpc.
Import Upload.

(** As for the read endpoints, the [Database] object is in place. *)

(** The sample of one hospital in the answer of [get_hospital_data]. *)
Record sample := {
  count : nat;
  sample_nics : list field;
  all_nics : list field;
}.

Record hospital_data := {
  hospital_a : option sample;
  hospital_b : option sample;
}.

(** The answer of [mpc_predict]. *)
Record prediction := {
  nic : pystr;
  secure_score : pyfloat;
  probability : pyfloat;
  prediction_text : pystr;
  features : list (pystr * option field);
}.

(** The [secure_inference] module, which is not part of the sources: its
    scaler, the inference, and [1.0 / (1.0 + np.exp(-score))]. *)
Record inference := {
  scaler : vec → result vec;
  perform_secure_inference_sync : vec → result pyfloat;
  sigmoid : pyfloat → pyfloat;
}.

Definition feature_columns : list pystr :=
  u <$> ["gender"; "age"; "hypertension"; "heart_disease"; "bmi";
         "HbA1c_level"; "blood_glucose_level"]%string.

Section WithDriver.
Context `{Interp} (int_of_str : pystr → option Z).
Context (single_batch : ∀ A : Type, Z → list A → result (list A)).
Context (fault : nat → option pystr) (I : inference).

Definition read {A} (f : store → A) (s : store) : result A * store :=
  match fault (calls s) with
  | Some e => (Raise e, advance 1 s)
  | None => (Ok (f s), advance 1 s)
  end.

(** [.limit(limit)]: 0 is no limit. *)
Definition limited {A} (limit : Z) (docs : list A) : result (list A) :=
  if limit =? 0 then Ok docs
  else if 0 <? limit then Ok (take (Z.to_nat limit) docs)
  else single_batch A (- limit) docs.

(** [[doc['NIC'] for doc in col.find({}, {'NIC': 1, '_id': 0}).limit(limit)]]:
    the projection keeps the [NIC] field of the documents that have one. *)
Fixpoint nics_of (docs : list document) : result (list field) :=
  match docs with
  | [] => Ok []
  | doc :: docs' =>
      match doc !! u "NIC" with
      | Some v => vs ← nics_of docs'; Ok (v :: vs)
      | None => Raise (repr_of_str (u "NIC"))
      end
  end.

Definition sample_of (h : hospital) (limit : Z) (s : store)
  : result sample * store :=
  match read (collection h) s with
  | (Raise e, s') => (Raise e, s')
  | (Ok docs, s') =>
      (found ← limited limit docs;
       nics ← nics_of found;
       Ok {| count := length nics; sample_nics := take 10 nics;
             all_nics := nics |}, s')
  end.

(** [GET /api/mpc/hospital-data]; the text of the exception goes into the
    answer. *)
Definition get_hospital_data (a : Reads.args)
    (s : store) : Reads.answer hospital_data * store :=
  let hospital_param := default (u "both") (a !! u "hospital") in
  match Reads.int_arg int_of_str a "limit" 50 with
  | Raise e => (Reads.Failure 500 e, s)
  | Ok limit =>
      let wants (which : string) :=
        bool_decide (hospital_param = u which)
        || bool_decide (hospital_param = u "both") in
      let '(ra, s1) :=
        if wants "A" then
          match sample_of A limit s with
          | (Ok x, s') => (Ok (Some x), s')
          | (Raise e, s') => (Raise e, s')
          end
        else (Ok None, s) in
      match ra with
      | Raise e => (Reads.Failure 500 e, s1)
      | Ok sample_a =>
          let '(rb, s2) :=
            if wants "B" then
              match sample_of B limit s1 with
              | (Ok x, s') => (Ok (Some x), s')
              | (Raise e, s') => (Raise e, s')
              end
            else (Ok None, s1) in
          match rb with
          | Raise e => (Reads.Failure 500 e, s2)
          | Ok sample_b =>
              (Reads.Payload 200
                 {| hospital_a := sample_a; hospital_b := sample_b |}, s2)
          end
      end
  end.

(** [col.find_one({"NIC": nic})]: the first document whose [NIC] is that
    text. *)
Definition find_by_nic (nic : pystr) (col : list document) : option document :=
  List.find (λ doc, match doc !! u "NIC" with
                    | Some (Scalar (PStr s)) => bool_decide (s = nic)
                    | _ => false
                    end) col.

(** [float(patient.get(col, 0))] *)
Definition feature_of (patient : document) (col : pystr) : result pyfloat :=
  match patient !! col with
  | None => py_float (PInt 0)
  | Some (Scalar v) => py_float v
  | Some (Binary _) =>
      Raise (u "float() argument must be a string or a real number, not 'Binary'")
  end.

Fixpoint features_of (patient : document) (cols : list pystr) : result vec :=
  match cols with
  | [] => Ok []
  | col :: cols' =>
      x ← feature_of patient col;
      xs ← features_of patient cols';
      Ok (x :: xs)
  end.

(** [GET /api/mpc/predict/<nic>] *)
Definition mpc_predict (nic : pystr) (s : store)
  : Reads.answer prediction * store :=
  match read (λ s, find_by_nic nic (hospital_a_patients s)) s with
  | (Raise e, s1) => (Reads.Failure 500 e, s1)
  | (Ok in_a, s1) =>
      let '(found, s2) :=
        match in_a with
        | Some patient => (Ok (Some patient), s1)
        | None => read (λ s, find_by_nic nic (hospital_b_patients s)) s1
        end in
      match found with
      | Raise e => (Reads.Failure 500 e, s2)
      | Ok None =>
          (Reads.Failure 404 (u "Patient " ++ nic ++ u " not found"), s2)
      | Ok (Some patient) =>
          let outcome :=
            patient_features ← features_of patient feature_columns;
            patient_features_scaled ← scaler I patient_features;
            score ← perform_secure_inference_sync I patient_features_scaled;
            let prob := sigmoid I score in
            Ok {| nic := nic; secure_score := score; probability := prob;
                  prediction_text :=
                    if fgt prob (Finite (1 # 2)) then u "Diabetic"
                    else u "Non-diabetic";
                  features := (λ col, (col, patient !! col)) <$> feature_columns |} in
          match outcome with
          | Ok p => (Reads.Payload 200 p, s2)
          | Raise e => (Reads.Failure 500 e, s2)
          end
      end
  end.

End WithDriver.
End Mpc.

(** ** The linkage demonstration ([test_psi_encrypted.py]) *)

Module PsiDemo.
Import Upload.

(** What [main] writes to [psi_results.json] ([timestamp] left out), and the
    list of matching NICs it prints. *)
Record results := {
  hospital_a_count : nat;
  hospital_b_count : nat;
  common_patients_count : nat;
  common_hashed_nics : gset pystr;
  encryption_status : pystr;
  psi_protocol : pystr;
  privacy_preserved : bool;
  original_common_nics : list pyval;
}.

Section WithFiles.
Context `{Interp} (F : files).

Definition hash_text (text : pyval) : result pystr :=
  sha256_hexdigest (py_str text).

(** [encrypt_value(context, value)]: any exception is reported and turned
    into [None]. *)
Definition encrypt_value (ctx : context) (nonce : nat) (value : pyval)
  : option ciphertext :=
  match (h ← sha256_hexdigest (py_str value);
         match Hex.int16 h with
         | Some n => ctx nonce (n mod 65537)
         | None => Raise (u "invalid literal for int() with base 16")
         end) with
  | Ok c => Some c
  | Raise _ => None
  end.

Definition optional (c : option ciphertext) : field :=
  match c with
  | Some c => Binary c
  | None => Scalar PNone
  end.

(** The body of the two loops over the rows: the digest and the record. [n]
    numbers the first encryption. *)
Definition encrypted_record (ctx : context) (n : nat) (r : row)
  : result (pystr * document) :=
  nic ← getitem r "NIC";
  nic_hashed ← hash_text nic;
  let c_nic := encrypt_value ctx n nic in
  name ← getitem r "Name";
  let c_name := encrypt_value ctx (1 + n)%nat name in
  address ← getitem r "Address";
  let c_address := encrypt_value ctx (2 + n)%nat address in
  gender ← getitem r "gender";
  age ← getitem r "age";
  hypertension ← getitem r "hypertension";
  heart_disease ← getitem r "heart_disease";
  bmi ← getitem r "bmi";
  HbA1c_level ← getitem r "HbA1c_level";
  blood_glucose_level ← getitem r "blood_glucose_level";
  diabetes ← getitem r "diabetes";
  Ok (nic_hashed,
      list_to_map (zip document_keys
        [Scalar (PStr nic_hashed); optional c_nic; optional c_name;
         optional c_address;
         Scalar gender; Scalar age; Scalar hypertension; Scalar heart_disease;
         Scalar bmi; Scalar HbA1c_level; Scalar blood_glucose_level;
         Scalar diabetes])).

(** One of the two loops: the records and the digests, in row order. *)
Fixpoint process (ctx : context) (n : nat) (rows : list row)
  : result (list document * list pystr) :=
  match rows with
  | [] => Ok ([], [])
  | r :: rows' =>
      hr ← encrypted_record ctx n r;
      rest ← process ctx (3 + n)%nat rows';
      Ok (hr.2 :: rest.1, hr.1 :: rest.2)
  end.

(** The last loop: the NICs of hospital A whose digest is common. *)
Fixpoint matching_nics (common : gset pystr) (rows : list row)
  : result (list pyval) :=
  match rows with
  | [] => Ok []
  | r :: rows' =>
      nic ← getitem r "NIC";
      h ← hash_text nic;
      rest ← matching_nics common rows';
      Ok (if decide (h ∈ common) then nic :: rest else rest)
  end.

(** [main()] *)
Definition main : result results :=
  df_a ← hospital_csv F A;
  df_b ← hospital_csv F B;
  context ← public_key F;
  a ← process context 0 df_a;
  b ← process context (3 * length df_a) df_b;
  match a.2 with
  | [] => Raise (u "list index out of range")   (* hashed_nics_a[0] *)
  | _ :: _ =>
      let common := PSI.common_hashed_nics a.2 b.2 in
      nics ← matching_nics common df_a;
      Ok {| hospital_a_count := length df_a;
            hospital_b_count := length df_b;
            common_patients_count := size common;
            common_hashed_nics := common;
            encryption_status := u "SUCCESS";
            psi_protocol := u "HASH-BASED";
            privacy_preserved := true;
            original_common_nics := nics |}
  end.

End WithFiles.
End PsiDemo.

(** ** Regular expressions, as far as [validate_email] needs them *)

Module Regex.

Inductive regex :=
  | Eps
  | Class (p : N → bool)          (* one character of a class *)
  | Cat (r s : regex)
  | Alt (r s : regex)
  | Star (r : regex).

(** [r+], [r{2,}] and [r?] *)
Definition plus (r : regex) : regex := Cat r (Star r).
Definition at_least_two (r : regex) : regex := Cat r (Cat r (Star r)).
Definition opt (r : regex) : regex := Alt r Eps.

Definition char (c : N) : regex := Class (N.eqb c).

Fixpoint nullable (r : regex) : bool :=
  match r with
  | Eps => true
  | Class _ => false
  | Cat r s => nullable r && nullable s
  | Alt r s => nullable r || nullable s
  | Star _ => true
  end.

(** The derivative: what is left to match after reading [c]; [None] when
    nothing can follow. *)
Fixpoint deriv (c : N) (r : regex) : option regex :=
  match r with
  | Eps => None
  | Class p => if p c then Some Eps else None
  | Cat r s =>
      match deriv c r, (if nullable r then deriv c s else None) with
      | Some r', Some s' => Some (Alt (Cat r' s) s')
      | Some r', None => Some (Cat r' s)
      | None, Some s' => Some s'
      | None, None => None
      end
  | Alt r s =>
      match deriv c r, deriv c s with
      | Some r', Some s' => Some (Alt r' s')
      | Some r', None => Some r'
      | None, Some s' => Some s'
      | None, None => None
      end
  | Star r =>
      match deriv c r with
      | Some r' => Some (Cat r' (Star r))
      | None => None
      end
  end.

(** The whole of [s] matches [r]. *)
Fixpoint fullmatch (r : regex) (s : pystr) : bool :=
  match s with
  | [] => nullable r
  | c :: s' =>
      match deriv c r with
      | Some r' => fullmatch r' s'
      | None => false
      end
  end.

End Regex.

(** ** Accounts ([routes/auth.py], [utils/auth.py], [models_auth/user.py]) *)

Module Auth.
Import Regex Upload.

(** A document of the [users] collection, as [create_user] writes it
    ([createdAt] left out); [_id] stands for the [ObjectId]. *)
Record user := {
  _id : nat;
  email : pystr;
  username : pystr;
  password : list Z;
  firstName : pystr;
  lastName : pystr;
  role : pyval;
  isActive : bool;
  lastLogin : option nat;
}.

Record store := {
  users : list user;
  next_id : nat;       (* the next [ObjectId] the driver generates *)
  time : nat;          (* driver calls issued so far, also the clock *)
}.

(** What lies outside the repository: [str.lower], bcrypt, PyJWT with the
    configured secret, the text form of an [ObjectId], and the driver, whose
    calls on [users_collection] may raise ([config/db_mongo.py] connected at
    import, so that [users_collection] is a collection). *)
Record services := {
  lower : pystr → pystr;
  hashpw : list Z → nat → result (list Z);
  checkpw : list Z → list Z → result bool;
  jwt_encode : pystr → nat → result pystr;
  jwt_decode : pystr → nat → option (gmap pystr pyval);
  object_id_text : nat → pystr;
  object_id : pyval → option nat;
  users_fault : nat → option pystr;
}.

(** [User.to_dict]: the document without its password. *)
Record user_view := {
  view_id : pystr;
  view_email : pystr;
  view_username : pystr;
  view_firstName : pystr;
  view_lastName : pystr;
  view_role : pyval;
  view_isActive : bool;
  view_lastLogin : option nat;
}.

(** The JSON answers of the account routes and of the two decorators; [user]
    is absent, null or a view. *)
Record response := {
  status : Z;
  success : bool;
  message : pystr;
  token : option pystr;
  user_field : option (option user_view);
}.

Definition refuse (code : Z) (text : string) : response :=
  {| status := code; success := false; message := u text; token := None;
     user_field := None |}.

(** [s.strip()] *)
Fixpoint lstrip (s : pystr) : pystr :=
  match s with
  | [] => []
  | c :: s' => if isspace c then lstrip s' else s
  end.

Definition strip (s : pystr) : pystr := reverse (lstrip (reverse (lstrip s))).

(** [s.split(' ')]: the pieces between single spaces. *)
Fixpoint split_space (s : pystr) : list pystr :=
  match s with
  | [] => [[]]
  | c :: s' =>
      if (c =? 32)%N then [] :: split_space s'
      else match split_space s' with
           | piece :: pieces => (c :: piece) :: pieces
           | [] => [[c]]
           end
  end.

(** The classes of the pattern of [validate_email]. *)
Definition letter (c : N) : bool :=
  (((97 <=? c) && (c <=? 122)) || ((65 <=? c) && (c <=? 90)))%N.
Definition digit (c : N) : bool := ((48 <=? c) && (c <=? 57))%N.

(** [[a-zA-Z0-9._%+-]] *)
Definition local_char (c : N) : bool :=
  letter c || digit c
  || (c =? 46)%N || (c =? 95)%N || (c =? 37)%N || (c =? 43)%N || (c =? 45)%N.

(** [[a-zA-Z0-9.-]] *)
Definition domain_char (c : N) : bool :=
  letter c || digit c || (c =? 46)%N || (c =? 45)%N.

(** [^[a-zA-Z0-9._%+-]+@[a-zA-Z0-9.-]+\.[a-zA-Z]{2,}$] under [re.match]: the
    match starts at the beginning, and [$] stands at the end of the text or
    just before a newline that ends it. *)
Definition pattern : regex :=
  Cat (plus (Class local_char))
 (Cat (char 64)
 (Cat (plus (Class domain_char))
 (Cat (char 46)
 (Cat (at_least_two (Class letter))
      (opt (char 10)))))).

(** [validate_email(email)]; [re.match] raises on anything but text. *)
Definition validate_email (email : pyval) : result bool :=
  match email with
  | PStr s => Ok (fullmatch pattern s)
  | _ => Raise (u "expected string or bytes-like object")
  end.

(** [len(v)] on a JSON scalar *)
Definition py_len (v : pyval) : result nat :=
  match v with
  | PStr s => Ok (length s)
  | _ => Raise (u "object has no len()")
  end.

(** A method of [str] called on a JSON scalar: [AttributeError] unless it is
    text. *)
Definition as_str (v : pyval) (method : string) : result pystr :=
  match v with
  | PStr s => Ok s
  | _ => Raise (u "object has no attribute '" ++ u method ++ u "'")
  end.

Definition required : list pystr :=
  u <$> ["email"; "username"; "password"; "firstName"; "lastName"; "role"]%string.

Definition roles : list pystr := u <$> ["admin"; "patient"; "hospital"]%string.

(** The message for a role outside [roles], which names them in double
    quotes (code point 34). *)
Definition invalid_role : pystr :=
  let quoted (s : string) := [34%N] ++ u s ++ [34%N] in
  u "Invalid role. Must be " ++ quoted "admin" ++ u " or " ++ quoted "patient"
  ++ u ", or " ++ quoted "hospital".

(** [field not in data or not data[field]] *)
Definition absent_or_falsy `{Interp} (data : dict) (field : pystr) : bool :=
  match data !! field with
  | None => true
  | Some v => negb (py_truthy v)
  end.

(** [d[k]] on the request body; a missing key is a [KeyError]. *)
Definition item `{Interp} (data : dict) (k : string) : result pyval :=
  match data !! u k with
  | Some v => Ok v
  | None => Raise (repr_of_str (u k))
  end.

Definition AuthM (A : Type) : Type := store → result A * store.

#[export] Instance auth_ret : MRet AuthM := λ A a s, (Ok a, s).
#[export] Instance auth_bind : MBind AuthM := λ A B k m s,
  match m s with
  | (Ok a, s') => k a s'
  | (Raise e, s') => (Raise e, s')
  end.

Definition pure {A} (r : result A) : AuthM A := λ s, (r, s).

(** [try: body / except Exception: return handler] *)
Definition guarded {A} (body : AuthM A) (handler : A) : AuthM A :=
  λ s, match body s with
       | (Ok a, s') => (Ok a, s')
       | (Raise _, s') => (Ok handler, s')
       end.

Definition to_dict (S : services) (d : user) : user_view :=
  {| view_id := object_id_text S (_id d);
     view_email := email d;
     view_username := username d;
     view_firstName := firstName d;
     view_lastName := lastName d;
     view_role := role d;
     view_isActive := isActive d;
     view_lastLogin := lastLogin d |}.

Section WithServices.
Context `{Interp} (S : services).

Definition tick (s : store) : store :=
  {| users := users s; next_id := next_id s; time := Datatypes.S (time s) |}.

(** One call of the driver on the [users] collection. *)
Definition users_call {A} (f : store → A * store) : AuthM A :=
  λ s, match users_fault S (time s) with
       | Some e => (Raise e, tick s)
       | None => let '(a, s') := f s in (Ok a, tick s')
       end.

(** [users_collection.find_one(query)]: the first match. *)
Definition find_one (query : user → bool) : AuthM (option user) :=
  users_call (λ s, (List.find query (users s), s)).

(** The argument of [find_by_id]: an [ObjectId], or a value to make one
    from. *)
Inductive id_like :=
  | IdObject (i : nat)
  | IdValue (v : pyval).

(** [User.find_by_id]: a bare [except] turns every failure into [None]. *)
Definition find_by_id (user_id : id_like) : AuthM (option user) :=
  guarded
    (i ← pure (match user_id with
               | IdObject i => Ok i
               | IdValue v =>
                   match object_id S v with
                   | Some i => Ok i
                   | None => Raise (u "InvalidId")
                   end
               end);
     find_one (λ d, bool_decide (_id d = i)))
    None.

(** [User.find_by_email] *)
Definition find_by_email (email : pyval) : AuthM (option user) :=
  e ← pure (as_str email "lower");
  find_one (λ d, bool_decide (Auth.email d = strip (lower S e))).

(** [User.user_exists(email=email)] and [User.user_exists(username=username)]
    on a truthy argument *)
Definition user_exists_email (email : pyval) : AuthM bool :=
  e ← pure (as_str email "lower");
  found ← find_one (λ d, bool_decide (Auth.email d = strip (lower S e)));
  mret (bool_decide (found ≠ None)).

Definition user_exists_username (username : pyval) : AuthM bool :=
  n ← pure (as_str username "strip");
  found ← find_one (λ d, bool_decide (Auth.username d = strip n));
  mret (bool_decide (found ≠ None)).

(** [User.create_user] *)
Definition create_user (email username password first_name last_name : pyval)
    (role : pyval) : AuthM nat :=
  λ s,
    match (p ← as_str password "encode";
           bytes ← match encode p with
                   | Some bs => Ok bs
                   | None => Raise (u "'utf-8' codec can't encode character: surrogates not allowed")
                   end;
           password_hash ← hashpw S bytes (time s);
           e ← as_str email "lower";
           n ← as_str username "strip";
           f ← as_str first_name "strip";
           l ← as_str last_name "strip";
           Ok {| _id := next_id s;
                 email := strip (lower S e);
                 username := strip n;
                 password := password_hash;
                 firstName := strip f;
                 lastName := strip l;
                 role := role;
                 isActive := true;
                 lastLogin := None |}) with
    | Raise e => (Raise e, s)
    | Ok user_data =>
        users_call (λ s, (next_id s,
                          {| users := users s ++ [user_data];
                             next_id := Datatypes.S (next_id s);
                             time := time s |})) s
    end.

(** [User.verify_password] *)
Definition verify_password (plain_password : pyval) (hashed_password : list Z)
  : result bool :=
  p ← as_str plain_password "encode";
  bytes ← match encode p with
          | Some bs => Ok bs
          | None => Raise (u "'utf-8' codec can't encode character: surrogates not allowed")
          end;
  checkpw S bytes hashed_password.

(** [User.update_last_login] *)
Definition update_last_login (user_id : nat) : AuthM unit :=
  users_call (λ s,
    ((), {| users := (λ d, if bool_decide (_id d = user_id)
                           then {| _id := _id d; email := email d;
                                   username := username d;
                                   password := password d;
                                   firstName := firstName d;
                                   lastName := lastName d; role := role d;
                                   isActive := isActive d;
                                   lastLogin := Some (time s) |}
                           else d) <$> users s;
            next_id := next_id s; time := time s |})).

(** [generate_token] *)
Definition generate_token (user_id : nat) : AuthM pystr :=
  λ s, (jwt_encode S (object_id_text S user_id) (time s), s).

(** [decode_token]: [None] for an expired or invalid token. *)
Definition decode_token (token : pystr) : AuthM (option (gmap pystr pyval)) :=
  λ s, (Ok (jwt_decode S token (time s)), s).

(** The body of the [try] of [register], from the validations on. *)
Definition register_body (data : dict) : AuthM response :=
  match List.find (absent_or_falsy data) required with
  | Some field =>
      mret {| status := 400; success := false;
              message := field ++ u " is required"; token := None;
              user_field := None |}
  | None =>
      email ← pure (item data "email");
      username ← pure (item data "username");
      password ← pure (item data "password");
      first_name ← pure (item data "firstName");
      last_name ← pure (item data "lastName");
      role ← pure (item data "role");
      valid ← pure (validate_email email);
      if negb valid then mret (refuse 400 "Invalid email format") else
      username_len ← pure (py_len username);
      if (username_len <? 3)%nat then
        mret (refuse 400 "Username must be at least 3 characters") else
      password_len ← pure (py_len password);
      if (password_len <? 6)%nat then
        mret (refuse 400 "Password must be at least 6 characters") else
      if negb (existsb (λ r, py_eq role (PStr r)) roles) then
        mret {| status := 400; success := false; message := invalid_role;
                token := None; user_field := None |} else
      email_taken ← user_exists_email email;
      if email_taken : bool then
        mret (refuse 400 "User with this email already exists") else
      username_taken ← user_exists_username username;
      if username_taken : bool then
        mret (refuse 400 "Username already taken") else
      user_id ← create_user email username password first_name last_name role;
      user ← find_by_id (IdObject user_id);
      token ← generate_token user_id;
      mret {| status := 201; success := true;
              message := u "Registration successful"; token := Some token;
              user_field := Some (to_dict S <$> user) |}
  end.

(** [register]; [request] is what [request.get_json()] gave: a JSON object,
    or an exception, after which [data] is not there to be read. *)
Definition register (request : option dict) : AuthM response :=
  guarded
    (match request with
     | Some data => register_body data
     | None => pure (Raise (u "Bad Request"))
     end)
    (refuse 500 "Server error during registration").

(** [data.get(k)] is falsy *)
Definition get_falsy `{Interp} (data : dict) (k : string) : bool :=
  match data !! u k with
  | None => true
  | Some v => negb (py_truthy v)
  end.

Definition login_body (data : dict) : AuthM response :=
  if get_falsy data "email" || get_falsy data "password" then
    mret (refuse 400 "Email and password are required") else
  email ← pure (item data "email");
  password ← pure (item data "password");
  found ← find_by_email email;
  match found with
  | None => mret (refuse 401 "Invalid credentials")
  | Some user =>
      if negb (isActive user) then mret (refuse 401 "Account is deactivated")
      else
        verified ← pure (verify_password password (Auth.password user));
        if negb verified then mret (refuse 401 "Invalid credentials") else
        _ ← update_last_login (_id user);
        token ← generate_token (_id user);
        mret {| status := 200; success := true;
                message := u "Login successful"; token := Some token;
                user_field := Some (Some (to_dict S user)) |}
  end.

(** [login] *)
Definition login (request : option dict) : AuthM response :=
  guarded
    (match request with
     | Some data => login_body data
     | None => pure (Raise (u "Bad Request"))
     end)
    (refuse 500 "Server error during login").

(** [token_required(f)], applied to a request with this [Authorization]
    header, if any: the answer of the decorator, or what [f] returns for the
    user it is called with. *)
Definition token_required {R} (f : user → AuthM R)
    (authorization : option pystr) : AuthM (response + R) :=
  match (match authorization with
         | None => inr None
         | Some auth_header =>
             match split_space auth_header !! 1%nat with
             | Some token => inr (Some token)
             | None => inl (refuse 401 "Invalid token format")
             end
         end) with
  | inl r => mret (inl r)
  | inr None | inr (Some []) => mret (inl (refuse 401 "Token is missing"))
  | inr (Some token) =>
      decoded ← decode_token token;
      match decoded with
      | None => mret (inl (refuse 401 "Token is invalid or expired"))
      | Some payload =>
          if bool_decide (payload = ∅) then
            mret (inl (refuse 401 "Token is invalid or expired"))
          else
            user_id ← pure (match payload !! u "user_id" with
                            | Some v => Ok v
                            | None => Raise (repr_of_str (u "user_id"))
                            end);
            found ← find_by_id (IdValue user_id);
            match found with
            | None => mret (inl (refuse 401 "User not found"))
            | Some user =>
                if negb (isActive user) then
                  mret (inl (refuse 401 "User account is deactivated"))
                else r ← f user; mret (inr r)
            end
      end
  end.

(** [role_required] with these [allowed_roles], applied to [f] and called
    with this [current_user]
    keyword argument, if any. *)
Definition role_required {R} (allowed_roles : list pystr) (f : user → AuthM R)
    (current_user : option user) : AuthM (response + R) :=
  match current_user with
  | None => mret (inl (refuse 401 "Authentication required"))
  | Some user =>
      if negb (existsb (λ r, py_eq (role user) (PStr r)) allowed_roles) then
        mret (inl {| status := 403; success := false;
                     message := u "Access denied. Required role: "
                                ++ join (u ", ") allowed_roles;
                     token := None; user_field := None |})
      else r ← f user; mret (inr r)
  end.

End WithServices.
End Auth.

(** ** Concrete collaborators of the read endpoints, the upload and the
    accounts *)

Module Fixtures.

(** Decimal numerals with an optional minus sign: enough of [int(s)] for the
    query strings and the CSV cells of the examples. *)
Definition int_of_str (s : pystr) : option Z :=
  match s with
  | [] => None
  | c :: s' =>
      if (c =? 45)%N then
        if bool_decide (s' = []) then None
        else (λ vn : Z * nat, - vn.1) <$> Demo.digits_value 0 s'
      else (λ vn : Z * nat, vn.1) <$> Demo.digits_value 0 s
  end.

(** A negative limit makes the server answer with one batch of at most that
    many documents. *)
Definition single_batch (A : Type) (n : Z) (docs : list A) : result (list A) :=
  Ok (take (Z.to_nat n) docs).

(** The server's sort, as a merge sort on the stamps. *)
Definition sort_desc (A : Type) (l : list (Z * A)) : list (Z * A) :=
  @merge_sort _ (λ d d' : Z * A, d'.1 ≤ d.1)
    (λ d d', decide (d'.1 ≤ d.1)) l.

(** A millisecond passes between two summaries; the four audit entries of a
    submission are written within one. *)
Definition plain_created_at (i : nat) : Z := Z.of_nat i.
Definition log_created_at (i : nat) : Z := Z.of_nat (i / 4).

(** A submission whose features are all numbers. *)
Definition numeric_request (nic : string) (name : string) : dict :=
  dict_of [("NIC", PStr (u nic)); ("Name", PStr (u name));
           ("Address", PStr (u "12 Lake Road"));
           ("gender", PInt 1); ("age", PInt 45); ("hypertension", PInt 0);
           ("heart_disease", PInt 0); ("bmi", PInt 27);
           ("HbA1c_level", PInt 5); ("blood_glucose_level", PInt 100)].

(** A query string. *)
Definition query (l : list (string * string)) : Reads.args :=
  list_to_map (prod_map u u <$> l).

(** A row of a hospital file. *)
Definition csv_row (nic : string) (name : string) (label : Z) : Upload.row :=
  dict_of [("NIC", PStr (u nic)); ("Name", PStr (u name));
           ("Address", PStr (u "Galle")); ("gender", PInt 0);
           ("age", PInt 61); ("hypertension", PInt 1);
           ("heart_disease", PInt 0); ("bmi", PInt 31);
           ("HbA1c_level", PInt 7); ("blood_glucose_level", PInt 180);
           ("diabetes", PInt label)].

Definition rows_a : list Upload.row :=
  [csv_row "199012345V" "Jane Perera" 1; csv_row "198511112V" "Kamal Silva" 0].
Definition rows_b : list Upload.row :=
  [csv_row "200033334V" "Nimal Dias" 0; csv_row "199012345V" "J. Perera" 1].

(** Both files readable, a context that loads, a driver that answers. *)
Definition linked_files : Upload.files := {|
  Upload.public_key := Ok Demo.demo_context;
  Upload.hospital_csv := λ h, Ok match h with
                                 | Upload.A => rows_a
                                 | Upload.B => rows_b
                                 end;
  Upload.driver_fault := λ _, None;
|}.

(** The file of hospital B is not there. *)
Definition missing_b_files : Upload.files := {|
  Upload.public_key := Ok Demo.demo_context;
  Upload.hospital_csv := λ h, match h with
                              | Upload.A => Ok rows_a
                              | Upload.B => Raise (u "No such file or directory")
                              end;
  Upload.driver_fault := λ _, None;
|}.

(** Every encryption fails. *)
Definition broken_context_files : Upload.files := {|
  Upload.public_key := Ok (λ _ _, Raise (u "encryption failed"));
  Upload.hospital_csv := Upload.hospital_csv linked_files;
  Upload.driver_fault := λ _, None;
|}.

Definition empty_store : Upload.store :=
  {| Upload.hospital_a_patients := []; Upload.hospital_b_patients := [];
     Upload.calls := O |}.

Definition identity_inference : Mpc.inference := {|
  Mpc.scaler := λ x, Ok x;
  Mpc.perform_secure_inference_sync := λ _, Ok (Finite 0);
  Mpc.sigmoid := λ _, Finite (1 # 2);
|}.

(** [str.lower] on ASCII letters. *)
Definition ascii_lower (s : pystr) : pystr :=
  (λ c, if ((65 <=? c) && (c <=? 90))%N then (c + 32)%N else c) <$> s.

(** Stand-ins for bcrypt and PyJWT: the hash is the salt followed by the
    password, the token is the identifier, which never expires. *)
Definition plain_services : Auth.services := {|
  Auth.lower := ascii_lower;
  Auth.hashpw := λ bytes t, Ok (Z.of_nat t :: bytes);
  Auth.checkpw := λ bytes h, Ok (bool_decide (tail h = bytes));
  Auth.jwt_encode := λ x _, Ok x;
  Auth.jwt_decode := λ tok _, Some {[ u "user_id" := PStr tok ]};
  Auth.object_id_text := λ i, u (pretty i);
  Auth.object_id := λ v, match v with
                         | PStr (_ :: _) as v' =>
                             match v' with
                             | PStr s => (λ vn : Z * nat, Z.to_nat vn.1)
                                         <$> Demo.digits_value 0 s
                             | _ => None
                             end
                         | _ => None
                         end;
  Auth.users_fault := λ _, None;
|}.

Definition registration (email username role : string) : dict :=
  dict_of [("email", PStr (u email)); ("username", PStr (u username));
           ("password", PStr (u "correct horse")); ("firstName", PStr (u "Jane"));
           ("lastName", PStr (u "Perera")); ("role", PStr (u role))].

Definition credentials (email password : string) : dict :=
  dict_of [("email", PStr (u email)); ("password", PStr (u password))].

Definition no_accounts : Auth.store :=
  {| Auth.users := []; Auth.next_id := O; Auth.time := O |}.

#[local] Existing Instance Demo.demo_interp.

(** The collections after the submissions of Jane and then Kamal. *)
Definition two_patients : world :=
  (create_patient Demo.demo_env
     (Some (numeric_request "198511112V" "Kamal Silva"))
     (create_patient Demo.demo_env
        (Some (numeric_request "199012345V" "Jane Perera"))
        Demo.empty_world).2).2.

(** The collections after the upload of the two example files. *)
Definition uploaded : Upload.store :=
  (Upload.upload_encrypted_data int_of_str linked_files
     empty_store).2.

(** Hospital A holds three other documents, hospital B one. *)
Definition stale_store : Upload.store :=
  {| Upload.hospital_a_patients := [∅; ∅; ∅];
     Upload.hospital_b_patients := [∅]; Upload.calls := O |}.

Definition after_failed_upload : Upload.store :=
  (Upload.upload_encrypted_data int_of_str missing_b_files
     stale_store).2.

(** What the demonstration reports on the two example files: one common
    patient, Jane. *)
Definition linked_report : PsiDemo.results :=
  {| PsiDemo.hospital_a_count := 2;
     PsiDemo.hospital_b_count := 2;
     PsiDemo.common_patients_count := 1;
     PsiDemo.common_hashed_nics :=
       {[ u "9c8513b324846bc589ba743818c8c7d15c0e4be1eb00faaec4db213105215c06" ]};
     PsiDemo.encryption_status := u "SUCCESS";
     PsiDemo.psi_protocol := u "HASH-BASED";
     PsiDemo.privacy_preserved := true;
     PsiDemo.original_common_nics := [PStr (u "199012345V")] |}.

(** The accounts after the registration of Jane. *)
Definition jane_registered : Auth.store :=
  (Auth.register plain_services
     (Some (registration "Jane@Example.com" "jane" "patient"))
     no_accounts).2.

(** The answer to a request, or a 500 where the route itself failed. *)
Definition answer_of (out : result Auth.response * Auth.store)
  : Auth.response :=
  match out.1 with
  | Ok r => r
  | Raise _ => Auth.refuse 500 "unhandled"
  end.

(** The route that answers with the username of the caller. *)
Definition whoami (user : Auth.user) : Auth.AuthM pystr :=
  Auth.pure (Ok (Auth.username user)).

End Fixtures.

(** * Properties *)

(** ** Vocabulary *)

(** The stages entered along a trace, and the order of the pipeline. *)
Definition stage_of_event (ev : event) : option stage :=
  match ev with
  | Enter s => Some s
  | Audit _ => None
  end.

Definition stages_of (tr : list event) : list stage := omap stage_of_event tr.

Definition pipeline_order : list stage :=
  [Poisoning; Extraction; Prediction; Persistence].

(** What entering a stage and one call of the audit logger leave behind. *)
Definition entered (s : stage) (w : world) : world :=
  {| patients := patients w; patients_plain := patients_plain w;
     security_logs := security_logs w; clock := clock w;
     trace := trace w ++ [Enter s] |}.

Definition logged (E : env) (e : log_entry) (w : world) : world :=
  {| patients := patients w;
     patients_plain := patients_plain w;
     security_logs :=
       security_logs w ++
       match store_fault E (clock w) with None => [e] | Some _ => [] end;
     clock := S (clock w);
     trace := trace w ++ [Audit e] |}.

(** The [patient_document] and the summary document of step 4. *)
Definition document_of (record : patient_record) (h : pystr)
    (c_nic c_name c_address : ciphertext) : patient_document :=
  {| NIC_Hashed := h; NIC_Encrypted := c_nic; Name_Encrypted := c_name;
     Address_Encrypted := c_address; doc_medical := medical record |}.

Definition summary_of (record : patient_record) (k : option pystr) (pred : Z)
  : plain_summary :=
  {| plain_NIC_Hashed := k; name := Name record; plain_diabetes := pred |}.

(** The trace of stages each followed by its audit call. *)
Definition audit_pairs (ps : list (stage * log_entry)) : list event :=
  ps ≫= λ p, [Enter p.1; Audit p.2].

(** [w'] extends [w] by the stages [ps.*1], each followed by one call of the
    audit logger; of the entries [ps.*2] the store kept those whose insert did
    not fault. *)
Definition audited (E : env) (ps : list (stage * log_entry)) (w w' : world)
  : Prop :=
  trace w' = trace w ++ audit_pairs ps
  ∧ ∃ kept, security_logs w' = security_logs w ++ kept
            ∧ kept `sublist_of` ps.*2
            ∧ ((∀ k, store_fault E k = None) → kept = ps.*2).

(** The state in which a stage function hands over: every stage entered so
    far is audited, except, when an exception is on its way to the outer
    handler, the stage [s] that raised it. *)
Definition outcome_audited (E : env) (from : list stage) (w : world)
    (out : result response * world) : Prop :=
  match out.1 with
  | Ok _ => ∃ ps, audited E ps w out.2 ∧ ps.*1 `prefix_of` from
  | Raise _ =>
      ∃ ps s w0, audited E ps w w0 ∧ trace out.2 = trace w0 ++ [Enter s]
                 ∧ security_logs out.2 = security_logs w0
                 ∧ (ps.*1 ++ [s]) `prefix_of` from
  end.

(** Either the run ends before step 4 without touching the collections and
    without answering 201, or it is step 4 run on the same collections. *)
Definition reach `{Interp} (E : env) (data : dict) (w : world)
    (out : result response * world) : Prop :=
  (patients out.2 = patients w ∧ patients_plain out.2 = patients_plain w
   ∧ ∀ r, out.1 = Ok r → status r ≠ 201)
  ∨ ∃ pred w0, patients w0 = patients w ∧ patients_plain w0 = patients_plain w
               ∧ out = persist E data pred w0.

Definition is_byte (b : Z) : Prop := 0 ≤ b < 256.

(** In the trace [tr], stage [a] is entered strictly before stage [b]. *)
Definition attempted_before (a b : stage) (tr : list event) : Prop :=
  ∀ i, tr !! i = Some (Enter b) →
       ∃ j, (j < i)%nat ∧ tr !! j = Some (Enter a).

(** Audit completeness as the specification words it, for a run on an empty
    store: as many entries in [security_logs] as stages entered. *)
Definition audit_complete_on `{Interp} (E : env) (request : option dict) : Prop :=
  let w' := (create_patient E request Demo.empty_world).2 in
  length (security_logs w') = length (stages_of (trace w')).

(** The three identity fields of a submission encrypt under [ctx], whatever
    the randomness. *)
Definition encryptable `{Interp} (ctx : context) (data : dict) : Prop :=
  ∀ nonce,
    is_Some (encrypt_vector ctx nonce (PStr (py_str (get data "NIC" PNone))))
    ∧ is_Some (encrypt_vector ctx nonce (get data "Name" PNone))
    ∧ is_Some (encrypt_vector ctx nonce (get data "Address" (PStr []))).

(** The upsert invariant as the specification words it, for two submissions
    on an empty store: the digest keys one encrypted document and one
    summary. *)
Definition one_document_each `{Interp} (E : env) (d1 d2 : dict) (h : pystr) : Prop :=
  let w1 := (create_patient E (Some d1) Demo.empty_world).2 in
  let w2 := (create_patient E (Some d2) w1).2 in
  count_documents h (patients w2) = 1%nat
  ∧ count_plain (Some h) (patients_plain w2) = 1%nat.

(** Agreement of the two keys, for a run on an empty store: the keys written
    to the summaries are the keys of the encrypted records. *)
Definition keys_agree_on `{Interp} (E : env) (request : option dict) : Prop :=
  let w' := (create_patient E request Demo.empty_world).2 in
  plain_NIC_Hashed <$> patients_plain w' = (Some ∘ NIC_Hashed) <$> patients w'.

(** The event types under which each stage reports to the audit logger. *)
Definition stage_types (s : stage) : list event_type :=
  match s with
  | Poisoning => [poisoning_check; poisoning_check_error]
  | Extraction => [extraction_check; extraction_check_error]
  | Prediction => [prediction_success; prediction_error]
  | Persistence => [record_created; record_creation_error]
  end.

(** Every entry is of a type of the stage it is paired with. *)
Definition own_entries (ps : list (stage * log_entry)) : Prop :=
  Forall (λ p, ev_type p.2 ∈ stage_types p.1) ps.

(** The calls of the audit logger along a trace. *)
Definition audit_calls (tr : list event) : list log_entry :=
  omap (λ ev, match ev with
              | Audit e => Some e
              | Enter _ => None
              end) tr.

(** [outcome_audited], with the type of every entry and the answer told
    apart from the one of the outer handler. *)
Definition outcome_reported (E : env) (from : list stage) (w : world)
    (out : result response * world) : Prop :=
  match out.1 with
  | Ok r => ∃ ps, audited E ps w out.2 ∧ ps.*1 `prefix_of` from
                  ∧ own_entries ps ∧ r ≠ resp_internal_error
  | Raise _ =>
      ∃ ps s w0, audited E ps w w0 ∧ trace out.2 = trace w0 ++ [Enter s]
                 ∧ security_logs out.2 = security_logs w0
                 ∧ (ps.*1 ++ [s]) `prefix_of` from
                 ∧ own_entries ps
  end.

(** The statuses the intake endpoint answers with. *)
Definition intake_statuses : list Z := [201; 400; 403; 500].

(** Two submissions that carry the same value, or both none, under every
    feature of the model. *)
Definition same_features (E : env) (d1 d2 : dict) : Prop :=
  ∀ col, col ∈ feature_order E → d1 !! col = d2 !! col.

(** A character of a [hexdigest()]: a decimal digit or a letter from a to f. *)
Definition is_hex_lower (c : N) : Prop :=
  (48 ≤ c ≤ 57)%N ∨ (97 ≤ c ≤ 102)%N.

(** The keys of the encrypted records. *)
Definition record_keys (w : world) : list pystr := NIC_Hashed <$> patients w.

(** The items of a page, or none when the endpoint failed. *)
Definition items_of (out : result (Reads.answer Reads.patient_page) * world)
  : list Reads.patient_view :=
  match out.1 with
  | Ok (Reads.Payload _ p) => Reads.page_patients p
  | _ => []
  end.

(** The store answers every call. *)
Definition store_up (E : env) : Prop := ∀ k, store_fault E k = None.

(** The last inserted first. *)
Definition newest_first {A} (col : list A) : list A := reverse col.

(** [docs] lists the documents of [col] that match [query], each once, in
    descending order of [created_at]; documents with the same [created_at]
    come in any order. *)
Definition listing {A} (created_at : nat → Z) (query : A → bool)
    (col docs : list A) : Prop :=
  ∃ l : list (Z * A),
    l ≡ₚ List.filter (λ d, query d.2) (Reads.stamped created_at col)
    ∧ StronglySorted (λ d d' : Z * A, d'.1 ≤ d.1) l
    ∧ docs = l.*2.

(** What is assumed of the server's sort: the same documents, in descending
    order of the key. *)
Definition sorts_descending
    (sort_desc : ∀ A : Type, list (Z * A) → list (Z * A)) : Prop :=
  ∀ A (l : list (Z * A)),
    sort_desc A l ≡ₚ l ∧ StronglySorted (λ d d' : Z * A, d'.1 ≤ d.1) (sort_desc A l).

(** No two of the first [n] documents were inserted in the same millisecond;
    and the clock did not go back either. *)
Definition stamps_distinct (created_at : nat → Z) (n : nat) : Prop :=
  ∀ i j, (i < n)%nat → (j < n)%nat → created_at i = created_at j → i = j.

Definition stamps_increase (created_at : nat → Z) (n : nat) : Prop :=
  ∀ i j, (i < j)%nat → (j < n)%nat → created_at i < created_at j.

(** The digest of the NIC of a row, when it has one. *)
Definition digest_of_row `{Interp} (r : Upload.row) : option pystr :=
  match r !! u "NIC" with
  | Some nic =>
      match sha256_hexdigest (py_str nic) with
      | Ok h => Some h
      | Raise _ => None
      end
  | None => None
  end.

(** The document [d] is the one the upload stores for the row [r]: it is
    keyed by the digest of the NIC of [r] and has the twelve fields of the
    script and no other, in particular none of [NIC], [Name], [Address]. *)
Definition stored_for `{Interp} (r : Upload.row)
    (d : gmap pystr Upload.field) : Prop :=
  ∃ h, digest_of_row r = Some h
       ∧ d !! u "NIC_Hashed" = Some (Upload.Scalar (PStr h))
       ∧ dom d = (list_to_set Upload.document_keys : gset pystr).

(** The other hospital. *)
Definition other (h : Upload.hospital) : Upload.hospital :=
  match h with
  | Upload.A => Upload.B
  | Upload.B => Upload.A
  end.

(** The texts a regular expression denotes. *)
Inductive lang : Regex.regex → pystr → Prop :=
  | lang_eps : lang Regex.Eps []
  | lang_class p c : p c = true → lang (Regex.Class p) [c]
  | lang_cat r s x y : lang r x → lang s y → lang (Regex.Cat r s) (x ++ y)
  | lang_alt_l r s x : lang r x → lang (Regex.Alt r s) x
  | lang_alt_r r s x : lang s x → lang (Regex.Alt r s) x
  | lang_star_nil r : lang (Regex.Star r) []
  | lang_star_cons r x y :
      lang r x → lang (Regex.Star r) y → lang (Regex.Star r) (x ++ y).

(** The shape of an address: a local part, [@], a domain, a full stop, a
    last label, and possibly a final newline. *)
Definition address_shape (s local domain tld nl : pystr) : Prop :=
  s = local ++ 64%N :: domain ++ 46%N :: tld ++ nl
  ∧ local ≠ [] ∧ Forall (λ c, Auth.local_char c = true) local
  ∧ domain ≠ [] ∧ Forall (λ c, Auth.domain_char c = true) domain
  ∧ (2 ≤ length tld)%nat ∧ Forall (λ c, Auth.letter c = true) tld
  ∧ (nl = [] ∨ nl = [10%N]).

(** The account [d] is the one a registration with the body [data] creates in
    the store [s]: the address is well-formed and stored lowercased and
    stripped, the username has at least 3 characters and is stored stripped,
    the password has at least 6 characters and is stored hashed, the role is
    one of the three, the account is active, and no account of [s] has its
    address or its username. *)
Definition created `{Interp} (S : Auth.services) (data : dict) (s : Auth.store)
    (d : Auth.user) : Prop :=
  ∃ e n p bytes r,
    data !! u "email" = Some (PStr e)
    ∧ Regex.fullmatch Auth.pattern e = true
    ∧ Auth.email d = Auth.strip (Auth.lower S e)
    ∧ data !! u "username" = Some (PStr n)
    ∧ (3 ≤ length n)%nat
    ∧ Auth.username d = Auth.strip n
    ∧ data !! u "password" = Some (PStr p)
    ∧ (6 ≤ length p)%nat
    ∧ encode p = Some bytes
    ∧ (∃ t, Auth.hashpw S bytes t = Ok (Auth.password d))
    ∧ r ∈ Auth.roles ∧ Auth.role d = PStr r
    ∧ Auth.isActive d = true
    ∧ Auth.lastLogin d = None
    ∧ Auth._id d = Auth.next_id s
    ∧ Forall (λ d', Auth.email d' ≠ Auth.email d
                    ∧ Auth.username d' ≠ Auth.username d) (Auth.users s).

(** No two accounts share an address, a username or an identifier, and the
    identifiers in use are below the next one. *)
Definition accounts_distinct (s : Auth.store) : Prop :=
  NoDup (Auth.email <$> Auth.users s)
  ∧ NoDup (Auth.username <$> Auth.users s)
  ∧ NoDup (Auth._id <$> Auth.users s)
  ∧ Forall (λ d, (Auth._id d < Auth.next_id s)%nat) (Auth.users s).

(** The attack counter against the answer of a run that started with [n]
    attack entries on the trail. *)
Definition accounted (E : env) (n : nat) (out : result response * world) : Prop :=
  let after := Reads.count_attacks (security_logs out.2) in
  match out.1 with
  | Ok r =>
      status r ∈ intake_statuses
      ∧ (n ≤ after ≤ n + 1)%nat
      ∧ (status r = 201 ∨ status r = 400 → after = n)
      ∧ (status r = 403 → (∀ k, store_fault E k = None) → after = (n + 1)%nat)
  | Raise _ => after = n
  end.

(** The answer the two gates and the classifier settle on a submission with
    all its fields, when none of them fails. *)
Definition decision `{Interp} (E : env) (data : dict) : option response :=
  match _run_poisoning_check E data with
  | Ok true => Some resp_poisoning_detected
  | Ok false =>
      match coerce_all data (feature_order E) with
      | Ok x =>
          match detect_attack E x with
          | Ok (true, mse) => Some (resp_extraction_detected mse)
          | Ok (false, _) =>
              match rbind (apply_scaler (scaler E) x) (predict_label E) with
              | Ok lp => Some (resp_saved lp.1)
              | Raise _ => None
              end
          | Raise _ => None
          end
      | Raise _ => None
      end
  | Raise _ => None
  end.

(** The digests a loop of [main] collects, without its records. *)
Definition digests_of (r : result (list Upload.document * list pystr))
  : result (list pystr) :=
  rbind r (λ p, Ok p.2).

(** ** One layer of the endpoint at a time *)

Section Runs.
Context `{Interp} (E : env).

Lemma log_security_event_run d m a t i w :
  log_security_event E d m a t i w = (Ok (), logged E (entry m a t i) w).
Proof.
  unfold log_security_event, bind, emit, try_pass, store_call, logged; simpl.
  destruct (store_fault E (clock w)); simpl; rewrite ?app_nil_r; reflexivity.
Qed.

Lemma create_patient_run request w :
  create_patient E request w =
  match create_patient_body E request w with
  | (Ok r, w1) => (Ok r, w1)
  | (Raise e, w1) =>
      (Ok resp_internal_error,
       logged E (entry (Finite 0) false system_error (error_info e)) w1)
  end.
Proof.
  unfold create_patient, try_stage.
  destruct (create_patient_body E request w) as [[r|e] w1]; [reflexivity|].
  unfold bind. rewrite log_security_event_run. reflexivity.
Qed.

Lemma poisoning_run data w :
  poisoning E data w =
  match _run_poisoning_check E data with
  | Ok flag =>
      let w1 := logged E (entry (Finite 0) flag poisoning_check
                            (dict_of [("threshold", poisoning_threshold E)]))
                  (entered Poisoning w) in
      if flag then (Ok resp_poisoning_detected, w1) else extraction E data w1
  | Raise e =>
      (Ok (resp_poisoning_failed e),
       logged E (entry (Finite 0) true poisoning_check_error (error_info e))
         (entered Poisoning w))
  end.
Proof.
  unfold poisoning, try_stage, bind, lift, enter, emit, ret; simpl.
  fold (entered Poisoning w).
  destruct (_run_poisoning_check E data) as [flag|e];
    rewrite log_security_event_run; [destruct flag|]; reflexivity.
Qed.

Lemma extraction_run data w :
  extraction E data w =
  match coerce_all data (feature_order E) with
  | Raise e => (Raise e, entered Extraction w)
  | Ok x =>
      match detect_attack E x with
      | Ok am =>
          let w1 := logged E (entry am.2 am.1 extraction_check
                                (dict_of [("detection_threshold", PStr (u "auto"))]))
                      (entered Extraction w) in
          if am.1 then (Ok (resp_extraction_detected am.2), w1)
          else predict E data x am.2 w1
      | Raise e =>
          (Ok resp_extraction_failed,
           logged E (entry (Finite 0) true extraction_check_error (error_info e))
             (entered Extraction w))
      end
  end.
Proof.
  unfold extraction, try_stage, bind, lift, enter, emit, ret; simpl.
  fold (entered Extraction w).
  destruct (coerce_all data (feature_order E)) as [x|e]; [|reflexivity].
  destruct (detect_attack E x) as [[a m]|e];
    rewrite log_security_event_run; simpl; [destruct a|]; reflexivity.
Qed.

Lemma predict_run data x mse w :
  predict E data x mse w =
  match rbind (apply_scaler (scaler E) x) (predict_label E) with
  | Ok lp =>
      persist E data lp.1
        (logged E (entry mse false prediction_success
                     (dict_of [("prediction", prediction_name lp.1);
                               ("probability",
                                match lp.2 with
                                | Some p => PFloat p
                                | None => PNone
                                end)]))
           (entered Prediction w))
  | Raise e =>
      (Ok resp_prediction_failed,
       logged E (entry (Finite 0) false prediction_error (error_info e))
         (entered Prediction w))
  end.
Proof.
  unfold predict, try_stage, bind, lift, enter, emit, ret; simpl.
  fold (entered Prediction w).
  destruct (apply_scaler (scaler E) x) as [xs|e]; simpl;
    [|rewrite log_security_event_run; reflexivity].
  destruct (predict_label E xs) as [lp|e];
    rewrite log_security_event_run; reflexivity.
Qed.

Lemma plaintext_summary_ok record pred w :
  (plaintext_summary E record pred w).1 = Ok ().
Proof.
  unfold plaintext_summary, try_pass.
  destruct (bind _ _ w) as [[[]|e] w1]; reflexivity.
Qed.

Lemma persist_run data pred w :
  persist E data pred w =
  match update_patient_record E (record_of data pred) (entered Persistence w) with
  | (Ok _, w1) =>
      (Ok (resp_saved pred),
       (plaintext_summary E (record_of data pred) pred
          (logged E (entry (Finite 0) false record_created
                       (dict_of [("patient_name", Name (record_of data pred));
                                 ("prediction", prediction_name pred)])) w1)).2)
  | (Raise e, w1) =>
      (Ok resp_save_failed,
       logged E (entry (Finite 0) false record_creation_error (error_info e)) w1)
  end.
Proof.
  unfold persist, try_stage, bind, enter, emit, ret; simpl.
  fold (entered Persistence w).
  destruct (update_patient_record E _ _) as [[[]|e] w1];
    rewrite log_security_event_run; [|reflexivity].
  pose proof (plaintext_summary_ok (record_of data pred) pred
    (logged E (entry (Finite 0) false record_created
       (dict_of [("patient_name", Name (record_of data pred));
                 ("prediction", prediction_name pred)])) w1)) as Hok.
  destruct (plaintext_summary E _ _ _) as [[[]|e] w2]; simpl in *;
    [reflexivity|discriminate].
Qed.

End Runs.

(** ** The two writes of step 4 *)

Section Persistence.
Context `{Interp} (E : env).

Lemma update_patient_record_run record w :
  update_patient_record E record w =
  match load_context E with
  | Raise e => (Raise e, w)
  | Ok ctx =>
      match hash_text (PStr (py_str (NIC record))) with
      | Raise e => (Raise e, w)
      | Ok h =>
          let w3 := tick (tick (tick w)) in
          match encrypt_vector ctx (S (clock w)) (Name record),
                encrypt_vector ctx (S (S (clock w))) (Address record),
                encrypt_vector ctx (clock w) (PStr (py_str (NIC record))) with
          | Some c_name, Some c_address, Some c_nic =>
              match store_fault E (clock w3) with
              | Some e => (Raise e, tick w3)
              | None =>
                  (Ok (), tick (upsert_patient
                                  (document_of record h c_nic c_name c_address) w3))
              end
          | _, _, _ => (Ok (), w3)
          end
      end
  end.
Proof.
  unfold update_patient_record, bind, lift, encrypt_field, store_call, ret.
  destruct (load_context E) as [ctx|e]; [|reflexivity].
  destruct (hash_text _) as [h|e]; [|reflexivity].
  cbn [clock tick].
  repeat case_match; simpl in *; simplify_eq; reflexivity.
Qed.

Lemma plaintext_summary_run record pred w :
  plaintext_summary E record pred w =
  match summary_key record with
  | Raise _ => (Ok (), w)
  | Ok k =>
      match store_fault E (clock w) with
      | Some _ => (Ok (), tick w)
      | None => (Ok (), tick (insert_plain (summary_of record k pred) w))
      end
  end.
Proof.
  unfold plaintext_summary, try_pass, bind, lift, store_call.
  destruct (summary_key record) as [k|e]; [|reflexivity].
  destruct (store_fault E (clock w)); reflexivity.
Qed.

(** The upsert touches neither the trace, nor the audit trail, nor the
    summaries. *)
Lemma update_patient_record_frame record w :
  let w' := (update_patient_record E record w).2 in
  trace w' = trace w ∧ security_logs w' = security_logs w
  ∧ patients_plain w' = patients_plain w.
Proof.
  cbv zeta. rewrite update_patient_record_run.
  repeat (simpl; case_match); simpl; auto.
Qed.

Lemma plaintext_summary_frame record pred w :
  let w' := (plaintext_summary E record pred w).2 in
  trace w' = trace w ∧ security_logs w' = security_logs w
  ∧ patients w' = patients w.
Proof.
  cbv zeta. rewrite plaintext_summary_run.
  repeat (simpl; case_match); simpl; auto.
Qed.

(** Either the collection is left as it was, or one document carrying the
    medical fields of the record is upserted under the digest of its NIC. *)
Lemma update_patient_record_patients record w :
  let w' := (update_patient_record E record w).2 in
  patients w' = patients w
  ∨ ∃ h c_nic c_name c_address,
      hash_text (PStr (py_str (NIC record))) = Ok h
      ∧ patients w' =
        find_one_and_update h (document_of record h c_nic c_name c_address)
          (patients w).
Proof.
  cbv zeta. rewrite update_patient_record_run.
  repeat (simpl; case_match); simpl; auto.
  right. eauto 10.
Qed.

End Persistence.

(** ** Audit trail of a run *)

Section Audit.
Context `{Interp} (E : env).

Lemma audited_nil w w' :
  trace w' = trace w → security_logs w' = security_logs w → audited E [] w w'.
Proof.
  intros Ht Hl. split; [by rewrite Ht, app_nil_r|].
  exists []. rewrite Hl, app_nil_r. auto.
Qed.

Lemma audited_app ps qs w w1 w2 :
  audited E ps w w1 → audited E qs w1 w2 → audited E (ps ++ qs) w w2.
Proof.
  intros [Ht1 (k1 & Hl1 & Hs1 & Hf1)] [Ht2 (k2 & Hl2 & Hs2 & Hf2)].
  split.
  - unfold audit_pairs in *. rewrite bind_app, Ht2, Ht1, app_assoc. done.
  - exists (k1 ++ k2). rewrite fmap_app. repeat split.
    + by rewrite Hl2, Hl1, app_assoc.
    + by apply sublist_app.
    + intros Hok. by rewrite Hf1, Hf2.
Qed.

(** A stage: entered, then steps that leave trace and trail alone, then one
    call of the logger. *)
Lemma audited_stage s e w w0 :
  trace w0 = trace w ++ [Enter s] → security_logs w0 = security_logs w →
  audited E [(s, e)] w (logged E e w0).
Proof.
  intros Ht Hl. split; simpl.
  - by rewrite Ht, <- app_assoc.
  - rewrite Hl. destruct (store_fault E (clock w0)) eqn:Hf.
    + exists []. repeat split; [apply sublist_nil_l|].
      intros Hok. rewrite Hok in Hf. discriminate.
    + exists [e]. auto.
Qed.

Lemma stages_of_audit_pairs ps : stages_of (audit_pairs ps) = ps.*1.
Proof.
  induction ps as [|[s e] ps IH]; [done|].
  unfold stages_of, audit_pairs in *. cbn. by rewrite IH.
Qed.

End Audit.

Section AuditStages.
Context `{Interp} (E : env).

Lemma outcome_audited_done from r w w' ps :
  audited E ps w w' → ps.*1 `prefix_of` from →
  outcome_audited E from w (Ok r, w').
Proof. intros. exists ps. auto. Qed.

Lemma outcome_audited_cons s e from w w1 out :
  audited E [(s, e)] w w1 → outcome_audited E from w1 out →
  outcome_audited E (s :: from) w out.
Proof.
  intros H1. unfold outcome_audited. destruct out as [[r|x] w2]; simpl.
  - intros (ps & Ha & Hp). exists ((s, e) :: ps). split.
    + by apply (audited_app E [(s, e)] ps w w1 w2).
    + simpl. by apply prefix_cons.
  - intros (ps & s' & w0 & Ha & Ht & Hl & Hp).
    exists ((s, e) :: ps), s', w0.
    split; [by apply (audited_app E [(s, e)] ps w w1 w0)|].
    split; [done|]. split; [done|]. simpl. by apply prefix_cons.
Qed.

Lemma persist_audited data pred w :
  outcome_audited E [Persistence] w (persist E data pred w).
Proof.
  rewrite persist_run.
  pose proof (update_patient_record_frame E (record_of data pred)
                (entered Persistence w)) as (Ht & Hl & _).
  destruct (update_patient_record E _ _) as [[[]|e] w1]; simpl in *.
  - match goal with |- context [plaintext_summary E ?r ?p ?w0] =>
      pose proof (plaintext_summary_frame E r p w0) as (Ht' & Hl' & _) end.
    eapply outcome_audited_done with (ps := [(Persistence, _)]); [|done].
    eapply (audited_app E [_] [] w); [by apply audited_stage|].
    by apply audited_nil.
  - eapply outcome_audited_done with (ps := [(Persistence, _)]); [|done].
    by apply audited_stage.
Qed.

Lemma predict_audited data x mse w :
  outcome_audited E [Prediction; Persistence] w (predict E data x mse w).
Proof.
  rewrite predict_run. destruct (rbind _ _) as [lp|e].
  - eapply outcome_audited_cons; [|apply persist_audited].
    by apply audited_stage.
  - eapply outcome_audited_done with (ps := [(Prediction, _)]);
      [by apply audited_stage|by eexists].
Qed.

Lemma extraction_audited data w :
  outcome_audited E [Extraction; Prediction; Persistence] w (extraction E data w).
Proof.
  rewrite extraction_run. destruct (coerce_all _ _) as [x|e].
  - destruct (detect_attack E x) as [[a m]|e]; simpl.
    + destruct a.
      * eapply outcome_audited_done with (ps := [(Extraction, _)]);
          [by apply audited_stage|by eexists].
      * eapply outcome_audited_cons; [|apply predict_audited].
        by apply audited_stage.
    + eapply outcome_audited_done with (ps := [(Extraction, _)]);
        [by apply audited_stage|by eexists].
  - exists [], Extraction, w.
    split; [by apply audited_nil|]. split; [done|]. split; [done|]. by eexists.
Qed.

Lemma poisoning_audited data w :
  outcome_audited E pipeline_order w (poisoning E data w).
Proof.
  rewrite poisoning_run. destruct (_run_poisoning_check E data) as [[]|e]; simpl.
  - eapply outcome_audited_done with (ps := [(Poisoning, _)]);
      [by apply audited_stage|by eexists].
  - eapply outcome_audited_cons; [|apply extraction_audited].
    by apply audited_stage.
  - eapply outcome_audited_done with (ps := [(Poisoning, _)]);
      [by apply audited_stage|by eexists].
Qed.

Lemma create_patient_body_audited request w :
  outcome_audited E pipeline_order w (create_patient_body E request w).
Proof.
  unfold create_patient_body.
  assert (∀ r, outcome_audited E pipeline_order w (ret r w)) as Hret.
  { intros r. apply outcome_audited_done with (ps := []);
      [by apply audited_nil|by eexists]. }
  destruct request as [data|]; [|apply Hret].
  case_bool_decide; [apply Hret|].
  destruct (List.filter _ _); [apply poisoning_audited|apply Hret].
Qed.

(** Every run answers, and leaves behind one audit call for each stage it
    entered, the stages being an initial segment of the pipeline. *)
Lemma create_patient_audited request w :
  ∃ r ps, create_patient E request w = (Ok r, (create_patient E request w).2)
          ∧ audited E ps w (create_patient E request w).2
          ∧ ps.*1 `prefix_of` pipeline_order.
Proof.
  rewrite create_patient_run.
  pose proof (create_patient_body_audited request w) as Hb.
  unfold outcome_audited in Hb.
  destruct (create_patient_body E request w) as [[r|e] w1]; simpl in *.
  - destruct Hb as (ps & Ha & Hp). eauto.
  - destruct Hb as (ps & s & w0 & Ha & Ht & Hl & Hp).
    eexists _, (ps ++ [(s, _)]). split; [reflexivity|]. split.
    + eapply audited_app; [exact Ha|]. by apply audited_stage.
    + by rewrite fmap_app.
Qed.

End AuditStages.

(** ** What a run does to the two patient collections *)

Section Collections.
Context `{Interp} (E : env).

Lemma persist_effect data pred w :
  let out := persist E data pred w in
  let record := record_of data pred in
  (out.1 = Ok resp_save_failed
   ∧ patients out.2 = patients w ∧ patients_plain out.2 = patients_plain w)
  ∨ (out.1 = Ok (resp_saved pred)
     ∧ (∃ h, hash_text (PStr (py_str (NIC record))) = Ok h)
     ∧ (patients out.2 = patients w
        ∨ ∃ h c_nic c_name c_address,
            hash_text (PStr (py_str (NIC record))) = Ok h
            ∧ patients out.2 =
              find_one_and_update h
                (document_of record h c_nic c_name c_address) (patients w))
     ∧ (patients_plain out.2 = patients_plain w
        ∨ ∃ k, summary_key record = Ok k
               ∧ patients_plain out.2 =
                 patients_plain w ++ [summary_of record k pred])).
Proof.
  cbv zeta. rewrite persist_run, update_patient_record_run.
  destruct (load_context E) as [ctx|e]; [|left; done].
  destruct (hash_text _) as [h|e] eqn:Hh; [|left; done].
  cbv zeta.
  destruct (encrypt_vector ctx (S (clock _)) (Name _)) as [c_name|];
    [destruct (encrypt_vector ctx (S (S (clock _))) (Address _)) as [c_address|];
       [destruct (encrypt_vector ctx (clock _) (PStr _)) as [c_nic|]|]|].
  1: destruct (store_fault E (clock (tick _))) eqn:Hf; [left; done|].
  all: right; split; [reflexivity|]; split; [eauto|].
  all: rewrite plaintext_summary_run.
  all: destruct (summary_key _) as [k|e] eqn:Hk;
         [destruct (store_fault E (clock (logged _ _ _)))|]; simpl.
  all: split; [first [by left | right; eauto 10]
              |first [by left | right; eauto 10]].
Qed.

Lemma persist_ok data pred w : ∃ r, (persist E data pred w).1 = Ok r.
Proof.
  destruct (persist_effect data pred w) as [(-> & _)|(-> & _)]; eauto.
Qed.

Lemma predict_reach data x mse w : reach E data w (predict E data x mse w).
Proof.
  rewrite predict_run. destruct (rbind _ _) as [lp|e].
  - right. eexists _, _. split; [|split]; [| |reflexivity]; reflexivity.
  - left. repeat split; auto. by intros r [= <-].
Qed.

Lemma extraction_reach data w : reach E data w (extraction E data w).
Proof.
  rewrite extraction_run. destruct (coerce_all _ _) as [x|e].
  - destruct (detect_attack E x) as [[[] m]|e]; cbn [fst snd].
    + left. repeat split; auto. by intros r [= <-].
    + destruct (predict_reach data x m
        (logged E (entry m false extraction_check
                     (dict_of [("detection_threshold", PStr (u "auto"))]))
           (entered Extraction w))) as [(Hp & Hq & Hs)|(pred & w0 & Hp & Hq & Heq)].
      * left. auto.
      * right. by exists pred, w0.
    + left. repeat split; auto. by intros r [= <-].
  - left. repeat split; auto; intros r; discriminate.
Qed.

Lemma poisoning_reach data w : reach E data w (poisoning E data w).
Proof.
  rewrite poisoning_run. destruct (_run_poisoning_check E data) as [[]|e]; cbv zeta.
  - left. repeat split; auto. by intros r [= <-].
  - destruct (extraction_reach data
      (logged E (entry (Finite 0) false poisoning_check
                   (dict_of [("threshold", poisoning_threshold E)]))
         (entered Poisoning w))) as [(Hp & Hq & Hs)|(pred & w0 & Hp & Hq & Heq)].
    + left. auto.
    + right. by exists pred, w0.
  - left. repeat split; auto. by intros r [= <-].
Qed.

Lemma create_patient_reach request w :
  let out := create_patient E request w in
  (patients out.2 = patients w ∧ patients_plain out.2 = patients_plain w
   ∧ ∀ r, out.1 = Ok r → status r ≠ 201)
  ∨ ∃ data pred w0, request = Some data
      ∧ patients w0 = patients w ∧ patients_plain w0 = patients_plain w
      ∧ out = persist E data pred w0.
Proof.
  cbv zeta. rewrite create_patient_run. unfold create_patient_body.
  assert (∀ c b, c ≠ 201 →
    (patients w = patients w ∧ patients_plain w = patients_plain w
     ∧ ∀ r, Ok (respond c b) = Ok r → status r ≠ 201)) as Hearly.
  { intros c b Hc. repeat split. by intros r [= <-]. }
  destruct request as [data|]; [|left; by apply Hearly].
  case_bool_decide; [left; by apply Hearly|].
  destruct (List.filter _ _); [|left; by apply Hearly].
  destruct (poisoning_reach data w) as [(Hp & Hq & Hs)|(pred & w0 & Hp & Hq & Heq)].
  - left. destruct (poisoning E data w) as [[r|e] w1]; simpl in *; auto.
    repeat split; auto. by intros r [= <-].
  - right. exists data, pred, w0. rewrite Heq.
    destruct (persist_ok data pred w0) as [r Hr].
    destruct (persist E data pred w0) as [r' w1]; simpl in *; subst. auto.
Qed.

End Collections.

(** ** The identity codec *)

Section Digest.

Lemma be_bytes_bytes k x : Forall is_byte (SHA256.be_bytes k x).
Proof.
  revert x. induction k as [|k IH]; intros x; simpl; [constructor|].
  apply Forall_app. split; [apply IH|].
  constructor; [|constructor]. unfold is_byte. apply Z.mod_pos_bound. lia.
Qed.

Lemma length_be_bytes k x : length (SHA256.be_bytes k x) = k.
Proof.
  revert x. induction k as [|k IH]; intros x; simpl; [done|].
  rewrite length_app, IH. simpl. lia.
Qed.

Lemma length_round st kw : length (SHA256.round st kw) = length st.
Proof.
  unfold SHA256.round.
  do 9 (destruct st as [|? st]; [reflexivity|]). reflexivity.
Qed.

Lemma length_compress hs blk : length (SHA256.compress hs blk) = length hs.
Proof.
  unfold SHA256.compress. rewrite length_zip_with.
  assert (∀ l st, length (fold_left SHA256.round l st) = length st) as Hfold.
  { induction l as [|kw l IH]; intros st; simpl; [done|].
    by rewrite IH, length_round. }
  rewrite Hfold. lia.
Qed.

Lemma length_digest msg : length (SHA256.digest msg) = 32%nat.
Proof.
  unfold SHA256.digest.
  assert (∀ blocks hs, length (fold_left SHA256.compress blocks hs) = length hs)
    as Hfold.
  { induction blocks as [|b bs IH]; intros hs; simpl; [done|].
    by rewrite IH, length_compress. }
  generalize (Hfold (SHA256.chunks (length (SHA256.pad msg)) 64 (SHA256.pad msg))
                SHA256.initial_hash).
  generalize (fold_left SHA256.compress
                (SHA256.chunks (length (SHA256.pad msg)) 64 (SHA256.pad msg))
                SHA256.initial_hash).
  intros hs Hlen. simpl in Hlen.
  do 9 (destruct hs as [|? hs]; [try discriminate|]); [|discriminate].
  cbn [fmap list_fmap mjoin list_join]. rewrite !length_app, !length_be_bytes.
  reflexivity.
Qed.

Lemma digest_bytes msg : Forall is_byte (SHA256.digest msg).
Proof.
  unfold SHA256.digest. apply Forall_join, Forall_fmap, Forall_forall.
  intros x _. apply be_bytes_bytes.
Qed.

Lemma digit_value_digit d : 0 ≤ d < 16 → Hex.digit_value (Hex.digit d) = Some d.
Proof.
  intros Hd.
  assert (d = 0 ∨ d = 1 ∨ d = 2 ∨ d = 3 ∨ d = 4 ∨ d = 5 ∨ d = 6 ∨ d = 7
          ∨ d = 8 ∨ d = 9 ∨ d = 10 ∨ d = 11 ∨ d = 12 ∨ d = 13 ∨ d = 14
          ∨ d = 15) as Hcases by lia.
  repeat (destruct Hcases as [->|Hcases]; [reflexivity|]). by subst.
Qed.

Lemma int16_go_hex bs acc :
  Forall is_byte bs →
  Hex.int16_go acc (Hex.hex bs) = Some (fold_left (λ a b, a * 256 + b) bs acc).
Proof.
  intros Hbs. revert acc.
  induction Hbs as [|b bs Hb _ IH]; intros acc; [reflexivity|].
  unfold is_byte in Hb.
  change (Hex.hex (b :: bs))
    with (Hex.digit (b / 16) :: Hex.digit (b mod 16) :: Hex.hex bs).
  cbn [Hex.int16_go].
  rewrite digit_value_digit by (split; [apply Z.div_pos|apply Z.div_lt_upper_bound]; lia).
  rewrite digit_value_digit by (apply Z.mod_pos_bound; lia).
  rewrite IH. cbn [fold_left]. do 2 f_equal.
  pose proof (Z.div_mod b 16). lia.
Qed.

(** Reading a hexdigest back in base 16 gives the digest as a big-endian
    number. *)
Lemma int16_hex bs :
  Forall is_byte bs → bs ≠ [] → Hex.int16 (Hex.hex bs) = Some (SHA256.be_value bs).
Proof.
  intros Hbs Hne. unfold Hex.int16, SHA256.be_value.
  rewrite <- int16_go_hex by done.
  destruct bs as [|b bs]; [done|reflexivity].
Qed.

Lemma int16_hexdigest msg :
  Hex.int16 (Hex.hex (SHA256.digest msg)) = Some (SHA256.be_value (SHA256.digest msg)).
Proof.
  apply int16_hex; [apply digest_bytes|].
  intros Hnil. pose proof (length_digest msg) as Hlen.
  rewrite Hnil in Hlen. discriminate.
Qed.

End Digest.

(** C6. For every value [v], [hash_text v] is the hexadecimal form of the
    SHA-256 digest of the UTF-8 encoding of [str(v)]; it is a function of
    [str(v)] alone, so that repeated calls agree; and [encrypt_vector]
    encrypts that digest, read as a 256 bit number, reduced modulo the fixed
    plain modulus 65537. *)
Theorem codec_refines_spec `{Interp} (v : pyval) :
  match Spec.hash_digest v with
  | Some d =>
      hash_text v = Ok (Hex.hex d) ∧ length d = 32%nat
      ∧ hashed_int v = Ok (SHA256.be_value d mod 65537)
      ∧ 0 ≤ SHA256.be_value d mod 65537 < 65537
  | None => ∃ e, hash_text v = Raise e
  end
  ∧ hash_text (PStr (py_str v)) = hash_text v
  ∧ plain_modulus = 65537
  ∧ ∀ ctx nonce, encrypt_vector ctx nonce v = Spec.ciphertext_of ctx nonce v.
Proof.
  assert (hash_text (PStr (py_str v)) = hash_text v) as Hstr by reflexivity.
  unfold Spec.ciphertext_of, Spec.hash_digest, encrypt_vector, hashed_int.
  rewrite Hstr. unfold hash_text, sha256_hexdigest.
  destruct (encode (py_str v)) as [bs|]; simpl.
  - rewrite int16_hexdigest. repeat split; auto using length_digest.
    + apply Z.mod_pos_bound. lia.
    + apply Z.mod_pos_bound. lia.
  - repeat split; eauto.
Qed.

(** FIPS 180-4 test vectors, through [hash_text]. *)
Example hash_text_abc :
  hash_text (H := Demo.demo_interp) (PStr (u "abc"))
  = Ok (u "ba7816bf8f01cfea414140de5dae2223b00361a396177a9cb410ff61f20015ad").
Proof. vm_compute. reflexivity. Qed.

Example hash_text_empty :
  hash_text (H := Demo.demo_interp) (PStr [])
  = Ok (u "e3b0c44298fc1c149afbf4c8996fb92427ae41e4649b934ca495991b7852b855").
Proof. vm_compute. reflexivity. Qed.

Example hash_text_two_blocks :
  hash_text (H := Demo.demo_interp)
    (PStr (u "abcdbcdecdefdefgefghfghighijhijkijkljklmklmnlmnomnopnopq"))
  = Ok (u "248d6a61d20638b8e5c026930c3e6039a33ce45964ff2167f6ecedd419db06c1").
Proof. vm_compute. reflexivity. Qed.

(** An integer NIC and its decimal text have the same digest. *)
Example hash_text_of_int :
  hash_text (H := Demo.demo_interp) (PInt 199012345)
  = hash_text (H := Demo.demo_interp) (PStr (u "199012345")).
Proof. vm_compute. reflexivity. Qed.

(** C7. The intersection of the linkage engine is plain set intersection: a
    digest is in the result exactly when it is in both inputs; it is
    commutative and idempotent; and for [{h1,h2,h3}] and [{h2,h3,h4}] with
    [h1] and [h4] different the result is [{h2,h3}]. *)
Theorem psi_intersection :
  (∀ a b h, h ∈ PSI.common_hashed_nics a b ↔ h ∈ a ∧ h ∈ b)
  ∧ (∀ a b, PSI.common_hashed_nics a b = PSI.intersect (list_to_set a) (list_to_set b))
  ∧ (∀ A B, PSI.intersect A B = PSI.intersect B A)
  ∧ (∀ A, PSI.intersect A A = A)
  ∧ (∀ h1 h2 h3 h4 : pystr, h1 ≠ h4 →
       PSI.intersect {[h1; h2; h3]} {[h2; h3; h4]} = {[h2; h3]}
       ∧ PSI.common_hashed_nics [h1; h2; h3] [h2; h3; h4] = {[h2; h3]}).
Proof.
  unfold PSI.common_hashed_nics, PSI.intersect.
  split; [intros a b h; by rewrite elem_of_intersection, !elem_of_list_to_set|].
  split; [done|].
  split; [intros A B; apply (comm_L (∩))|].
  split; [intros A; apply (idemp_L (∩))|].
  intros h1 h2 h3 h4 Hne.
  split; apply set_eq; intros x;
    rewrite elem_of_intersection, ?elem_of_list_to_set, ?elem_of_union,
      ?elem_of_cons, ?elem_of_singleton, ?elem_of_nil;
    intuition (subst; auto; congruence).
Qed.

(** The digests of four NIC numbers, two of them shared. *)
Lemma psi_intersection_witness :
  let h n := Hex.hex (SHA256.digest (default [] (encode (u n)))) in
  h "199012345V" ≠ h "200198765V"
  ∧ PSI.common_hashed_nics
      [h "199012345V"; h "198511111V"; h "197522222V"]
      [h "198511111V"; h "197522222V"; h "200198765V"]
    = {[h "198511111V"; h "197522222V"]}.
Proof.
  intros h.
  assert (h "199012345V" ≠ h "200198765V") as Hne by (vm_compute; discriminate).
  split; [exact Hne|].
  destruct psi_intersection as (_ & _ & _ & _ & Hscn).
  exact (proj2 (Hscn _ (h "198511111V") (h "197522222V") _ Hne)).
Defined.

(** The verdict of the extraction gate is the comparison of the
    reconstruction error with the threshold. *)
Lemma detect_attack_decision P x is_attack mse :
  Protection.detect_attack P x = Ok (is_attack, mse) →
  is_attack = fgt mse (Protection.threshold P).
Proof.
  unfold Protection.detect_attack. case_bool_decide; [|discriminate].
  destruct (Protection.prot_scaler P x) as [xs|e]; [|discriminate]. simpl.
  destruct (Protection.autoencoder P xs) as [recon|e]; [|discriminate]. simpl.
  by intros [= <- <-].
Qed.

(** ** Gate ordering *)

Lemma prefix_of_pipeline (ps : list (stage * log_entry)) :
  ps.*1 `prefix_of` pipeline_order →
  ∃ e1 e2 e3 e4,
    ps = [] ∨ ps = [(Poisoning, e1)] ∨ ps = [(Poisoning, e1); (Extraction, e2)]
    ∨ ps = [(Poisoning, e1); (Extraction, e2); (Prediction, e3)]
    ∨ ps = [(Poisoning, e1); (Extraction, e2); (Prediction, e3);
            (Persistence, e4)].
Proof.
  intros [k Hk]. unfold pipeline_order in Hk.
  pose (d := entry (Finite 0) false system_error ∅).
  destruct ps as [|[s1 e1] ps]; [exists d, d, d, d; auto|].
  destruct ps as [|[s2 e2] ps]; [exists e1, d, d, d; simplify_eq/=; auto|].
  destruct ps as [|[s3 e3] ps]; [exists e1, e2, d, d; simplify_eq/=; auto|].
  destruct ps as [|[s4 e4] ps]; [exists e1, e2, e3, d; simplify_eq/=; auto 6|].
  destruct ps as [|[s5 e5] ps]; [exists e1, e2, e3, e4; simplify_eq/=; auto 6|].
  simplify_eq/=.
Qed.

Lemma missing_none_nonempty `{Interp} (data : dict) :
  List.filter (is_missing data) required = [] → data ≠ ∅.
Proof. intros Hm ->. vm_compute in Hm. discriminate. Qed.

(** C1. In every run of the intake endpoint the stages entered form an
    initial segment of poisoning, extraction, prediction, persistence: the
    extraction check is never attempted without the poisoning check strictly
    before it, nor prediction without the extraction check strictly before it.
    When the poisoning gate blocks a submission that has all its fields, the
    endpoint answers 403 at once: the only stage entered is the poisoning
    check, its only audit call reports the attack, and neither patient
    collection is written. *)
Theorem gate_order_and_short_circuit `{Interp} (E : env) :
  (∀ request w, ∃ tr,
      trace (create_patient E request w).2 = trace w ++ tr
      ∧ stages_of tr `prefix_of` pipeline_order
      ∧ attempted_before Poisoning Extraction tr
      ∧ attempted_before Extraction Prediction tr)
  ∧ (∀ data w,
      List.filter (is_missing data) required = [] →
      _run_poisoning_check E data = Ok true →
      let out := create_patient E (Some data) w in
      out.1 = Ok resp_poisoning_detected
      ∧ status resp_poisoning_detected = 403
      ∧ (∃ e, trace out.2 = trace w ++ [Enter Poisoning; Audit e]
              ∧ ev_type e = poisoning_check ∧ is_attack e = true)
      ∧ patients out.2 = patients w
      ∧ patients_plain out.2 = patients_plain w).
Proof.
  split.
  - intros request w.
    destruct (create_patient_audited E request w) as (r & ps & _ & [Ht _] & Hp).
    exists (audit_pairs ps). split; [done|].
    rewrite stages_of_audit_pairs. split; [done|].
    destruct (prefix_of_pipeline ps Hp) as (e1 & e2 & e3 & e4 & Hps).
    unfold attempted_before.
    destruct Hps as [->|[->|[->|[->| ->]]]]; split; intros i Hi;
      do 9 (try destruct i as [|i]); simplify_eq/=;
      first [by exists 0%nat; split; [lia|] | by exists 2%nat; split; [lia|]].
  - intros data w Hm Hp. cbv zeta.
    rewrite create_patient_run. unfold create_patient_body.
    rewrite bool_decide_eq_false_2 by by apply missing_none_nonempty.
    rewrite Hm, poisoning_run, Hp. cbn [fst snd].
    repeat split. eexists. unfold logged, entered; cbn.
    rewrite <- app_assoc. repeat split.
Qed.

#[local] Existing Instance Demo.demo_interp.

(** Poisoning probability 0.9 against the threshold 0.5: the run halts at the
    gate with one audit entry that reports the attack. *)
Lemma gate_order_and_short_circuit_witness :
  let data := Demo.demo_request in
  let E := Scenarios.poisoned_env in
  List.filter (is_missing data) required = []
  ∧ _run_poisoning_check E data = Ok true
  ∧ (create_patient E (Some data) Demo.empty_world).1 = Ok resp_poisoning_detected
  ∧ patients (create_patient E (Some data) Demo.empty_world).2 = []
  ∧ patients_plain (create_patient E (Some data) Demo.empty_world).2 = [].
Proof.
  intros data E.
  assert (List.filter (is_missing data) required = []) as Hm
    by (vm_compute; reflexivity).
  assert (_run_poisoning_check E data = Ok true) as Hp
    by (vm_compute; reflexivity).
  split; [exact Hm|]. split; [exact Hp|].
  destruct (proj2 (gate_order_and_short_circuit E) data Demo.empty_world Hm Hp)
    as (Hr & _ & _ & Hpat & Hplain).
  exact (conj Hr (conj Hpat Hplain)).
Defined.

(** ** Audit completeness *)

(** When the insert of the poisoning verdict faults, the poisoning stage has
    no entry: four stages were entered and three entries stored. *)
Lemma audit_entry_lost :
  let w' := (create_patient Scenarios.audit_outage_env (Some Demo.demo_request)
               Demo.empty_world).2 in
  stages_of (trace w') = pipeline_order
  ∧ ev_type <$> security_logs w'
    = [extraction_check; prediction_success; record_created]
  ∧ ¬ audit_complete_on Scenarios.audit_outage_env (Some Demo.demo_request).
Proof.
  cbv zeta. split; [vm_compute; reflexivity|].
  split; [vm_compute; reflexivity|].
  unfold audit_complete_on. vm_compute. discriminate.
Qed.

Section Reported.
Context `{Interp} (E : env).

Lemma audit_calls_app tr1 tr2 :
  audit_calls (tr1 ++ tr2) = audit_calls tr1 ++ audit_calls tr2.
Proof. apply omap_app. Qed.

Lemma audit_calls_pairs ps : audit_calls (audit_pairs ps) = ps.*2.
Proof.
  induction ps as [|[s e] ps IH]; [done|].
  unfold audit_calls, audit_pairs in *. cbn. by rewrite IH.
Qed.

(** An answer with another status, or another error text, is not the answer
    of the outer handler. *)
Lemma other_status r :
  status r ≠ 500 → r ≠ resp_internal_error.
Proof. intros Hs ->. by apply Hs. Qed.

Lemma other_error r :
  body r !! u "error" ≠ Some (PStr (u "Internal server error")) →
  r ≠ resp_internal_error.
Proof. intros Hb ->. apply Hb. vm_compute. reflexivity. Qed.

Lemma intake_answers_differ :
  resp_invalid_json ≠ resp_internal_error
  ∧ (∀ missing, resp_missing missing ≠ resp_internal_error)
  ∧ (∀ e, resp_poisoning_failed e ≠ resp_internal_error)
  ∧ resp_poisoning_detected ≠ resp_internal_error
  ∧ resp_extraction_failed ≠ resp_internal_error
  ∧ (∀ mse, resp_extraction_detected mse ≠ resp_internal_error)
  ∧ resp_prediction_failed ≠ resp_internal_error
  ∧ resp_save_failed ≠ resp_internal_error
  ∧ (∀ pred, resp_saved pred ≠ resp_internal_error).
Proof.
  repeat split; intros;
    first [ apply other_status; cbn; discriminate
          | apply other_error; vm_compute; discriminate ].
Qed.

Lemma own_entries_one s e :
  ev_type e ∈ stage_types s → own_entries [(s, e)].
Proof. intros He. by repeat constructor. Qed.

Lemma outcome_reported_done from r w w' ps :
  audited E ps w w' → ps.*1 `prefix_of` from → own_entries ps →
  r ≠ resp_internal_error →
  outcome_reported E from w (Ok r, w').
Proof. intros. exists ps. auto. Qed.

Lemma outcome_reported_cons s e from w w1 out :
  audited E [(s, e)] w w1 → ev_type e ∈ stage_types s →
  outcome_reported E from w1 out →
  outcome_reported E (s :: from) w out.
Proof.
  intros H1 He. unfold outcome_reported. destruct out as [[r|x] w2]; simpl.
  - intros (ps & Ha & Hp & Ho & Hr). exists ((s, e) :: ps). split.
    + by apply (audited_app E [(s, e)] ps w w1 w2).
    + split; [simpl; by apply prefix_cons|]. split; [by constructor|done].
  - intros (ps & s' & w0 & Ha & Ht & Hl & Hp & Ho).
    exists ((s, e) :: ps), s', w0.
    split; [by apply (audited_app E [(s, e)] ps w w1 w0)|].
    split; [done|]. split; [done|].
    split; [simpl; by apply prefix_cons|by constructor].
Qed.

Ltac own_type := cbn; rewrite !elem_of_cons; auto.

Lemma persist_reported data pred w :
  outcome_reported E [Persistence] w (persist E data pred w).
Proof.
  destruct intake_answers_differ as (_ & _ & _ & _ & _ & _ & _ & Hsf & Hsv).
  rewrite persist_run.
  pose proof (update_patient_record_frame E (record_of data pred)
                (entered Persistence w)) as (Ht & Hl & _).
  destruct (update_patient_record E _ _) as [[[]|e] w1]; simpl in *.
  - match goal with |- context [plaintext_summary E ?r ?p ?w0] =>
      pose proof (plaintext_summary_frame E r p w0) as (Ht' & Hl' & _) end.
    eapply outcome_reported_done with (ps := [(Persistence, _)]).
    + eapply (audited_app E [_] [] w); [by apply audited_stage|].
      by apply audited_nil.
    + done.
    + apply own_entries_one. own_type.
    + apply Hsv.
  - eapply outcome_reported_done with (ps := [(Persistence, _)]).
    + by apply audited_stage.
    + done.
    + apply own_entries_one. own_type.
    + apply Hsf.
Qed.

Ltac stage_done s Hr :=
  eapply outcome_reported_done with (ps := [(s, _)]);
  [by apply audited_stage|by eexists| |apply Hr];
  apply own_entries_one; own_type.

Ltac stage_cons next :=
  eapply outcome_reported_cons; [| |apply next];
  [by apply audited_stage|own_type].

Lemma predict_reported data x mse w :
  outcome_reported E [Prediction; Persistence] w (predict E data x mse w).
Proof.
  destruct intake_answers_differ as (_ & _ & _ & _ & _ & _ & Hpf & _).
  rewrite predict_run. destruct (rbind _ _) as [lp|e].
  - stage_cons persist_reported.
  - stage_done Prediction Hpf.
Qed.

Lemma extraction_reported data w :
  outcome_reported E [Extraction; Prediction; Persistence] w
    (extraction E data w).
Proof.
  destruct intake_answers_differ as (_ & _ & _ & _ & Hef & Hed & _).
  rewrite extraction_run. destruct (coerce_all _ _) as [x|e].
  - destruct (detect_attack E x) as [[a m]|e]; simpl.
    + destruct a.
      * stage_done Extraction Hed.
      * stage_cons predict_reported.
    + stage_done Extraction Hef.
  - exists [], Extraction, w.
    split; [by apply audited_nil|]. split; [done|]. split; [done|].
    split; [by eexists|constructor].
Qed.

Lemma poisoning_reported data w :
  outcome_reported E pipeline_order w (poisoning E data w).
Proof.
  destruct intake_answers_differ as (_ & _ & Hpf & Hpd & _).
  rewrite poisoning_run. destruct (_run_poisoning_check E data) as [[]|e]; simpl.
  - stage_done Poisoning Hpd.
  - stage_cons extraction_reported.
  - stage_done Poisoning Hpf.
Qed.

(** The body of the outer [try] on any body: the stages entered are reported
    one call each, or the body raises, inside a stage or before any. *)
Lemma intake_body_reported request w :
  outcome_reported E pipeline_order w (Intake.create_patient_body E request w)
  ∨ ∃ x, Intake.create_patient_body E request w = (Raise x, w).
Proof.
  destruct intake_answers_differ as (Hij & Hm & _).
  assert (∀ r, r ≠ resp_internal_error →
               outcome_reported E pipeline_order w (ret r w)) as Hret.
  { intros r Hr. apply outcome_reported_done with (ps := []);
      [by apply audited_nil|by eexists|constructor|done]. }
  unfold Intake.create_patient_body.
  destruct request as [[data|v|items]|]; [| | |left; by apply Hret].
  - left. unfold create_patient_body.
    case_bool_decide; [by apply Hret|].
    destruct (List.filter _ _); [apply poisoning_reported|by apply Hret].
  - destruct (py_truthy v); cbn [negb]; [|left; by apply Hret].
    destruct v as [|b|z|x|s]; try (right; by eexists); [left; by apply Hret|].
    destruct (existsb _ required); [right; by eexists|left; by apply Hret].
  - destruct items as [|item items]; [left; by apply Hret|].
    destruct (existsb _ required); [right; by eexists|left; by apply Hret].
Qed.

Lemma intake_create_patient_run request w :
  Intake.create_patient E request w =
  match Intake.create_patient_body E request w with
  | (Ok r, w1) => (Ok r, w1)
  | (Raise e, w1) =>
      (Ok resp_internal_error,
       logged E (entry (Finite 0) false system_error (error_info e)) w1)
  end.
Proof.
  unfold Intake.create_patient, try_stage.
  destruct (Intake.create_patient_body E request w) as [[r|e] w1];
    [reflexivity|].
  unfold bind. rewrite log_security_event_run. reflexivity.
Qed.

(** On an object, and on a body that does not parse, the endpoint is
    [App.create_patient]. *)
Lemma intake_on_object data w :
  Intake.create_patient E (Some (Intake.JObject data)) w
  = create_patient E (Some data) w.
Proof. by rewrite intake_create_patient_run, create_patient_run. Qed.

Lemma intake_on_nothing w :
  Intake.create_patient E None w = create_patient E None w.
Proof. by rewrite intake_create_patient_run, create_patient_run. Qed.

End Reported.

(** C8, amended. Whatever the JSON body and however the run ends, the audit
    logger is called once, with an event of that stage, for every stage that
    was entered and not left by an exception its own handler misses, the
    stages being an initial segment of the pipeline with none entered twice.
    Besides these calls there is exactly one more, of type [system_error] and
    belonging to no stage, on the runs that end in the outer handler with
    its generic answer, and none on the other runs. The entries appended to
    the trail are the calls whose insert the store accepted, in order: all of
    them when the store accepts every insert. *)
Theorem audit_one_call_per_stage `{Interp} (E : env)
    (request : option Intake.json) (w : world) :
  let out := Intake.create_patient E request w in
  ∃ r ps tail,
    out.1 = Ok r
    ∧ trace out.2 = trace w ++ audit_pairs ps ++ tail
    ∧ ps.*1 `prefix_of` pipeline_order
    ∧ NoDup ps.*1
    ∧ own_entries ps
    ∧ (tail = [] ∧ r ≠ resp_internal_error
       ∨ r = resp_internal_error
         ∧ ∃ e, ev_type e = system_error ∧ is_attack e = false
                ∧ (tail = [Audit e]
                   ∨ ∃ s, tail = [Enter s; Audit e]
                          ∧ (ps.*1 ++ [s]) `prefix_of` pipeline_order))
    ∧ ∃ kept, security_logs out.2 = security_logs w ++ kept
              ∧ kept `sublist_of` audit_calls (audit_pairs ps ++ tail)
              ∧ (length kept ≤ length ps + length (audit_calls tail))%nat
              ∧ ((∀ k, store_fault E k = None) →
                 kept = audit_calls (audit_pairs ps ++ tail)).
Proof.
  cbv zeta.
  assert (∀ ps : list (stage * log_entry),
            ps.*1 `prefix_of` pipeline_order → NoDup ps.*1) as Hnodup.
  { intros ps [k Hk].
    assert (NoDup pipeline_order) as Hnd.
    { unfold pipeline_order.
      repeat (apply NoDup_cons; split;
              [rewrite ?elem_of_cons, elem_of_nil; intuition discriminate|]).
      apply NoDup_nil_2. }
    rewrite Hk in Hnd. by apply NoDup_app in Hnd as [? _]. }
  rewrite intake_create_patient_run.
  destruct (intake_body_reported E request w) as [Hb|[x ->]].
  - unfold outcome_reported in Hb.
    destruct (Intake.create_patient_body E request w) as [[r|x] w1];
      cbn [fst snd] in *.
    + destruct Hb as (ps & [Ht (kept & Hl & Hs & Hf)] & Hp & Ho & Hr).
      exists r, ps, []. rewrite !app_nil_r, audit_calls_pairs.
      split; [done|]. split; [done|]. split; [done|].
      split; [by apply Hnodup|]. split; [done|]. split; [by left|].
      exists kept. split; [done|]. split; [done|]. split; [|done].
      apply sublist_length in Hs. rewrite length_fmap in Hs. simpl. lia.
    + destruct Hb as (ps & s & w0 & [Ht (kept & Hl & Hs & Hf)] & Ht1 & Hl1
                      & Hp & Ho).
      set (e := entry (Finite 0) false system_error (error_info x)).
      exists resp_internal_error, ps, [Enter s; Audit e].
      rewrite audit_calls_app, audit_calls_pairs.
      split; [done|].
      split; [cbn [trace logged]; rewrite Ht1, Ht, <- !app_assoc; done|].
      split; [by eapply prefix_app_l|].
      split; [apply Hnodup; by eapply prefix_app_l|]. split; [done|].
      split; [right; split; [done|]; exists e; eauto 10|].
      cbn [security_logs logged]. rewrite Hl1, Hl.
      destruct (store_fault E (clock w1)) eqn:Hfault.
      * exists kept. rewrite app_nil_r. split; [done|].
        split; [by apply sublist_inserts_r|].
        split; [apply sublist_length in Hs; rewrite length_fmap in Hs;
                simpl; lia|].
        intros Hok. rewrite Hok in Hfault. discriminate.
      * exists (kept ++ [e]). rewrite <- app_assoc. split; [done|].
        split; [apply sublist_app; [done|reflexivity]|].
        split; [apply sublist_length in Hs; rewrite length_fmap in Hs;
                rewrite length_app; simpl; lia|].
        intros Hok. by rewrite (Hf Hok).
  - set (e := entry (Finite 0) false system_error (error_info x)).
    exists resp_internal_error, [], [Audit e].
    split; [done|]. split; [done|]. split; [by eexists|].
    split; [constructor|]. split; [constructor|].
    split; [right; split; [done|]; exists e; eauto|].
    cbn [fst snd security_logs logged].
    destruct (store_fault E (clock w)) eqn:Hfault.
    + exists []. split; [done|]. split; [apply sublist_nil_l|].
      split; [simpl; lia|].
      intros Hok. rewrite Hok in Hfault. discriminate.
    + exists [e]. split; [done|]. split; [reflexivity|]. split; [simpl; lia|].
      done.
Qed.

(** The body is the number 5: no stage is entered, the outer handler makes
    the only call, and the store keeps its entry. *)
Lemma audit_one_call_per_stage_witness :
  let out := Intake.create_patient Demo.demo_env
               (Some (Intake.JScalar (PInt 5))) Demo.empty_world in
  out.1 = Ok resp_internal_error
  ∧ stages_of (trace out.2) = []
  ∧ ev_type <$> security_logs out.2 = [system_error]
  ∧ ∃ r ps tail,
      out.1 = Ok r
      ∧ trace out.2 = trace Demo.empty_world ++ audit_pairs ps ++ tail
      ∧ ps.*1 `prefix_of` pipeline_order
      ∧ NoDup ps.*1
      ∧ own_entries ps
      ∧ (tail = [] ∧ r ≠ resp_internal_error
         ∨ r = resp_internal_error
           ∧ ∃ e, ev_type e = system_error ∧ is_attack e = false
                  ∧ (tail = [Audit e]
                     ∨ ∃ s, tail = [Enter s; Audit e]
                            ∧ (ps.*1 ++ [s]) `prefix_of` pipeline_order))
      ∧ ∃ kept, security_logs out.2 = security_logs Demo.empty_world ++ kept
                ∧ kept `sublist_of` audit_calls (audit_pairs ps ++ tail)
                ∧ (length kept ≤ length ps + length (audit_calls tail))%nat
                ∧ ((∀ k, store_fault Demo.demo_env k = None) →
                   kept = audit_calls (audit_pairs ps ++ tail)).
Proof.
  cbv zeta. do 3 (split; [vm_compute; reflexivity|]).
  exact (audit_one_call_per_stage Demo.demo_env
           (Some (Intake.JScalar (PInt 5))) Demo.empty_world).
Defined.

(** ** Upsert by digest *)

Section Upsert.

Lemma count_documents_cons h d col :
  count_documents h (d :: col)
  = ((if decide (NIC_Hashed d = h) then 1 else 0) + count_documents h col)%nat.
Proof.
  unfold count_documents. rewrite filter_cons.
  destruct (decide (NIC_Hashed d = h)); reflexivity.
Qed.

Lemma count_find_one_and_update h doc col :
  NIC_Hashed doc = h →
  count_documents h (find_one_and_update h doc col)
  = Nat.max 1 (count_documents h col).
Proof.
  intros Hdoc. induction col as [|d col IH]; simpl.
  - rewrite count_documents_cons, decide_True by done. reflexivity.
  - destruct (decide (NIC_Hashed d = h)) as [Hd|Hd].
    + rewrite !count_documents_cons, !decide_True by done. lia.
    + rewrite !count_documents_cons, !decide_False by done. simpl. exact IH.
Qed.

Lemma count_documents_zero h col d :
  count_documents h col = 0%nat → d ∈ col → NIC_Hashed d ≠ h.
Proof.
  induction col as [|d0 col IH]; intros Hc Hin; [by apply elem_of_nil in Hin|].
  rewrite count_documents_cons in Hc.
  destruct (decide (NIC_Hashed d0 = h)); [lia|].
  apply elem_of_cons in Hin as [->|Hin]; [done|]. apply IH; [lia|done].
Qed.

Lemma elem_of_find_one_and_update h doc col :
  doc ∈ find_one_and_update h doc col.
Proof.
  induction col as [|d col IH]; simpl; [apply list_elem_of_here|].
  destruct (decide (NIC_Hashed d = h));
    [apply list_elem_of_here|by apply list_elem_of_further].
Qed.

(** With at most one document under [h] before, the upserted document is the
    only one under [h] afterwards. *)
Lemma find_one_and_update_unique h doc col d :
  (count_documents h col ≤ 1)%nat →
  d ∈ find_one_and_update h doc col → NIC_Hashed d = h → d = doc.
Proof.
  induction col as [|d0 col IH]; simpl; intros Hc Hin Hd.
  - apply list_elem_of_singleton in Hin. done.
  - rewrite count_documents_cons in Hc.
    destruct (decide (NIC_Hashed d0 = h)) as [Hd0|Hd0].
    + apply elem_of_cons in Hin as [->|Hin]; [done|].
      exfalso. apply (count_documents_zero h col d); [lia|done|done].
    + apply elem_of_cons in Hin as [->|Hin]; [done|].
      apply IH; [lia|done|done].
Qed.

(** Documents under other digests are left alone. *)
Lemma count_find_one_and_update_ne h h' doc col :
  NIC_Hashed doc = h → h' ≠ h →
  count_documents h' (find_one_and_update h doc col) = count_documents h' col.
Proof.
  intros Hdoc Hne. induction col as [|d col IH]; simpl.
  - rewrite count_documents_cons, decide_False by congruence. reflexivity.
  - destruct (decide (NIC_Hashed d = h)) as [Hd|Hd].
    + rewrite !count_documents_cons, !decide_False by congruence. reflexivity.
    + rewrite !count_documents_cons, IH. reflexivity.
Qed.

End Upsert.

(** ** Successful submissions *)

Section Saved.
Context `{Interp} (E : env).

Lemma summary_key_of_hash data pred h :
  hash_text (PStr (py_str (get data "NIC" PNone))) = Ok h →
  summary_key (record_of data pred)
  = Ok (if py_truthy (get data "NIC" PNone) then Some h else None).
Proof.
  unfold summary_key, hash_text. cbn [NIC record_of py_str].
  intros ->. by destruct (py_truthy _).
Qed.

(** A run answering 201 is step 4 run on the collections it started from. *)
Lemma create_patient_saved data w :
  let out := create_patient E (Some data) w in
  (∃ r, out.1 = Ok r ∧ status r = 201) →
  ∃ pred w0, patients w0 = patients w ∧ patients_plain w0 = patients_plain w
             ∧ out = persist E data pred w0
             ∧ out.1 = Ok (resp_saved pred).
Proof.
  cbv zeta. intros (r & Hr & Hs).
  destruct (create_patient_reach E (Some data) w)
    as [(_ & _ & Hno)|(data' & pred & w0 & [= <-] & Hp & Hq & Heq)].
  { by destruct (Hno r Hr). }
  exists pred, w0. repeat split; auto.
  rewrite Heq in *.
  destruct (persist_effect E data pred w0) as [(Hf & _)|(Hok & _)]; [|done].
  rewrite Hf in Hr. injection Hr as <-. discriminate.
Qed.

(** When nothing faults, step 4 upserts the document and appends the
    summary. *)
Lemma persist_stores data pred w ctx h :
  load_context E = Ok ctx → encryptable ctx data →
  (∀ k, store_fault E k = None) →
  hash_text (PStr (py_str (get data "NIC" PNone))) = Ok h →
  let out := persist E data pred w in
  let record := record_of data pred in
  ∃ c_nic c_name c_address,
    patients out.2 =
      find_one_and_update h (document_of record h c_nic c_name c_address)
        (patients w)
    ∧ patients_plain out.2 =
      patients_plain w ++
      [summary_of record
         (if py_truthy (get data "NIC" PNone) then Some h else None) pred].
Proof.
  intros Hctx Henc Hok Hh. cbv zeta.
  rewrite persist_run, update_patient_record_run, Hctx.
  cbn [NIC Name Address record_of]. rewrite Hh. cbv zeta.
  destruct (Henc (S (clock (entered Persistence w)))) as (_ & [c_name ->] & _).
  destruct (Henc (S (S (clock (entered Persistence w))))) as (_ & _ & [c_addr ->]).
  destruct (Henc (clock (entered Persistence w))) as ([c_nic ->] & _ & _).
  rewrite Hok. cbn [snd].
  rewrite plaintext_summary_run, (summary_key_of_hash data pred h Hh), Hok.
  exists c_nic, c_name, c_addr. split; reflexivity.
Qed.

End Saved.

(** The same NIC submitted at age 45 and then at age 46: one encrypted
    document, holding age 46, and two summaries under the same digest. *)
Lemma resubmission_duplicates_summary :
  let d1 := Demo.submission (PStr (u "199012345V")) (PInt 45) in
  let d2 := Demo.submission (PStr (u "199012345V")) (PInt 46) in
  let h := u "9c8513b324846bc589ba743818c8c7d15c0e4be1eb00faaec4db213105215c06" in
  let w1 := (create_patient Demo.demo_env (Some d1) Demo.empty_world).2 in
  let w2 := (create_patient Demo.demo_env (Some d2) w1).2 in
  hash_text (get d1 "NIC" PNone) = Ok h
  ∧ count_documents h (patients w2) = 1%nat
  ∧ (age ∘ doc_medical) <$> patients w2 = [PInt 46]
  ∧ count_plain (Some h) (patients_plain w2) = 2%nat
  ∧ ¬ one_document_each Demo.demo_env d1 d2 h.
Proof.
  cbv zeta. do 4 (split; [vm_compute; reflexivity|]).
  unfold one_document_each. vm_compute. intros [_ Hc]. discriminate.
Qed.

(** What the two writes do: when the same NIC is submitted twice, both
    submissions are answered 201 and neither the encryption nor the store faults, the
    [patients] collection holds exactly one document under the digest of the
    NIC, built from the second submission (upsert by [NIC_Hashed]); the
    plaintext summary is inserted, not upserted: [patients_plain] grows by
    one summary per submission, both under the same key. *)
Theorem resubmission_upserts_record_appends_summary `{Interp} (E : env)
    (d1 d2 : dict) (w : world) (h : pystr) (ctx : context) :
  let out1 := create_patient E (Some d1) w in
  let out2 := create_patient E (Some d2) out1.2 in
  get d1 "NIC" PNone = get d2 "NIC" PNone →
  hash_text (get d1 "NIC" PNone) = Ok h →
  (∃ r, out1.1 = Ok r ∧ status r = 201) →
  (∃ r, out2.1 = Ok r ∧ status r = 201) →
  (∀ k, store_fault E k = None) →
  load_context E = Ok ctx → encryptable ctx d1 → encryptable ctx d2 →
  (count_documents h (patients w) ≤ 1)%nat →
  count_documents h (patients out2.2) = 1%nat
  ∧ (∃ pred2 c_nic c_name c_address,
       let doc := document_of (record_of d2 pred2) h c_nic c_name c_address in
       doc ∈ patients out2.2
       ∧ ∀ d, d ∈ patients out2.2 → NIC_Hashed d = h → d = doc)
  ∧ ∃ s1 s2, patients_plain out2.2 = patients_plain w ++ [s1; s2]
             ∧ plain_NIC_Hashed s1 = plain_NIC_Hashed s2
             ∧ (py_truthy (get d1 "NIC" PNone) = true →
                plain_NIC_Hashed s1 = Some h).
Proof.
  cbv zeta. intros Hnic Hh H1 H2 Hok Hctx He1 He2 Hcount.
  assert (hash_text (PStr (py_str (get d1 "NIC" PNone))) = Ok h) as Hh1 by exact Hh.
  assert (hash_text (PStr (py_str (get d2 "NIC" PNone))) = Ok h) as Hh2
    by (rewrite <- Hnic; exact Hh).
  destruct (create_patient_saved E d1 w H1) as (p1 & w0 & Hp0 & Hq0 & Heq1 & _).
  destruct (persist_stores E d1 p1 w0 ctx h Hctx He1 Hok Hh1)
    as (n1 & m1 & a1 & Hpat1 & Hplain1).
  rewrite <- Heq1 in Hpat1, Hplain1.
  destruct (create_patient_saved E d2 _ H2) as (p2 & w1 & Hp1 & Hq1 & Heq2 & _).
  destruct (persist_stores E d2 p2 w1 ctx h Hctx He2 Hok Hh2)
    as (n2 & m2 & a2 & Hpat2 & Hplain2).
  rewrite <- Heq2 in Hpat2, Hplain2.
  rewrite Hp1, Hpat1, Hp0 in Hpat2. rewrite Hq1, Hplain1, Hq0 in Hplain2.
  split; [|split].
  - rewrite Hpat2, !count_find_one_and_update by done. lia.
  - exists p2, n2, m2, a2. cbv zeta. rewrite Hpat2. split.
    + apply elem_of_find_one_and_update.
    + intros d Hd Hk. eapply find_one_and_update_unique; [|exact Hd|exact Hk].
      rewrite count_find_one_and_update by done. lia.
  - eexists _, _. split; [by rewrite Hplain2, <- app_assoc|].
    cbn [plain_NIC_Hashed summary_of]. rewrite <- Hnic. split; [done|].
    by intros ->.
Qed.

Lemma demo_request_encryptable age_field :
  encryptable Demo.demo_context
    (Demo.submission (PStr (u "199012345V")) age_field).
Proof.
  intros nonce. unfold encrypt_vector, Demo.demo_context.
  repeat split.
  all: match goal with
       | |- is_Some (match ?x with _ => _ end) =>
           destruct x eqn:Hx; [by eexists|vm_compute in Hx; discriminate]
       end.
Qed.

Lemma resubmission_upserts_record_appends_summary_witness :
  let d1 := Demo.submission (PStr (u "199012345V")) (PInt 45) in
  let d2 := Demo.submission (PStr (u "199012345V")) (PInt 46) in
  let h := u "9c8513b324846bc589ba743818c8c7d15c0e4be1eb00faaec4db213105215c06" in
  let w1 := (create_patient Demo.demo_env (Some d1) Demo.empty_world).2 in
  let w2 := (create_patient Demo.demo_env (Some d2) w1).2 in
  count_documents h (patients w2) = 1%nat
  ∧ ∃ s1 s2, patients_plain w2 = [s1; s2]
             ∧ plain_NIC_Hashed s1 = plain_NIC_Hashed s2.
Proof.
  intros d1 d2 h w1 w2.
  destruct (resubmission_upserts_record_appends_summary Demo.demo_env d1 d2
              Demo.empty_world h Demo.demo_context)
    as (Hc & _ & s1 & s2 & Hp & Hk & _).
  - vm_compute. reflexivity.
  - vm_compute. reflexivity.
  - eexists. split; [vm_compute; reflexivity|reflexivity].
  - eexists. split; [vm_compute; reflexivity|reflexivity].
  - reflexivity.
  - reflexivity.
  - apply demo_request_encryptable.
  - apply demo_request_encryptable.
  - vm_compute. lia.
  - split; [exact Hc|]. exists s1, s2. split; [exact Hp|exact Hk].
Defined.

(** ** The two keys of a submission *)

(** A NIC sent as the JSON number 0 passes the required-field check (its text
    is not blank) and is hashed by the codec, while the endpoint's guard
    finds it falsy and writes a null key. *)
Lemma summary_key_null_for_zero_nic :
  let request := Some (Demo.submission (PInt 0) (PInt 45)) in
  let out := create_patient Demo.demo_env request Demo.empty_world in
  out.1 = Ok (resp_saved 1)
  ∧ plain_NIC_Hashed <$> patients_plain out.2 = [None]
  ∧ NIC_Hashed <$> patients out.2
    = [u "5feceb66ffc86f38d952786c6d696c79c2dbc239dd4e91b46729d73a27fb57e9"]
  ∧ ¬ keys_agree_on Demo.demo_env request.
Proof.
  cbv zeta. do 3 (split; [vm_compute; reflexivity|]).
  unfold keys_agree_on. vm_compute. discriminate.
Qed.

(** C10, amended. For every submission answered 201 whose NIC is truthy (a
    non-empty string, a non-zero number), the key the endpoint computes inline
    for the plaintext summary and the key [update_patient_record] computes with
    [hash_text] are the same digest [h] of the NIC's text: a summary written by
    the run carries [Some h], and an encrypted record written by the run is
    upserted under [h]. *)
Theorem summary_key_matches_record_key `{Interp} (E : env) (data : dict)
    (w : world) :
  let out := create_patient E (Some data) w in
  let nic := get data "NIC" PNone in
  (∃ r, out.1 = Ok r ∧ status r = 201) →
  py_truthy nic = true →
  ∃ h, hash_text (PStr (py_str nic)) = Ok h
       ∧ sha256_hexdigest (py_str nic) = Ok h
       ∧ (patients out.2 = patients w
          ∨ ∃ doc, NIC_Hashed doc = h
                   ∧ patients out.2 = find_one_and_update h doc (patients w))
       ∧ (patients_plain out.2 = patients_plain w
          ∨ ∃ s, plain_NIC_Hashed s = Some h
                 ∧ patients_plain out.2 = patients_plain w ++ [s]).
Proof.
  cbv zeta. intros Hsaved Htruthy.
  destruct (create_patient_saved E data w Hsaved)
    as (pred & w0 & Hp & Hq & Heq & Hr).
  rewrite Heq in *. clear Heq.
  destruct (persist_effect E data pred w0)
    as [(Hf & _)|(_ & [h Hh] & Hpat & Hplain)].
  { rewrite Hf in Hr. by injection Hr. }
  cbn [NIC record_of] in Hh, Hpat, Hplain.
  exists h. split; [exact Hh|]. split; [exact Hh|]. split.
  - destruct Hpat as [Hpat|(h' & c1 & c2 & c3 & Hh' & Hpat)].
    + left. by rewrite Hpat.
    + right. rewrite Hh in Hh'. injection Hh' as <-.
      eexists. split; [|rewrite Hpat, Hp; reflexivity]. reflexivity.
  - destruct Hplain as [Hplain|(k & Hk & Hplain)].
    + left. by rewrite Hplain.
    + right. rewrite (summary_key_of_hash data pred h Hh), Htruthy in Hk.
      injection Hk as <-.
      eexists. split; [|rewrite Hplain, Hq; reflexivity]. reflexivity.
Qed.

Lemma summary_key_matches_record_key_witness :
  let out := create_patient Demo.demo_env (Some Demo.demo_request)
               Demo.empty_world in
  ∃ h, hash_text (PStr (u "199012345V")) = Ok h
       ∧ plain_NIC_Hashed <$> patients_plain out.2 = [Some h]
       ∧ NIC_Hashed <$> patients out.2 = [h].
Proof.
  cbv zeta.
  destruct (summary_key_matches_record_key Demo.demo_env Demo.demo_request
              Demo.empty_world) as (h & Hh & _ & _ & _).
  - eexists. split; [vm_compute; reflexivity|reflexivity].
  - vm_compute. reflexivity.
  - exists h. split; [exact Hh|].
    vm_compute in Hh. injection Hh as <-.
    split; vm_compute; reflexivity.
Defined.

(** ** The prediction stage *)

(** C9. On a submission with all its fields that passes both gates, the
    classifier is applied to what the stored scaler [transform] returns on
    the vector of the submission, and the label handed to persistence is 1
    exactly when the positive-class probability of that scaled vector is at
    least 0.5; when the run answers 201 the response reports Diabetic exactly for
    label 1, and a document or a summary written by the run carries that
    label. A probability of 0.73 gives label 1. *)
Theorem prediction_threshold `{Interp} (E : env) (data : dict) (w : world)
    (x xs : vec) (mse prob : pyfloat) (transform : vec → result vec)
    (predict_proba : vec → result pyfloat) :
  List.filter (is_missing data) required = [] →
  _run_poisoning_check E data = Ok false →
  coerce_all data (feature_order E) = Ok x →
  detect_attack E x = Ok (false, mse) →
  scaler E = Some transform →
  transform x = Ok xs →
  model E = WithProba predict_proba →
  predict_proba xs = Ok prob →
  let pred := if fge prob (Finite (1 # 2)) then 1 else 0 in
  let out := create_patient E (Some data) w in
  (pred = 1 ↔ fge prob (Finite (1 # 2)) = true)
  ∧ (prob = Finite (73 # 100) → pred = 1)
  ∧ ((out.1 = Ok resp_save_failed
      ∧ patients out.2 = patients w ∧ patients_plain out.2 = patients_plain w)
     ∨ (out.1 = Ok (resp_saved pred)
        ∧ body (resp_saved pred) !! u "prediction"
          = Some (PStr (if fge prob (Finite (1 # 2))
                        then u "Diabetic" else u "Non-Diabetic"))
        ∧ (patients out.2 = patients w
           ∨ ∃ h doc, diabetes (doc_medical doc) = pred
                      ∧ patients out.2 = find_one_and_update h doc (patients w))
        ∧ (patients_plain out.2 = patients_plain w
           ∨ ∃ s, plain_diabetes s = pred
                  ∧ patients_plain out.2 = patients_plain w ++ [s]))).
Proof.
  intros Hm Hp Hc Hd Hscaler Htransform Hmodel Hprob. cbv zeta.
  assert (apply_scaler (scaler E) x = Ok xs) as Hs
    by (unfold apply_scaler; by rewrite Hscaler).
  split; [destruct (fge prob _); split; done|].
  split; [by intros ->|].
  rewrite create_patient_run. unfold create_patient_body.
  rewrite bool_decide_eq_false_2 by by apply missing_none_nonempty.
  rewrite Hm, poisoning_run, Hp. cbv zeta.
  rewrite extraction_run, Hc, Hd. cbn [fst snd].
  rewrite predict_run, Hs. cbn [rbind]. unfold predict_label.
  rewrite Hmodel. cbn [rbind]. rewrite Hprob. cbn [rbind fst snd].
  set (pred := if fge prob (Finite (1 # 2)) then 1 else 0).
  match goal with |- context [persist E data pred ?w3] => set (w0 := w3) end.
  assert (patients w0 = patients w ∧ patients_plain w0 = patients_plain w)
    as [Hp0 Hq0] by done.
  pose proof (persist_effect E data pred w0) as Heff. cbv zeta in Heff.
  destruct (persist E data pred w0) as [[r|e] w1]; cbn [fst snd] in *;
    cbv beta iota.
  2: { exfalso. destruct Heff as [(Hf & _)|(Hok & _)]; discriminate. }
  destruct Heff as [(Hf & Hpat & Hplain)|(Hok & _ & Hpat & Hplain)].
  - left. by rewrite Hf, Hpat, Hplain, Hp0, Hq0.
  - right. split; [done|]. split.
    { subst pred. destruct (fge prob _); vm_compute; reflexivity. }
    split.
    + destruct Hpat as [->|(h & c1 & c2 & c3 & _ & ->)]; [by left|].
      right. eexists _, _. split; [|by rewrite Hp0]. reflexivity.
    + destruct Hplain as [->|(k & _ & ->)]; [by left|].
      right. eexists. split; [|by rewrite Hq0]. reflexivity.
Qed.

(** Both gates pass, the scaler halves the features and the classifier
    answers 0.73 on the halved vector (it would answer 0.1 on the vector as
    submitted): the stored document and the summary carry label 1 and the
    response reports Diabetic. *)
Lemma prediction_threshold_witness :
  let out := create_patient Scenarios.scaling_env (Some Demo.demo_request)
               Demo.empty_world in
  rbind (coerce_all Demo.demo_request Demo.features)
    Scenarios.scaled_gender_model = Ok (Finite (1 # 10))
  ∧ rbind (rbind (coerce_all Demo.demo_request Demo.features)
             Scenarios.halving_scaler)
      Scenarios.scaled_gender_model = Ok (Finite (73 # 100))
  ∧ out.1 = Ok (resp_saved 1)
  ∧ body (resp_saved 1) !! u "prediction" = Some (PStr (u "Diabetic"))
  ∧ (diabetes ∘ doc_medical) <$> patients out.2 = [1]
  ∧ plain_diabetes <$> patients_plain out.2 = [1].
Proof.
  cbv zeta. do 2 (split; [vm_compute; reflexivity|]).
  destruct (prediction_threshold Scenarios.scaling_env Demo.demo_request
              Demo.empty_world
              (default [] (match coerce_all Demo.demo_request Demo.features with
                           | Ok x => Some x | Raise _ => None end))
              (default [] (match rbind (coerce_all Demo.demo_request
                                          Demo.features)
                                   Scenarios.halving_scaler with
                           | Ok xs => Some xs | Raise _ => None end))
              (Finite (1 # 100)) (Finite (73 # 100))
              Scenarios.halving_scaler Scenarios.scaled_gender_model)
    as (_ & _ & [(Hf & _)|(Hok & Hbody & _)]).
  - vm_compute. reflexivity.
  - vm_compute. reflexivity.
  - vm_compute. reflexivity.
  - reflexivity.
  - reflexivity.
  - vm_compute. reflexivity.
  - reflexivity.
  - vm_compute. reflexivity.
  - vm_compute in Hf. discriminate.
  - split; [exact Hok|]. split; [exact Hbody|].
    split; vm_compute; reflexivity.
Defined.

(** ** Runs on which the endpoint departs from its contract *)

(** C2. One identity field fails to encrypt: [update_patient_record] reports
    that the record is not saved and returns normally, after which the
    endpoint logs [record_created], inserts the plaintext summary and answers
    201. No encrypted record is stored, yet a summary is. *)
Theorem summary_stored_without_encrypted_record :
  let out := create_patient Scenarios.failing_encryption_env
               (Some Demo.demo_request) Demo.empty_world in
  encrypt_vector Scenarios.failing_context 5
    (get Demo.demo_request "Address" (PStr [])) = None
  ∧ out.1 = Ok (resp_saved 1)
  ∧ status (resp_saved 1) = 201
  ∧ patients out.2 = []
  ∧ patients_plain out.2
    = [{| plain_NIC_Hashed :=
            Some (u "9c8513b324846bc589ba743818c8c7d15c0e4be1eb00faaec4db213105215c06");
          name := PStr (u "Jane Perera");
          plain_diabetes := 1 |}]
  ∧ ev_type <$> security_logs out.2
    = [poisoning_check; extraction_check; prediction_success; record_created].
Proof. cbv zeta. repeat split; vm_compute; reflexivity. Qed.

(** Whatever the environment, a field that does not encrypt makes
    [update_patient_record] return normally without writing. *)
Lemma update_patient_record_skips `{Interp} (E : env) record w ctx :
  load_context E = Ok ctx →
  (∃ h, hash_text (PStr (py_str (NIC record))) = Ok h) →
  encrypt_vector ctx (S (S (clock w))) (Address record) = None →
  (update_patient_record E record w).1 = Ok ()
  ∧ patients (update_patient_record E record w).2 = patients w.
Proof.
  intros Hctx [h Hh] Hnone.
  rewrite update_patient_record_run, Hctx, Hh, Hnone. cbv zeta.
  destruct (encrypt_vector ctx (S (clock w)) (Name record)); split; reflexivity.
Qed.

(** C3. A submission with all required fields whose [age] is the text [abc]:
    the poisoning gate runs first (the value counts as 0.0 there), the
    coercion of step 2 then raises, and the outer handler logs a
    [system_error] and answers 500 with the generic message. The same
    submission without its [age] is answered 400 with nothing run. *)
Theorem uncoercible_feature_is_internal_error :
  let data := Demo.submission (PStr (u "199012345V")) (PStr (u "abc")) in
  let out := create_patient Demo.demo_env (Some data) Demo.empty_world in
  List.filter (is_missing data) required = []
  ∧ _coerce_feature (u "age") (PStr (u "abc"))
    = Raise (u "Invalid value for age: abc")
  ∧ out.1 = Ok resp_internal_error
  ∧ status resp_internal_error = 500
  ∧ stages_of (trace out.2) = [Poisoning; Extraction]
  ∧ ev_type <$> security_logs out.2 = [poisoning_check; system_error]
  ∧ is_attack <$> security_logs out.2 = [false; false]
  ∧ create_patient Demo.demo_env (Some (delete (u "age") data)) Demo.empty_world
    = (Ok (resp_missing [u "age"]), Demo.empty_world)
  ∧ status (resp_missing [u "age"]) = 400.
Proof. cbv zeta. repeat split; vm_compute; reflexivity. Qed.

(** Whatever the environment, a submission with a required field absent or
    blank is answered 400 before any stage is entered and any entry logged. *)
Lemma missing_field_rejected `{Interp} (E : env) data w :
  List.filter (is_missing data) required ≠ [] →
  create_patient E (Some data) w
  = (Ok (if bool_decide (data = ∅) then resp_invalid_json
         else resp_missing (List.filter (is_missing data) required)), w)
  ∧ status resp_invalid_json = 400
  ∧ ∀ missing, status (resp_missing missing) = 400.
Proof.
  intros Hm. split; [|split; reflexivity].
  rewrite create_patient_run. unfold create_patient_body.
  case_bool_decide; [reflexivity|].
  destruct (List.filter (is_missing data) required); [done|reflexivity].
Qed.

(** C5. The poisoning classifier raises: the verdict is logged as an attack
    and the answer is a 500 whose [error] field carries the text of the
    exception, while an exception of the extraction gate is answered with a
    fixed message. *)
Theorem poisoning_error_detail_in_response :
  let out := create_patient Scenarios.crashing_poisoning_env
               (Some Demo.demo_request) Demo.empty_world in
  _run_poisoning_check Scenarios.crashing_poisoning_env Demo.demo_request
  = Raise (u "Poisoning check failed: Input X contains NaN.")
  ∧ (∃ r, out.1 = Ok r ∧ status r = 500
          ∧ body r !! u "error"
            = Some (PStr (u "Poisoning check failed: Poisoning check failed: Input X contains NaN.")))
  ∧ (ev_type <$> security_logs out.2, is_attack <$> security_logs out.2)
    = ([poisoning_check_error], [true])
  ∧ body resp_extraction_failed !! u "error"
    = Some (PStr (u "Extraction check failed")).
Proof.
  cbv zeta. split; [vm_compute; reflexivity|]. split.
  - eexists. split; [vm_compute; reflexivity|]. split; vm_compute; reflexivity.
  - split; vm_compute; reflexivity.
Qed.

(** Whatever the environment, the text of an exception of the poisoning
    check reaches the caller. *)
Lemma poisoning_error_reaches_caller `{Interp} (E : env) data w e :
  _run_poisoning_check E data = Raise e →
  (poisoning E data w).1 = Ok (resp_poisoning_failed e)
  ∧ body (resp_poisoning_failed e) !! u "error"
    = Some (PStr (u "Poisoning check failed: " ++ e)).
Proof.
  intros He. rewrite poisoning_run, He. split; [reflexivity|].
  unfold resp_poisoning_failed, respond, dict_of. cbn [body fmap list_fmap prod_map].
  cbn [list_to_map foldr fst snd]. rewrite lookup_insert_ne by (vm_compute; discriminate).
  apply lookup_insert_eq.
Qed.

(** * Further properties *)

(** ** The intake endpoint: answers, counters and what is stored *)

Section Outcomes.
Context `{Interp} (E : env).

Lemma logged_patients e w : patients (logged E e w) = patients w.
Proof. reflexivity. Qed.

Lemma logged_patients_plain e w :
  patients_plain (logged E e w) = patients_plain w.
Proof. reflexivity. Qed.

(** What a run answering 201 went through. *)
Lemma create_patient_accepted request w r :
  (create_patient E request w).1 = Ok r → status r = 201 →
  ∃ data x mse lp,
    request = Some data
    ∧ List.filter (is_missing data) required = []
    ∧ _run_poisoning_check E data = Ok false
    ∧ coerce_all data (feature_order E) = Ok x
    ∧ detect_attack E x = Ok (false, mse)
    ∧ rbind (apply_scaler (scaler E) x) (predict_label E) = Ok lp
    ∧ r = resp_saved lp.1.
Proof.
  rewrite create_patient_run. unfold create_patient_body.
  destruct request as [data|]; [|by intros [= <-]].
  case_bool_decide; [by intros [= <-]|].
  destruct (List.filter _ _) eqn:Hm; [|by intros [= <-]].
  rewrite poisoning_run.
  destruct (_run_poisoning_check E data) as [[]|e] eqn:Hp; cbv zeta;
    [by intros [= <-]| |by intros [= <-]].
  rewrite extraction_run.
  destruct (coerce_all _ _) as [x|e] eqn:Hc; [|by intros [= <-]].
  destruct (detect_attack E x) as [[[] m]|e] eqn:Hd; cbn [fst snd];
    [by intros [= <-]| |by intros [= <-]].
  rewrite predict_run.
  destruct (rbind _ _) as [lp|e] eqn:Hl; [|by intros [= <-]].
  match goal with |- context [persist E data ?p ?w0] =>
    destruct (persist_effect E data p w0) as [(Hf & _)|(Hok & _)];
    destruct (persist E data p w0) as [r0 w1] end; simpl in *; subst.
  - by intros [= <-].
  - intros [= <-] _. exists data, x, m, lp. auto 10.
Qed.

End Outcomes.

Section Accounting.
Context `{Interp} (E : env).

Lemma count_attacks_logged e w :
  Reads.count_attacks (security_logs (logged E e w))
  = (Reads.count_attacks (security_logs w)
     + match store_fault E (clock w) with
       | None => if is_attack e then 1 else 0
       | Some _ => 0
       end)%nat.
Proof.
  unfold Reads.count_attacks, logged. cbn [security_logs].
  rewrite filter_app, length_app.
  destruct (store_fault E (clock w)); [reflexivity|].
  rewrite filter_cons. destruct (is_attack e) eqn:He.
  - rewrite decide_True by done. reflexivity.
  - rewrite decide_False by done. reflexivity.
Qed.

Lemma persist_count_attacks data pred w :
  Reads.count_attacks (security_logs (persist E data pred w).2)
  = Reads.count_attacks (security_logs w).
Proof.
  rewrite persist_run.
  pose proof (update_patient_record_frame E (record_of data pred)
                (entered Persistence w)) as (_ & Hl & _).
  destruct (update_patient_record E _ _) as [[[]|e] w1]; cbn [fst snd] in *.
  - match goal with |- context [plaintext_summary E ?r ?p ?w0] =>
      pose proof (plaintext_summary_frame E r p w0) as (_ & Hl' & _) end.
    rewrite Hl', count_attacks_logged, Hl. cbn [is_attack entry].
    destruct (store_fault E _); simpl; lia.
  - rewrite count_attacks_logged, Hl. cbn [is_attack entry].
    destruct (store_fault E _); simpl; lia.
Qed.

Lemma persist_status data pred w :
  ∃ r, (persist E data pred w).1 = Ok r ∧ (status r = 201 ∨ status r = 500).
Proof.
  destruct (persist_effect E data pred w) as [(-> & _)|(-> & _)];
    eexists; (split; [reflexivity|]); auto.
Qed.

Lemma accounted_answer c b w e n :
  c ∈ intake_statuses →
  Reads.count_attacks (security_logs w) = n →
  (c = 201 ∨ c = 400 → is_attack e = false) →
  (c = 403 → is_attack e = true) →
  accounted E n (Ok (respond c b), logged E e w).
Proof.
  intros Hc Hn Hok Hblock. unfold accounted. cbn [fst snd status respond].
  rewrite count_attacks_logged, Hn. split; [done|].
  split; [destruct (store_fault E _), (is_attack e); lia|]. split.
  - intros Hs. rewrite (Hok Hs). destruct (store_fault E _); lia.
  - intros Hs Hf. rewrite (Hblock Hs), Hf. reflexivity.
Qed.

Lemma accounted_logged e w n out :
  is_attack e = false →
  accounted E (Reads.count_attacks (security_logs (logged E e w))) out →
  Reads.count_attacks (security_logs w) = n →
  accounted E n out.
Proof.
  intros He Ha Hn. rewrite count_attacks_logged, He, Hn in Ha.
  destruct (store_fault E _); by rewrite Nat.add_0_r in Ha.
Qed.

Lemma persist_accounted data pred w :
  accounted E (Reads.count_attacks (security_logs w)) (persist E data pred w).
Proof.
  unfold accounted. rewrite persist_count_attacks.
  destruct (persist_status data pred w) as (r & -> & Hs).
  split; [unfold intake_statuses; destruct Hs as [-> | ->]; set_solver|].
  split; [lia|]. split; [done|]. intros H403. destruct Hs; congruence.
Qed.

Lemma predict_accounted data x mse w :
  accounted E (Reads.count_attacks (security_logs w)) (predict E data x mse w).
Proof.
  rewrite predict_run. destruct (rbind _ _) as [lp|e].
  - eapply accounted_logged; [|apply persist_accounted|]; reflexivity.
  - apply accounted_answer; [set_solver|done|by intros [?|?]|done].
Qed.

Lemma extraction_accounted data w :
  accounted E (Reads.count_attacks (security_logs w)) (extraction E data w).
Proof.
  rewrite extraction_run. destruct (coerce_all _ _) as [x|e]; [|reflexivity].
  destruct (detect_attack E x) as [[[] m]|e]; cbn [fst snd].
  - apply accounted_answer; [set_solver|done|by intros [?|?]|done].
  - eapply accounted_logged; [|apply predict_accounted|]; reflexivity.
  - apply accounted_answer; [set_solver|done|by intros [?|?]|done].
Qed.

Lemma poisoning_accounted data w :
  accounted E (Reads.count_attacks (security_logs w)) (poisoning E data w).
Proof.
  rewrite poisoning_run. destruct (_run_poisoning_check E data) as [[]|e]; cbv zeta.
  - apply accounted_answer; [set_solver|done|by intros [?|?]|done].
  - eapply accounted_logged; [|apply extraction_accounted|]; reflexivity.
  - apply accounted_answer; [set_solver|done|by intros [?|?]|done].
Qed.

(** X1. The attack counter of the dashboard against the answers of the intake
    endpoint: every run answers with 201, 400, 403 or 500; it adds at most one
    attack entry to the audit trail, none when it answers 201 or 400, and
    exactly one when it answers 403 and the store accepts the inserts. *)
Theorem attack_counter_follows_rejections request w :
  let out := create_patient E request w in
  let before := Reads.count_attacks (security_logs w) in
  let after := Reads.count_attacks (security_logs out.2) in
  ∃ r, out.1 = Ok r
    ∧ status r ∈ intake_statuses
    ∧ (before ≤ after ≤ before + 1)%nat
    ∧ (status r = 201 ∨ status r = 400 → after = before)
    ∧ (status r = 403 → (∀ k, store_fault E k = None) → after = (before + 1)%nat).
Proof.
  cbv zeta. rewrite create_patient_run.
  assert (accounted E (Reads.count_attacks (security_logs w))
            (create_patient_body E request w)) as Hb.
  { unfold create_patient_body.
    assert (∀ b, accounted E (Reads.count_attacks (security_logs w))
                   (Ok (respond 400 b), w)) as Hearly.
    { intros b. unfold accounted. cbn [fst snd status respond].
      split; [set_solver|]. split; [lia|]. split; done. }
    destruct request as [data|]; [|apply Hearly].
    case_bool_decide; [apply Hearly|].
    destruct (List.filter _ _); [apply poisoning_accounted|apply Hearly]. }
  unfold accounted in Hb.
  destruct (create_patient_body E request w) as [[r|e] w1]; cbn [fst snd] in *.
  - exists r. split; [reflexivity|]. exact Hb.
  - eexists. split; [reflexivity|]. rewrite count_attacks_logged, Hb.
    cbn [is_attack entry status resp_internal_error respond].
    split; [set_solver|]. split; [destruct (store_fault E _); lia|].
    split; [intros [?|?]; discriminate|discriminate].
Qed.

End Accounting.

Section UpsertKeys.

Lemma keys_find_one_and_update h doc col :
  NIC_Hashed doc = h →
  NIC_Hashed <$> find_one_and_update h doc col
  = if decide (h ∈ NIC_Hashed <$> col) then NIC_Hashed <$> col
    else (NIC_Hashed <$> col) ++ [h].
Proof.
  intros Hdoc. induction col as [|d col IH]; cbn [find_one_and_update].
  - simpl. by rewrite Hdoc.
  - destruct (decide (NIC_Hashed d = h)) as [Hd|Hd]; cbn [fmap list_fmap].
    + rewrite decide_True by (rewrite Hd; apply list_elem_of_here). congruence.
    + rewrite IH. destruct (decide (h ∈ NIC_Hashed <$> col)) as [Hin|Hin].
      * rewrite decide_True by by apply list_elem_of_further. reflexivity.
      * rewrite decide_False; [reflexivity|].
        rewrite elem_of_cons. intros [?|?]; congruence.
Qed.

Lemma NoDup_keys_find_one_and_update h doc col :
  NIC_Hashed doc = h →
  NoDup (NIC_Hashed <$> col) →
  NoDup (NIC_Hashed <$> find_one_and_update h doc col).
Proof.
  intros Hdoc Hnd. rewrite keys_find_one_and_update by done.
  destruct (decide _) as [Hin|Hin]; [done|].
  apply NoDup_app. split; [done|]. split; [|apply NoDup_singleton].
  intros x Hx Hx'. apply list_elem_of_singleton in Hx'. by subst.
Qed.

Lemma filter_find_one_and_update_ne h h' doc col :
  NIC_Hashed doc = h → h' ≠ h →
  filter (λ d, NIC_Hashed d = h') (find_one_and_update h doc col)
  = filter (λ d, NIC_Hashed d = h') col.
Proof.
  intros Hdoc Hne. induction col as [|d col IH]; simpl.
  - rewrite filter_cons, decide_False by congruence. reflexivity.
  - destruct (decide (NIC_Hashed d = h)) as [Hd|Hd].
    + rewrite !filter_cons, !decide_False by congruence. reflexivity.
    + rewrite !filter_cons, IH. reflexivity.
Qed.

Lemma length_find_one_and_update h doc col :
  (length col ≤ length (find_one_and_update h doc col) ≤ length col + 1)%nat.
Proof.
  induction col as [|d col IH]; simpl; [lia|].
  destruct (decide (NIC_Hashed d = h)); simpl; lia.
Qed.

End UpsertKeys.

Section Stored.
Context `{Interp} (E : env).

Lemma create_patient_unchanged request w r :
  (create_patient E request w).1 = Ok r → status r ≠ 201 →
  patients (create_patient E request w).2 = patients w
  ∧ patients_plain (create_patient E request w).2 = patients_plain w.
Proof.
  intros Hr Hs.
  destruct (create_patient_reach E request w)
    as [(Hp & Hq & _)|(data & pred & w0 & _ & Hp & Hq & Heq)]; [done|].
  rewrite Heq in *.
  destruct (persist_effect E data pred w0) as [(_ & Hp' & Hq')|(Hok & _)].
  - by rewrite Hp', Hq'.
  - rewrite Hok in Hr. injection Hr as <-. by destruct Hs.
Qed.

(** X2. Nothing is stored unless the answer is 201: a run that answers with any
    other status leaves the encrypted records and the plaintext summaries as
    they were. *)
Theorem nothing_stored_unless_created request w r :
  let out := create_patient E request w in
  out.1 = Ok r → status r ≠ 201 →
  patients out.2 = patients w ∧ patients_plain out.2 = patients_plain w.
Proof. cbv zeta. apply create_patient_unchanged. Qed.

(** What any run does to the encrypted records: nothing, or one upsert under
    the digest of the submitted NIC. *)
Lemma create_patient_patients request w :
  let out := create_patient E request w in
  patients out.2 = patients w
  ∨ ∃ data h doc, request = Some data
      ∧ hash_text (PStr (py_str (get data "NIC" PNone))) = Ok h
      ∧ NIC_Hashed doc = h
      ∧ patients out.2 = find_one_and_update h doc (patients w).
Proof.
  cbv zeta.
  destruct (create_patient_reach E request w)
    as [(Hp & _)|(data & pred & w0 & -> & Hp & Hq & Heq)]; [by left|].
  rewrite Heq.
  destruct (persist_effect E data pred w0)
    as [(_ & Hp' & _)|(_ & _ & [Hp'|(h & c1 & c2 & c3 & Hh & Hp')] & _)].
  - left. by rewrite Hp'.
  - left. by rewrite Hp'.
  - right. exists data, h, (document_of (record_of data pred) h c1 c2 c3).
    split; [done|]. split; [exact Hh|]. split; [done|]. by rewrite Hp', Hp.
Qed.

(** X3. The keys of the encrypted records stay pairwise distinct: whatever the
    submission and however the run ends, a collection without two records
    under one [NIC_Hashed] is left without two such records. *)
Theorem record_keys_stay_unique request w :
  NoDup (record_keys w) →
  NoDup (record_keys (create_patient E request w).2).
Proof.
  unfold record_keys. intros Hnd.
  destruct (create_patient_patients request w)
    as [->|(data & h & doc & _ & _ & Hdoc & ->)]; [done|].
  by apply NoDup_keys_find_one_and_update.
Qed.

(** X4. A run only touches the record of the submitted NIC: the encrypted
    records under every other digest are the same before and after, in the
    same order, and no record is ever removed. *)
Theorem other_records_untouched data w h' :
  let out := create_patient E (Some data) w in
  hash_text (get data "NIC" PNone) ≠ Ok h' →
  filter (λ d, NIC_Hashed d = h') (patients out.2)
  = filter (λ d, NIC_Hashed d = h') (patients w)
  ∧ (length (patients w) ≤ length (patients out.2))%nat.
Proof.
  cbv zeta. intros Hne.
  destruct (create_patient_patients (Some data) w)
    as [->|(data' & h & doc & [= <-] & Hh & Hdoc & ->)]; [done|].
  split; [|apply length_find_one_and_update].
  apply filter_find_one_and_update_ne; [done|].
  intros ->. by apply Hne.
Qed.

End Stored.

Section Trails.
Context `{Interp} (E : env).

(** X5. The audit trail and the plaintext summaries are append-only: whatever
    the submission and however the run ends, the entries and summaries
    present before the run are still there afterwards, unchanged and in the
    same order, followed by at most four new entries and at most one new
    summary. *)
Theorem trails_append_only request w :
  let w' := (create_patient E request w).2 in
  (∃ entries, security_logs w' = security_logs w ++ entries
              ∧ (length entries ≤ 4)%nat)
  ∧ (∃ summaries, patients_plain w' = patients_plain w ++ summaries
                  ∧ (length summaries ≤ 1)%nat).
Proof.
  cbv zeta. split.
  - destruct (create_patient_audited E request w)
      as (r & ps & _ & [_ (kept & Hl & Hs & _)] & Hp).
    exists kept. split; [done|].
    apply sublist_length in Hs. apply prefix_length in Hp.
    rewrite !length_fmap in *. simpl in Hp. lia.
  - destruct (create_patient_reach E request w)
      as [(_ & Hq & _)|(data & pred & w0 & _ & _ & Hq & Heq)].
    + exists []. rewrite app_nil_r. split; [done|simpl; lia].
    + rewrite Heq.
      destruct (persist_effect E data pred w0)
        as [(_ & _ & Hq')|(_ & _ & _ & [Hq'|(k & _ & Hq')])].
      * exists []. rewrite app_nil_r, Hq', Hq. split; [done|simpl; lia].
      * exists []. rewrite app_nil_r, Hq', Hq. split; [done|simpl; lia].
      * eexists [_]. rewrite Hq', Hq. split; [done|simpl; lia].
Qed.

(** X6. A submission is answered 201 only after every check: all required
    fields are present, the poisoning check answered False, every feature of
    the model is present and numeric, the extraction check answered False and
    the classifier produced a label, which is the one reported. *)
Theorem created_only_after_every_check request w r :
  (create_patient E request w).1 = Ok r → status r = 201 →
  ∃ data x mse lp,
    request = Some data
    ∧ List.filter (is_missing data) required = []
    ∧ _run_poisoning_check E data = Ok false
    ∧ coerce_all data (feature_order E) = Ok x
    ∧ length x = length (feature_order E)
    ∧ detect_attack E x = Ok (false, mse)
    ∧ rbind (apply_scaler (scaler E) x) (predict_label E) = Ok lp
    ∧ r = resp_saved lp.1.
Proof.
  intros Hr Hs.
  destruct (create_patient_accepted E request w r Hr Hs)
    as (data & x & mse & lp & -> & Hm & Hp & Hc & Hd & Hl & ->).
  exists data, x, mse, lp. repeat (split; [done|]). split; [|done].
  clear -Hc. revert x Hc.
  induction (feature_order E) as [|f cols IH]; intros x; simpl.
  - by intros [= <-].
  - destruct (data !! f) as [v|]; [|discriminate].
    destruct (_coerce_feature f v) as [y|]; [|discriminate]. simpl.
    destruct (coerce_all data cols) as [ys|]; [|discriminate]. simpl.
    intros [= <-]. simpl. f_equal. by apply IH.
Qed.

End Trails.

Section Identity.
Context `{Interp} (E : env).

Lemma same_features_poisoning d1 d2 :
  same_features E d1 d2 →
  _run_poisoning_check E d1 = _run_poisoning_check E d2.
Proof.
  intros Hsame. unfold _run_poisoning_check.
  replace (poisoning_feature E d1 <$> feature_order E)
    with (poisoning_feature E d2 <$> feature_order E); [reflexivity|].
  apply Forall_fmap_ext_1, Forall_forall. intros col Hcol.
  unfold poisoning_feature. by rewrite (Hsame col Hcol).
Qed.

Lemma same_features_coerce_all d1 d2 :
  same_features E d1 d2 →
  coerce_all d1 (feature_order E) = coerce_all d2 (feature_order E).
Proof.
  unfold same_features.
  induction (feature_order E) as [|f cols IH]; intros Hsame; [reflexivity|].
  cbn [coerce_all]. rewrite (Hsame f) by apply list_elem_of_here.
  rewrite IH; [reflexivity|].
  intros col Hcol. by apply Hsame, list_elem_of_further.
Qed.

Lemma same_features_decision d1 d2 :
  same_features E d1 d2 → decision E d1 = decision E d2.
Proof.
  intros Hsame. unfold decision.
  by rewrite (same_features_poisoning d1 d2), (same_features_coerce_all d1 d2).
Qed.

Lemma create_patient_decision data w r :
  List.filter (is_missing data) required = [] →
  (create_patient E (Some data) w).1 = Ok r → status r ≠ 500 →
  decision E data = Some r.
Proof.
  intros Hm. rewrite create_patient_run. unfold create_patient_body, decision.
  rewrite bool_decide_eq_false_2 by by apply missing_none_nonempty.
  rewrite Hm, poisoning_run.
  destruct (_run_poisoning_check E data) as [[]|e]; cbv zeta;
    [by intros [= <-]| |by intros [= <-] []].
  rewrite extraction_run.
  destruct (coerce_all _ _) as [x|e]; [|by intros [= <-] []].
  destruct (detect_attack E x) as [[[] m]|e]; cbn [fst snd];
    [by intros [= <-]| |by intros [= <-] []].
  rewrite predict_run.
  destruct (rbind _ _) as [lp|e]; [|by intros [= <-] []].
  match goal with |- context [persist E data ?p ?w0] =>
    destruct (persist_effect E data p w0) as [(Hf & _)|(Hok & _)];
    destruct (persist E data p w0) as [r0 w1] end; simpl in *; subst.
  - by intros [= <-] [].
  - by intros [= <-].
Qed.

(** X7. The gates and the classifier look at the features of the model only:
    two submissions that agree on every feature get the same poisoning
    verdict and the same feature vector, and when both have all required
    fields and neither run answers 500, the two answers are equal (same
    status, same alert, same prediction), whatever the NIC, name and address
    and whatever the contents of the store. *)
Theorem verdict_ignores_identity_fields d1 d2 w1 w2 r1 r2 :
  same_features E d1 d2 →
  List.filter (is_missing d1) required = [] →
  List.filter (is_missing d2) required = [] →
  (create_patient E (Some d1) w1).1 = Ok r1 →
  (create_patient E (Some d2) w2).1 = Ok r2 →
  _run_poisoning_check E d1 = _run_poisoning_check E d2
  ∧ coerce_all d1 (feature_order E) = coerce_all d2 (feature_order E)
  ∧ (status r1 ≠ 500 → status r2 ≠ 500 → r1 = r2).
Proof.
  intros Hsame Hm1 Hm2 Hr1 Hr2.
  split; [by apply same_features_poisoning|].
  split; [by apply same_features_coerce_all|].
  intros Hs1 Hs2.
  pose proof (create_patient_decision d1 w1 r1 Hm1 Hr1 Hs1) as H1.
  pose proof (create_patient_decision d2 w2 r2 Hm2 Hr2 Hs2) as H2.
  rewrite (same_features_decision d1 d2 Hsame) in H1. congruence.
Qed.

(** X8. The poisoning check reads an absent feature as 0: leaving a feature
    out of the submission and sending it as the number 0 give the same
    outcome of the check, verdict or exception. *)
Theorem poisoning_check_defaults_absent_feature data col :
  _run_poisoning_check E (delete col data)
  = _run_poisoning_check E (<[col := PInt 0]> data).
Proof.
  unfold _run_poisoning_check.
  replace (poisoning_feature E (delete col data) <$> feature_order E)
    with (poisoning_feature E (<[col := PInt 0]> data) <$> feature_order E);
    [reflexivity|].
  apply Forall_fmap_ext_1, Forall_forall. intros c _.
  unfold poisoning_feature, dict in *. destruct (decide (c = col)) as [->|Hne].
  - by rewrite lookup_insert_eq, lookup_delete_eq.
  - by rewrite lookup_insert_ne, lookup_delete_ne.
Qed.

End Identity.

Section Format.

Lemma digit_hex_lower d : 0 ≤ d < 16 → is_hex_lower (Hex.digit d).
Proof.
  intros Hd. unfold Hex.digit, is_hex_lower.
  destruct (d <? 10) eqn:Hlt; [apply Z.ltb_lt in Hlt|apply Z.ltb_ge in Hlt]; lia.
Qed.

Lemma hex_format bs :
  Forall is_byte bs →
  length (Hex.hex bs) = (2 * length bs)%nat ∧ Forall is_hex_lower (Hex.hex bs).
Proof.
  induction 1 as [|b bs Hb _ [IHl IHf]]; [split; [done|constructor]|].
  change (Hex.hex (b :: bs))
    with (Hex.digit (b / 16) :: Hex.digit (b mod 16) :: Hex.hex bs).
  unfold is_byte in Hb. split; [simpl; lia|].
  constructor; [|constructor; [|done]]; apply digit_hex_lower.
  - split; [apply Z.div_pos|apply Z.div_lt_upper_bound]; lia.
  - apply Z.mod_pos_bound. lia.
Qed.

(** X9. Every key the codec produces has the same shape: whatever the value,
    [hash_text] either fails (the text has no UTF-8 encoding) or returns
    exactly 64 characters, each a decimal digit or a letter from a to f. *)
Theorem hash_text_is_64_hex_digits `{Interp} (v : pyval) (h : pystr) :
  hash_text v = Ok h →
  length h = 64%nat ∧ Forall is_hex_lower h ∧ is_Some (Hex.int16 h).
Proof.
  unfold hash_text, sha256_hexdigest.
  destruct (encode (py_str v)) as [bs|]; [|discriminate]. intros [= <-].
  destruct (hex_format (SHA256.digest bs) (digest_bytes bs)) as [Hl Hf].
  rewrite Hl, length_digest. split; [reflexivity|]. split; [exact Hf|].
  rewrite int16_hexdigest. by eexists.
Qed.

End Format.

(** A poisoned resubmission of a stored NIC is answered 403 and leaves the
    record and the summary of the first submission alone. *)
Lemma nothing_stored_unless_created_witness :
  let jane := Fixtures.numeric_request "199012345V" "Jane Perera" in
  let w := (create_patient Demo.demo_env (Some jane) Demo.empty_world).2 in
  let out := create_patient Scenarios.poisoned_env (Some jane) w in
  out.1 = Ok resp_poisoning_detected
  ∧ length (patients w) = 1%nat
  ∧ patients out.2 = patients w ∧ patients_plain out.2 = patients_plain w.
Proof.
  cbv zeta. split; [vm_compute; reflexivity|]. split; [vm_compute; reflexivity|].
  apply (nothing_stored_unless_created Scenarios.poisoned_env (Some _) _
           resp_poisoning_detected).
  - vm_compute. reflexivity.
  - vm_compute. discriminate.
Defined.

(** Two accepted submissions of one NIC leave one key. *)
Lemma record_keys_stay_unique_witness :
  let jane := Fixtures.numeric_request "199012345V" "Jane Perera" in
  let w := (create_patient Demo.demo_env (Some jane) Demo.empty_world).2 in
  length (record_keys w) = 1%nat
  ∧ NoDup (record_keys (create_patient Demo.demo_env (Some jane) w).2).
Proof.
  cbv zeta. split; [vm_compute; reflexivity|].
  apply (record_keys_stay_unique Demo.demo_env).
  vm_compute. apply NoDup_singleton.
Defined.

(** The record of Jane is the same before and after the submission of
    Kamal. *)
Lemma other_records_untouched_witness :
  let jane := Fixtures.numeric_request "199012345V" "Jane Perera" in
  let kamal := Fixtures.numeric_request "198511112V" "Kamal Silva" in
  let h := u "9c8513b324846bc589ba743818c8c7d15c0e4be1eb00faaec4db213105215c06" in
  let w := (create_patient Demo.demo_env (Some jane) Demo.empty_world).2 in
  let out := create_patient Demo.demo_env (Some kamal) w in
  hash_text (get jane "NIC" PNone) = Ok h
  ∧ filter (λ d, NIC_Hashed d = h) (patients out.2)
    = filter (λ d, NIC_Hashed d = h) (patients w)
  ∧ (length (patients w) ≤ length (patients out.2))%nat.
Proof.
  cbv zeta. split; [vm_compute; reflexivity|].
  apply (other_records_untouched Demo.demo_env).
  vm_compute. discriminate.
Defined.

(** The demonstration environment accepts the numeric submission. *)
Lemma created_only_after_every_check_witness :
  let jane := Fixtures.numeric_request "199012345V" "Jane Perera" in
  ∃ data x mse lp,
    Some jane = Some data
    ∧ List.filter (is_missing data) required = []
    ∧ _run_poisoning_check Demo.demo_env data = Ok false
    ∧ coerce_all data (feature_order Demo.demo_env) = Ok x
    ∧ length x = length (feature_order Demo.demo_env)
    ∧ detect_attack Demo.demo_env x = Ok (false, mse)
    ∧ rbind (apply_scaler (scaler Demo.demo_env) x) (predict_label Demo.demo_env)
      = Ok lp
    ∧ resp_saved 1 = resp_saved lp.1.
Proof.
  cbv zeta.
  apply (created_only_after_every_check Demo.demo_env _ Demo.empty_world).
  - vm_compute. reflexivity.
  - reflexivity.
Defined.

(** Jane and Kamal submit the same features and get the same answer. *)
Lemma verdict_ignores_identity_fields_witness :
  let jane := Fixtures.numeric_request "199012345V" "Jane Perera" in
  let kamal := Fixtures.numeric_request "198511112V" "Kamal Silva" in
  let w := (create_patient Demo.demo_env (Some jane) Demo.empty_world).2 in
  (create_patient Demo.demo_env (Some jane) Demo.empty_world).1
  = Ok (resp_saved 1)
  ∧ (create_patient Demo.demo_env (Some kamal) w).1 = Ok (resp_saved 1)
  ∧ _run_poisoning_check Demo.demo_env jane
    = _run_poisoning_check Demo.demo_env kamal
  ∧ coerce_all jane (feature_order Demo.demo_env)
    = coerce_all kamal (feature_order Demo.demo_env).
Proof.
  cbv zeta.
  assert ((create_patient Demo.demo_env
             (Some (Fixtures.numeric_request "199012345V" "Jane Perera"))
             Demo.empty_world).1 = Ok (resp_saved 1)) as Hjane
    by (vm_compute; reflexivity).
  assert ((create_patient Demo.demo_env
             (Some (Fixtures.numeric_request "198511112V" "Kamal Silva"))
             (create_patient Demo.demo_env
                (Some (Fixtures.numeric_request "199012345V" "Jane Perera"))
                Demo.empty_world).2).1 = Ok (resp_saved 1)) as Hkamal
    by (vm_compute; reflexivity).
  split; [exact Hjane|]. split; [exact Hkamal|].
  assert (same_features Demo.demo_env
            (Fixtures.numeric_request "199012345V" "Jane Perera")
            (Fixtures.numeric_request "198511112V" "Kamal Silva")) as Hsame.
  { intros col Hcol. vm_compute in Hcol.
    repeat (apply elem_of_cons in Hcol as [->|Hcol]; [vm_compute; reflexivity|]).
    apply elem_of_nil in Hcol. destruct Hcol. }
  destruct (verdict_ignores_identity_fields Demo.demo_env
              (Fixtures.numeric_request "199012345V" "Jane Perera")
              (Fixtures.numeric_request "198511112V" "Kamal Silva")
              Demo.empty_world
              (create_patient Demo.demo_env
                 (Some (Fixtures.numeric_request "199012345V" "Jane Perera"))
                 Demo.empty_world).2
              (resp_saved 1) (resp_saved 1) Hsame
              ltac:(vm_compute; reflexivity) ltac:(vm_compute; reflexivity)
              Hjane Hkamal) as (Hcheck & Hvec & _).
  by split.
Defined.

(** The key of the NIC 199012345V. *)
Lemma hash_text_is_64_hex_digits_witness :
  let h := u "9c8513b324846bc589ba743818c8c7d15c0e4be1eb00faaec4db213105215c06" in
  length h = 64%nat ∧ Forall is_hex_lower h ∧ is_Some (Hex.int16 h).
Proof.
  cbv zeta. apply (hash_text_is_64_hex_digits (PStr (u "199012345V"))).
  vm_compute. reflexivity.
Defined.

(** ** The paginated read endpoints *)

Section Pages.

Lemma pages_cover {A} (n : nat) (l : list A) (t : nat) :
  (0 < n)%nat → (length l ≤ t * n)%nat →
  mjoin ((λ i, take n (drop (i * n) l)) <$> seq 0 t) = l.
Proof.
  intros Hn. revert l. induction t as [|t IH]; intros l Hl.
  - destruct l; [done|simpl in Hl; lia].
  - cbn [seq fmap list_fmap mjoin list_join]. rewrite drop_0.
    transitivity (take n l ++ drop n l); [|apply take_drop]. f_equal.
    rewrite <- fmap_S_seq, <- list_fmap_compose.
    transitivity (mjoin ((λ i, take n (drop (i * n) (drop n l))) <$> seq 0 t));
      [|apply IH; rewrite length_drop; lia].
    f_equal. apply list_fmap_ext. intros _ i _. simpl.
    by rewrite drop_drop.
Qed.

End Pages.

Section Listings.
Context {A : Type}.
Implicit Types (col docs : list A) (query : A → bool) (created_at : nat → Z).

Lemma elem_of_stamped created_at col (d : Z * A) :
  d ∈ Reads.stamped created_at col
  ↔ ∃ i, col !! i = Some d.2 ∧ d.1 = created_at i.
Proof.
  unfold Reads.stamped. rewrite list_elem_of_lookup. split.
  - intros [i Hi]. destruct d as [k x].
    apply lookup_zip_Some in Hi as [Hk Hx].
    apply list_lookup_fmap_Some in Hk as (j & -> & Hj).
    apply lookup_seq in Hj as [-> _]. by exists i.
  - intros (i & Hi & Hk). exists i. destruct d as [k x]. simpl in *.
    apply lookup_zip_Some. split; [|done].
    rewrite list_lookup_fmap, lookup_seq_lt by by eapply lookup_lt_Some.
    by rewrite Hk.
Qed.

Lemma stamped_snd created_at query col :
  (List.filter (λ d : Z * A, query d.2) (Reads.stamped created_at col)).*2
  = List.filter query col.
Proof.
  unfold Reads.stamped. generalize 0%nat.
  induction col as [|x col IH]; intros k; [done|].
  cbn [length seq fmap list_fmap zip zip_with List.filter fst snd].
  destruct (query x); cbn [fmap list_fmap snd]; by rewrite IH.
Qed.

Lemma filter_all' (l : list A) : List.filter (λ _, true) l = l.
Proof. induction l as [|x l IH]; [done|]. simpl. by rewrite IH. Qed.

Lemma elem_of_filter_stamped created_at query col (d : Z * A) :
  d ∈ List.filter (λ d : Z * A, query d.2) (Reads.stamped created_at col) →
  d ∈ Reads.stamped created_at col.
Proof. rewrite !list_elem_of_In, List.filter_In. tauto. Qed.

Lemma stamped_keys_unique created_at col (d d' : Z * A) :
  stamps_distinct created_at (length col) →
  d ∈ Reads.stamped created_at col → d' ∈ Reads.stamped created_at col →
  d.1 = d'.1 → d = d'.
Proof.
  intros Hdis (i & Hi & Hk)%elem_of_stamped (j & Hj & Hk')%elem_of_stamped Heq.
  assert (i = j) as ->.
  { apply Hdis; [by eapply lookup_lt_Some..|congruence]. }
  destruct d, d'; simpl in *. congruence.
Qed.

Lemma stamps_increase_distinct created_at n :
  stamps_increase created_at n → stamps_distinct created_at n.
Proof.
  intros Hinc i j Hi Hj Heq.
  destruct (Nat.lt_total i j) as [Hlt|[->|Hlt]]; [|done|].
  - pose proof (Hinc i j Hlt Hj). lia.
  - pose proof (Hinc j i Hlt Hi). lia.
Qed.

(** A listing holds the matching documents, each once. *)
Lemma listing_Permutation created_at query col docs :
  listing created_at query col docs → docs ≡ₚ List.filter query col.
Proof.
  intros (l & Hperm & _ & ->). rewrite Hperm. by rewrite stamped_snd.
Qed.

(** With distinct stamps there is one listing. *)
Lemma listing_unique created_at query col docs docs' :
  stamps_distinct created_at (length col) →
  listing created_at query col docs → listing created_at query col docs' →
  docs = docs'.
Proof.
  intros Hdis (l & Hperm & Hsort & ->) (l' & Hperm' & Hsort' & ->). f_equal.
  eapply (StronglySorted_unique_strong _ l l'); [|done..|by rewrite Hperm, Hperm'].
  intros d d' Hd Hd' Hle Hge.
  rewrite Hperm in Hd. rewrite Hperm' in Hd'.
  apply (stamped_keys_unique created_at col);
    [done|by eapply elem_of_filter_stamped..|simpl in *; lia].
Qed.

Lemma stamped_ascending created_at col :
  stamps_increase created_at (length col) →
  StronglySorted (λ d d' : Z * A, d.1 < d'.1) (Reads.stamped created_at col).
Proof.
  unfold Reads.stamped, stamps_increase.
  assert (∀ k, (∀ i j, (k ≤ i)%nat → (i < j)%nat → (j < k + length col)%nat →
                 created_at i < created_at j) →
          StronglySorted (λ d d' : Z * A, d.1 < d'.1)
            (zip (created_at <$> seq k (length col)) col)) as Hgen.
  { induction col as [|x col IH]; intros k Hinc; [constructor|].
    cbn [length seq fmap list_fmap zip zip_with]. constructor.
    - apply IH. intros i j Hi Hij Hj. apply Hinc; simpl; lia.
    - apply Forall_forall. intros [s y] Hin. simpl.
      apply elem_of_zip_l in Hin.
      apply list_elem_of_fmap in Hin as (j & -> & Hj).
      apply elem_of_seq in Hj. apply Hinc; simpl; lia. }
  intros Hinc. apply Hgen. intros i j _ Hij Hj. apply Hinc; lia.
Qed.

Lemma StronglySorted_filter (R : relation (Z * A)) f (l : list (Z * A)) :
  StronglySorted R l → StronglySorted R (List.filter f l).
Proof.
  induction 1 as [|x l Hl IH Hx]; [constructor|]. simpl.
  assert (Forall (R x) (List.filter f l)) as Hx'.
  { rewrite Forall_forall in Hx |- *. intros y Hy. apply Hx.
    revert Hy. rewrite !list_elem_of_In, List.filter_In. tauto. }
  destruct (f x); [by constructor|done].
Qed.

Lemma StronglySorted_weaken (R R' : relation (Z * A)) (l : list (Z * A)) :
  (∀ x y, R x y → R' x y) → StronglySorted R l → StronglySorted R' l.
Proof.
  intros HR. induction 1 as [|x l Hl IH Hx]; constructor; [done|].
  eapply Forall_impl; [done|]. intros y. apply HR.
Qed.

Lemma StronglySorted_reverse (R : relation (Z * A)) (l : list (Z * A)) :
  StronglySorted R l → StronglySorted (flip R) (reverse l).
Proof.
  induction 1 as [|x l Hl IH Hx]; [constructor|].
  rewrite reverse_cons. apply StronglySorted_app_2; [|done|repeat constructor].
  intros y z Hy Hz. apply list_elem_of_singleton in Hz as ->.
  rewrite Forall_forall in Hx. apply Hx. by apply elem_of_reverse.
Qed.

(** With stamps that increase, the listing is the matching documents from
    the last inserted to the first. *)
Lemma listing_newest_first created_at query col docs :
  stamps_increase created_at (length col) →
  listing created_at query col docs →
  docs = newest_first (List.filter query col).
Proof.
  intros Hinc Hdocs.
  apply (listing_unique created_at query col);
    [by apply stamps_increase_distinct|done|].
  exists (reverse (List.filter (λ d : Z * A, query d.2)
                     (Reads.stamped created_at col))).
  split; [apply reverse_Permutation|]. split.
  - eapply StronglySorted_weaken;
      [|apply StronglySorted_reverse, StronglySorted_filter,
          (stamped_ascending created_at col Hinc)].
    intros d d'. unfold flip. lia.
  - unfold newest_first.
    by rewrite <- (stamped_snd created_at query col), fmap_reverse.
Qed.

End Listings.

Section ReadEndpoints.
Context `{Interp} (E : env).
Context (int_of_str : pystr → option Z).
Context (single_batch : ∀ A : Type, Z → list A → result (list A)).
Context (plain_created_at log_created_at : nat → Z).
Context (sort_desc : ∀ A : Type, list (Z * A) → list (Z * A)).

#[local] Abbreviation list_patients :=
  (Reads.list_patients E int_of_str single_batch plain_created_at sort_desc).
#[local] Abbreviation get_logs :=
  (Reads.get_logs E int_of_str single_batch log_created_at sort_desc).
#[local] Abbreviation int_arg := (Reads.int_arg int_of_str).
#[local] Abbreviation find_sorted := (Reads.find_sorted sort_desc).

(** What the query with its sort returns is a listing. *)
Lemma find_sorted_listing {A} created_at (query : A → bool) col :
  sorts_descending sort_desc →
  listing created_at query col (find_sorted created_at query col).
Proof.
  intros Hsort. unfold Reads.find_sorted.
  destruct (Hsort A (List.filter (λ d : Z * A, query d.2)
                       (Reads.stamped created_at col))) as [Hperm Hdesc].
  by eexists.
Qed.

Lemma listing_length {A} created_at (col docs : list A) :
  listing created_at (λ _, true) col docs → length docs = length col.
Proof.
  intros Hdocs%listing_Permutation. rewrite Hdocs.
  clear. induction col as [|x col IH]; [done|]. simpl. by rewrite IH.
Qed.

Lemma list_patients_run a w p pp :
  int_arg a "page" 1 = Ok p → int_arg a "per_page" 10 = Ok pp →
  1 ≤ p → 1 ≤ pp → (p - 1) * Z.min pp 100 < 2 ^ 63 →
  store_up E →
  let n := Z.min pp 100 in
  let docs := find_sorted plain_created_at (λ _, true) (patients_plain w) in
  list_patients a w
  = (Ok (Reads.Payload 200
           {| Reads.page_patients :=
                Reads.view <$> take (Z.to_nat n) (drop (Z.to_nat ((p - 1) * n)) docs);
              Reads.page_pagination :=
                {| Reads.page := p; Reads.per_page := n;
                   Reads.total := Z.of_nat (length (patients_plain w));
                   Reads.total_pages :=
                     (Z.of_nat (length (patients_plain w)) + n - 1) / n |} |}),
     tick (tick w)).
Proof.
  intros Hp Hpp Hp1 Hpp1 Hbound Hup. cbv zeta.
  unfold Reads.list_patients, try_stage, bind, lift, ret, Reads.skip_limit,
    Reads.store_read, Reads.floordiv.
  rewrite Hp, Hpp. rewrite !Hup.
  assert (0 ≤ (p - 1) * Z.min pp 100) as Hnn by nia.
  rewrite (proj2 (Z.ltb_ge _ _)) by lia.
  rewrite (proj2 (Z.leb_gt _ _)) by lia.
  unfold bind, Reads.store_read. rewrite Hup.
  rewrite (proj2 (Z.eqb_neq (Z.min pp 100) 0)) by lia.
  rewrite (proj2 (Z.ltb_lt 0 (Z.min pp 100))) by lia.
  unfold ret. reflexivity.
Qed.

Lemma skip_limit_frame {A} skip limit (docs : world → list A) w :
  let out := Reads.skip_limit E single_batch skip limit docs w in
  patients out.2 = patients w ∧ patients_plain out.2 = patients_plain w
  ∧ security_logs out.2 = security_logs w.
Proof.
  cbv zeta. unfold Reads.skip_limit, bind, lift, ret, Reads.store_read.
  repeat (case_match; simplify_eq/=); auto.
Qed.

(** X10. A page of [GET /api/patients]: with [page] and [per_page] at least 1,
    a store that answers and a server whose sort returns the documents it is
    given in descending order of [created_at], the endpoint returns 200 with
    the summaries number [(page-1)*n+1] to [page*n] of a listing of the
    collection in descending order of [created_at], where [n] is [per_page]
    capped at 100; summaries with the same [created_at] come in the order
    the server gives them, and when the stamps increase with every insert
    the listing is the collection from the last inserted to the first; never
    more than 100 items; [total_pages] is the number of summaries divided by
    [n], rounded up, and a page has items exactly when its number is at most
    [total_pages]. *)
Theorem list_patients_page a w p pp :
  int_arg a "page" 1 = Ok p → int_arg a "per_page" 10 = Ok pp →
  1 ≤ p → 1 ≤ pp → (p - 1) * Z.min pp 100 < 2 ^ 63 →
  store_up E →
  sorts_descending sort_desc →
  let n := Z.min pp 100 in
  ∃ pg docs, (list_patients a w).1 = Ok (Reads.Payload 200 pg)
    ∧ listing plain_created_at (λ _, true) (patients_plain w) docs
    ∧ docs ≡ₚ patients_plain w
    ∧ (stamps_increase plain_created_at (length (patients_plain w)) →
       docs = newest_first (patients_plain w))
    ∧ Reads.page_patients pg
      = Reads.view <$> take (Z.to_nat n) (drop (Z.to_nat ((p - 1) * n)) docs)
    ∧ (length (Reads.page_patients pg) ≤ 100)%nat
    ∧ Reads.per_page (Reads.page_pagination pg) = n
    ∧ Reads.total (Reads.page_pagination pg) = Z.of_nat (length (patients_plain w))
    ∧ (Reads.total (Reads.page_pagination pg)
       ≤ Reads.total_pages (Reads.page_pagination pg) * n
       < Reads.total (Reads.page_pagination pg) + n)
    ∧ (p ≤ Reads.total_pages (Reads.page_pagination pg)
       ↔ Reads.page_patients pg ≠ []).
Proof.
  intros Hp Hpp Hp1 Hpp1 Hbound Hup Hsort. cbv zeta.
  rewrite (list_patients_run a w p pp) by done. cbv zeta.
  pose proof (find_sorted_listing plain_created_at (λ _, true)
                (patients_plain w) Hsort) as Hdocs.
  eexists. eexists. split; [reflexivity|]. split; [exact Hdocs|].
  cbn [Reads.page_patients Reads.page_pagination
    Reads.per_page Reads.total Reads.total_pages].
  set (docs := find_sorted _ _ _) in *.
  set (n := Z.min pp 100). set (L := Z.of_nat (length (patients_plain w))).
  assert (1 ≤ n ≤ 100) as Hn by (subst n; lia).
  assert (0 ≤ L) as HL by (subst L; lia).
  pose proof (Z.div_mod (L + n - 1) n ltac:(lia)) as Hdm.
  pose proof (Z.mod_pos_bound (L + n - 1) n ltac:(lia)) as Hmb.
  split.
  { rewrite (listing_Permutation _ _ _ _ Hdocs). by rewrite filter_all'. }
  split.
  { intros Hinc.
    rewrite (listing_newest_first _ _ _ _ Hinc Hdocs). by rewrite filter_all'. }
  split; [reflexivity|]. split.
  { rewrite length_fmap, length_take. lia. }
  split; [reflexivity|]. split; [reflexivity|]. split; [nia|].
  rewrite <- length_zero_iff_nil, length_fmap, length_take, length_drop.
  rewrite (listing_length _ _ _ Hdocs).
  assert (length (patients_plain w) = Z.to_nat L) as -> by (subst L; lia).
  split.
  - intros Hle. assert ((p - 1) * n < L) by nia. nia.
  - intros Hne. assert ((p - 1) * n < L) by nia. nia.
Qed.

(** X11. The pages of [GET /api/patients] cover the collection: for a fixed
    [per_page] of at least 1, a store that answers, a server whose sort
    returns the documents it is given in descending order of [created_at],
    and summaries of which no two carry the same [created_at], the items of
    the pages 1 to [t], one after the other, where [t] is the [total_pages]
    the endpoint reports, are all the summaries, each exactly once, in
    descending order of [created_at]; when the stamps increase with every
    insert, that is from the last inserted to the first. *)
Theorem list_patients_pages_cover (a : nat → Reads.args) w pp (t : nat) :
  let n := Z.min pp 100 in
  t = Z.to_nat ((Z.of_nat (length (patients_plain w)) + n - 1) / n) →
  (∀ i, (i < t)%nat → int_arg (a i) "page" 1 = Ok (Z.of_nat (S i))) →
  (∀ i, (i < t)%nat → int_arg (a i) "per_page" 10 = Ok pp) →
  1 ≤ pp → Z.of_nat (length (patients_plain w)) < 2 ^ 63 →
  store_up E →
  sorts_descending sort_desc →
  stamps_distinct plain_created_at (length (patients_plain w)) →
  let pages := mjoin ((λ i, items_of (list_patients (a i) w)) <$> seq 0 t) in
  (∀ docs, listing plain_created_at (λ _, true) (patients_plain w) docs →
           pages = Reads.view <$> docs)
  ∧ pages ≡ₚ Reads.view <$> patients_plain w
  ∧ (stamps_increase plain_created_at (length (patients_plain w)) →
     pages = Reads.view <$> newest_first (patients_plain w)).
Proof.
  cbv zeta. intros -> Hp Hpp Hpp1 Hbound Hup Hsort Hdis.
  set (n := Z.min pp 100) in *.
  set (L := Z.of_nat (length (patients_plain w))) in *.
  assert (1 ≤ n ≤ 100) as Hn by (subst n; lia).
  assert (0 ≤ L) as HL by (subst L; lia).
  pose proof (Z.div_mod (L + n - 1) n ltac:(lia)) as Hdm.
  pose proof (Z.mod_pos_bound (L + n - 1) n ltac:(lia)) as Hmb.
  set (t := (L + n - 1) / n) in *.
  assert (0 ≤ t) as Ht by (subst t; apply Z.div_pos; lia).
  pose proof (find_sorted_listing plain_created_at (λ _, true)
                (patients_plain w) Hsort) as Hdocs.
  set (docs := find_sorted _ _ _) in *.
  assert (mjoin ((λ i, items_of (list_patients (a i) w)) <$> seq 0 (Z.to_nat t))
          = Reads.view <$> docs) as Hpages.
  { transitivity (mjoin ((λ i, take (Z.to_nat n) (drop (i * Z.to_nat n)
                    (Reads.view <$> docs))) <$> seq 0 (Z.to_nat t))).
    - f_equal. apply list_fmap_ext. intros j i Hi.
      apply lookup_seq in Hi as [Hij Hlt]. simpl in Hij. subst i.
      unfold items_of.
      rewrite (list_patients_run (a j) w (Z.of_nat (S j)) pp); auto; try lia.
      + cbv zeta. cbn [fst Reads.page_patients]. fold n. fold docs.
        rewrite fmap_take, fmap_drop. do 2 f_equal. lia.
      + fold n. nia.
    - apply pages_cover; [lia|].
      rewrite length_fmap, (listing_length _ _ _ Hdocs). subst L. nia. }
  rewrite Hpages. split; [|split].
  - intros docs' Hdocs'. f_equal.
    by apply (listing_unique plain_created_at (λ _, true) (patients_plain w)).
  - rewrite (listing_Permutation _ _ _ _ Hdocs). by rewrite filter_all'.
  - intros Hinc.
    rewrite (listing_newest_first _ _ _ _ Hinc Hdocs). by rewrite filter_all'.
Qed.

(** X12. A [per_page] of 0 on the two paginated endpoints: [GET /api/patients]
    divides by it and answers 500, whatever the page and the collection;
    [GET /api/logs] passes it to the server as "no limit" and, the server's
    sort returning the documents it is given in descending order of
    [created_at], returns every matching entry at once in that order, beyond
    the cap of 100; when the stamps increase with every insert, that is from
    the last inserted to the first. *)
Theorem per_page_zero a w p :
  int_arg a "page" 1 = Ok p →
  int_arg a "per_page" 10 = Ok 0 →
  int_arg a "per_page" 50 = Ok 0 →
  store_up E →
  sorts_descending sort_desc →
  (list_patients a w).1 = Ok (Reads.Failure 500 (u "Failed to retrieve patients"))
  ∧ ∃ docs,
      (get_logs a w).1 = Ok (Reads.Payload 200 (Reads.view_log <$> docs))
      ∧ listing log_created_at (Reads.event_filter a) (security_logs w) docs
      ∧ docs ≡ₚ List.filter (Reads.event_filter a) (security_logs w)
      ∧ (stamps_increase log_created_at (length (security_logs w)) →
         docs = newest_first
                  (List.filter (Reads.event_filter a) (security_logs w))).
Proof.
  intros Hp Hpp Hpp' Hup Hsort. unfold store_up in Hup.
  pose proof (find_sorted_listing log_created_at (Reads.event_filter a)
                (security_logs w) Hsort) as Hdocs.
  split.
  - unfold Reads.list_patients, try_stage, bind, lift, ret,
      Reads.skip_limit, Reads.store_read, Reads.floordiv.
    rewrite Hp, Hpp. rewrite !Hup.
    change (Z.min 0 100) with 0. rewrite Z.mul_0_r. cbn [Z.ltb Z.leb Z.compare].
    unfold bind, Reads.store_read. simpl. rewrite !Hup. simpl. done.
  - eexists. split; [|split; [exact Hdocs|split]].
    + unfold Reads.get_logs, try_stage, bind, lift, ret,
        Reads.skip_limit, Reads.store_read.
      rewrite Hp, Hpp'.
      change (Z.min 0 100) with 0. rewrite Z.mul_0_r.
      cbn [Z.ltb Z.leb Z.compare].
      unfold bind, Reads.store_read. simpl. rewrite !Hup. simpl. done.
    + exact (listing_Permutation _ _ _ _ Hdocs).
    + intros Hinc. exact (listing_newest_first _ _ _ _ Hinc Hdocs).
Qed.

(** X13. With the database object in place, [GET /api/logs] never reports a
    failure: whatever the query string and the state of the store, it answers
    200 with a list, and it leaves the three collections as they were. *)
Theorem get_logs_always_200 a w :
  ∃ logs, (get_logs a w).1 = Ok (Reads.Payload 200 logs)
    ∧ patients (get_logs a w).2 = patients w
    ∧ patients_plain (get_logs a w).2 = patients_plain w
    ∧ security_logs (get_logs a w).2 = security_logs w.
Proof.
  unfold Reads.get_logs, try_stage, bind, lift, ret.
  destruct (int_arg a "page" 1) as [p|e]; [|by eexists].
  destruct (int_arg a "per_page" 50) as [pp|e]; [|by eexists].
  pose proof (skip_limit_frame (A := log_entry) ((p - 1) * Z.min pp 100)
                (Z.min pp 100)
                (λ w, find_sorted log_created_at (Reads.event_filter a)
                        (security_logs w))
                w) as Hframe.
  destruct (Reads.skip_limit _ _ _ _ _ w) as [[logs|e] w1]; by eexists.
Qed.

(** X14. The entries [GET /api/logs] returns: with [page] and [per_page] at
    least 1, a store that answers and a server whose sort returns the
    documents it is given in descending order of [created_at], at most 100
    entries, which are the entries number [(page-1)*n+1] to [page*n] of a
    listing of the matching entries in descending order of [created_at]
    ([n] is [per_page] capped at 100; entries with the same [created_at],
    such as those of one request written within a millisecond, come in the
    order the server gives them; when the stamps increase with every insert
    the listing runs from the last inserted to the first), and when an
    [event_type] is asked for, only entries of that type. *)
Theorem get_logs_page a w p pp :
  int_arg a "page" 1 = Ok p → int_arg a "per_page" 50 = Ok pp →
  1 ≤ p → 1 ≤ pp → (p - 1) * Z.min pp 100 < 2 ^ 63 →
  store_up E →
  sorts_descending sort_desc →
  let n := Z.min pp 100 in
  ∃ logs docs, (get_logs a w).1 = Ok (Reads.Payload 200 logs)
    ∧ listing log_created_at (Reads.event_filter a) (security_logs w) docs
    ∧ docs ≡ₚ List.filter (Reads.event_filter a) (security_logs w)
    ∧ (stamps_increase log_created_at (length (security_logs w)) →
       docs = newest_first
                (List.filter (Reads.event_filter a) (security_logs w)))
    ∧ logs = Reads.view_log <$>
               take (Z.to_nat n) (drop (Z.to_nat ((p - 1) * n)) docs)
    ∧ (length logs ≤ 100)%nat
    ∧ ∀ t, a !! u "event_type" = Some t → t ≠ [] →
           Forall (λ v, Reads.view_event_type v = t) logs.
Proof.
  intros Hp Hpp Hp1 Hpp1 Hbound Hup Hsort. cbv zeta. unfold store_up in Hup.
  pose proof (find_sorted_listing log_created_at (Reads.event_filter a)
                (security_logs w) Hsort) as Hdocs.
  unfold Reads.get_logs, try_stage, bind, lift, ret, Reads.skip_limit,
    Reads.store_read.
  rewrite Hp, Hpp.
  assert (0 ≤ (p - 1) * Z.min pp 100) as Hnn by nia.
  rewrite (proj2 (Z.ltb_ge _ _)) by lia.
  rewrite (proj2 (Z.leb_gt _ _)) by lia.
  unfold bind, Reads.store_read. rewrite Hup.
  rewrite (proj2 (Z.eqb_neq (Z.min pp 100) 0)) by lia.
  rewrite (proj2 (Z.ltb_lt 0 (Z.min pp 100))) by lia.
  unfold ret. cbn [fst]. eexists. eexists.
  split; [reflexivity|]. split; [exact Hdocs|].
  split; [exact (listing_Permutation _ _ _ _ Hdocs)|].
  split; [intros Hinc; exact (listing_newest_first _ _ _ _ Hinc Hdocs)|].
  split; [reflexivity|].
  split; [rewrite length_fmap, length_take; lia|].
  intros t Ht Hne. apply Forall_fmap, Forall_forall. intros e He.
  pose proof (elem_of_sublist _ _ _ He (sublist_take _ _)) as He1.
  pose proof (elem_of_sublist _ _ _ He1 (sublist_drop _ _)) as He2.
  clear He He1. rename He2 into He.
  rewrite (listing_Permutation _ _ _ _ Hdocs) in He.
  apply list_elem_of_In, List.filter_In in He as [_ He].
  unfold Reads.event_filter in He. rewrite Ht in He.
  rewrite bool_decide_eq_false_2 in He by done.
  apply bool_decide_eq_true in He. exact He.
Qed.

End ReadEndpoints.

Lemma demo_store_up : store_up Demo.demo_env.
Proof. intros k. reflexivity. Qed.

Lemma fixture_sorts_descending : sorts_descending Fixtures.sort_desc.
Proof.
  intros A l. unfold Fixtures.sort_desc.
  assert (Transitive (λ d d' : Z * A, d'.1 ≤ d.1)) by (intros x y z; lia).
  assert (Total (λ d d' : Z * A, d'.1 ≤ d.1)) by (intros x y; lia).
  split; [apply merge_sort_Permutation|by apply StronglySorted_merge_sort].
Qed.

Lemma fixture_stamps_increase n :
  stamps_increase Fixtures.plain_created_at n.
Proof. intros i j Hij _. unfold Fixtures.plain_created_at. lia. Qed.

(** Page 2 of one item after the submissions of Jane and Kamal holds the
    older summary, Jane's. *)
Lemma list_patients_page_witness :
  let a := Fixtures.query [("page", "2"); ("per_page", "1")] in
  ∃ pg,
    (Reads.list_patients Demo.demo_env Fixtures.int_of_str
       Fixtures.single_batch Fixtures.plain_created_at Fixtures.sort_desc
       a Fixtures.two_patients).1 = Ok (Reads.Payload 200 pg)
    ∧ Reads.view_name <$> Reads.page_patients pg = [PStr (u "Jane Perera")]
    ∧ Reads.total (Reads.page_pagination pg) = 2.
Proof.
  cbv zeta.
  destruct (list_patients_page Demo.demo_env Fixtures.int_of_str
              Fixtures.single_batch Fixtures.plain_created_at
              Fixtures.sort_desc
              (Fixtures.query [("page", "2"); ("per_page", "1")])
              Fixtures.two_patients 2 1)
    as (pg & docs & Hpg & _ & _ & Hnew & Hitems & _ & _ & Htotal & _).
  - vm_compute. reflexivity.
  - vm_compute. reflexivity.
  - lia.
  - lia.
  - vm_compute. reflexivity.
  - apply demo_store_up.
  - apply fixture_sorts_descending.
  - exists pg. split; [exact Hpg|].
    rewrite Hitems, (Hnew (fixture_stamps_increase _)), Htotal.
    split; vm_compute; reflexivity.
Defined.

(** The two pages of one item hold Kamal's summary, then Jane's. *)
Lemma list_patients_pages_cover_witness :
  let a := λ i : nat, Fixtures.query [("page", if i is O then "1" else "2");
                                      ("per_page", "1")]%string in
  Reads.view_name <$>
    mjoin ((λ i, items_of (Reads.list_patients Demo.demo_env
                             Fixtures.int_of_str Fixtures.single_batch
                             Fixtures.plain_created_at Fixtures.sort_desc
                             (a i) Fixtures.two_patients)) <$> seq 0 2)
  = [PStr (u "Kamal Silva"); PStr (u "Jane Perera")].
Proof.
  cbv zeta.
  assert (∀ i, (i < 2)%nat →
            Reads.int_arg Fixtures.int_of_str
              (Fixtures.query [("page", if i is O then "1" else "2");
                               ("per_page", "1")]%string) "page" 1
            = Ok (Z.of_nat (S i))) as Hpage
    by (intros [|[|i]] Hi; [vm_compute; reflexivity..|lia]).
  assert (∀ i, (i < 2)%nat →
            Reads.int_arg Fixtures.int_of_str
              (Fixtures.query [("page", if i is O then "1" else "2");
                               ("per_page", "1")]%string) "per_page" 10
            = Ok 1) as Hper
    by (intros [|[|i]] Hi; [vm_compute; reflexivity..|lia]).
  assert (stamps_distinct Fixtures.plain_created_at
            (length (patients_plain Fixtures.two_patients))) as Hdis
    by (intros i j _ _; unfold Fixtures.plain_created_at; lia).
  eapply eq_trans;
    [exact (f_equal (fmap (M := list) Reads.view_name)
              (proj2 (proj2
                 (list_patients_pages_cover Demo.demo_env Fixtures.int_of_str
                    Fixtures.single_batch Fixtures.plain_created_at
                    Fixtures.sort_desc
                    (λ i : nat, Fixtures.query
                       [("page", if i is O then "1" else "2");
                        ("per_page", "1")]%string)
                    Fixtures.two_patients 1 2
                    ltac:(vm_compute; reflexivity) Hpage Hper ltac:(lia)
                    ltac:(vm_compute; reflexivity) demo_store_up
                    fixture_sorts_descending Hdis))
                 (fixture_stamps_increase _)))
    |vm_compute; reflexivity].
Defined.

(** [per_page=0] after the two submissions: 500 from the patients, and all
    eight audit entries from the logs. *)
Lemma per_page_zero_witness :
  let a := Fixtures.query [("per_page", "0")] in
  (Reads.list_patients Demo.demo_env Fixtures.int_of_str Fixtures.single_batch
     Fixtures.plain_created_at Fixtures.sort_desc a Fixtures.two_patients).1
  = Ok (Reads.Failure 500 (u "Failed to retrieve patients"))
  ∧ ∃ logs, (Reads.get_logs Demo.demo_env Fixtures.int_of_str
               Fixtures.single_batch Fixtures.log_created_at
               Fixtures.sort_desc a Fixtures.two_patients).1
            = Ok (Reads.Payload 200 logs)
            ∧ length logs = 8%nat.
Proof.
  cbv zeta.
  destruct (per_page_zero Demo.demo_env Fixtures.int_of_str
              Fixtures.single_batch Fixtures.plain_created_at
              Fixtures.log_created_at Fixtures.sort_desc
              (Fixtures.query [("per_page", "0")])
              Fixtures.two_patients 1)
    as [Hpatients (docs & Hlogs & _ & Hperm & _)].
  - vm_compute. reflexivity.
  - vm_compute. reflexivity.
  - vm_compute. reflexivity.
  - apply demo_store_up.
  - apply fixture_sorts_descending.
  - split; [exact Hpatients|]. eexists. split; [exact Hlogs|].
    rewrite length_fmap, (Permutation_length Hperm).
    vm_compute. reflexivity.
Defined.

(** The newest poisoning verdict of the trail: the entries of one
    submission carry the same stamp, the two verdicts do not. *)
Lemma get_logs_page_witness :
  let a := Fixtures.query [("event_type", "poisoning_check");
                           ("per_page", "1")] in
  ∃ logs, (Reads.get_logs Demo.demo_env Fixtures.int_of_str
             Fixtures.single_batch Fixtures.log_created_at
             Fixtures.sort_desc a Fixtures.two_patients).1
          = Ok (Reads.Payload 200 logs)
          ∧ Reads.view_event_type <$> logs = [u "poisoning_check"].
Proof.
  cbv zeta.
  destruct (get_logs_page Demo.demo_env Fixtures.int_of_str
              Fixtures.single_batch Fixtures.log_created_at
              Fixtures.sort_desc
              (Fixtures.query [("event_type", "poisoning_check");
                               ("per_page", "1")])
              Fixtures.two_patients 1 1)
    as (logs & docs & Hlogs & _ & Hperm & _ & Heq & _ & Htype).
  - vm_compute. reflexivity.
  - vm_compute. reflexivity.
  - lia.
  - lia.
  - vm_compute. reflexivity.
  - apply demo_store_up.
  - apply fixture_sorts_descending.
  - exists logs. split; [exact Hlogs|].
    apply Permutation_length in Hperm.
    assert (length (List.filter
                      (Reads.event_filter
                         (Fixtures.query [("event_type", "poisoning_check");
                                          ("per_page", "1")]))
                      (security_logs Fixtures.two_patients)) = 2%nat) as Hlen
      by (vm_compute; reflexivity).
    rewrite Hlen in Hperm. clear Hlen.
    specialize (Htype (u "poisoning_check") ltac:(vm_compute; reflexivity)
                  ltac:(discriminate)).
    destruct docs as [|d [|d' docs]]; try discriminate Hperm.
    assert (logs = [Reads.view_log d]) as -> by (rewrite Heq; reflexivity).
    apply Forall_cons_1 in Htype as [Htype _].
    cbn [fmap list_fmap]. by rewrite Htype.
Defined.

(** ** Reading back what the intake endpoint wrote *)

Section ReadAfterWrite.
Context `{Interp} (E : env).

Lemma find_one_app h l s :
  Reads.find_one h (l ++ [s])
  = match Reads.find_one h l with
    | Some x => Some x
    | None => if bool_decide (plain_NIC_Hashed s = Some h) then Some s else None
    end.
Proof.
  unfold Reads.find_one. induction l as [|x l IH]; simpl; [done|].
  by destruct (bool_decide (plain_NIC_Hashed x = Some h)).
Qed.

Lemma find_one_none h l :
  Reads.find_one h l = None ↔ count_plain (Some h) l = 0%nat.
Proof.
  unfold Reads.find_one, count_plain. induction l as [|x l IH]; simpl; [done|].
  rewrite filter_cons. case_bool_decide as Hx.
  - rewrite decide_True by done. simpl. split; [done|lia].
  - rewrite decide_False by done. exact IH.
Qed.

Lemma get_patient_run h w :
  store_fault E (clock w) = None →
  Reads.get_patient E h w
  = (Ok match Reads.find_one h (patients_plain w) with
        | Some p => Reads.Payload 200 (Reads.view p)
        | None => Reads.Failure 404 (u "Patient not found")
        end, tick w).
Proof.
  intros Hup. unfold Reads.get_patient, try_stage, bind, Reads.store_read, ret.
  rewrite Hup. by destruct (Reads.find_one _ _).
Qed.

(** With a store that answers, a run answering 201 appends the summary of the
    submission. *)
Lemma created_summary_appended data w r :
  store_up E →
  (create_patient E (Some data) w).1 = Ok r → status r = 201 →
  ∃ pred h,
    r = resp_saved pred
    ∧ hash_text (get data "NIC" PNone) = Ok h
    ∧ patients_plain (create_patient E (Some data) w).2
      = patients_plain w ++
        [summary_of (record_of data pred)
           (if py_truthy (get data "NIC" PNone) then Some h else None) pred].
Proof.
  intros Hup Hr Hs.
  destruct (create_patient_saved E data w) as (pred & w0 & Hp & Hq & Heq & Hok).
  { eauto. }
  rewrite Hok in Hr. injection Hr as <-. rewrite Heq in *. clear Heq.
  exists pred.
  destruct (persist_effect E data pred w0)
    as [(Hf & _)|(_ & [h Hh] & _ & _)]; [by rewrite Hf in Hok|].
  exists h. split; [done|]. split; [exact Hh|].
  rewrite persist_run, update_patient_record_run in *.
  destruct (load_context E) as [ctx|e]; [|discriminate].
  cbn [NIC record_of] in Hh |- *. rewrite Hh in *. cbv zeta in *.
  assert (∀ w1, patients_plain w1 = patients_plain w →
    patients_plain (plaintext_summary E (record_of data pred) pred w1).2
    = patients_plain w ++
      [summary_of (record_of data pred)
         (if py_truthy (get data "NIC" PNone) then Some h else None) pred])
    as Hsum.
  { intros w1 Hw1. rewrite plaintext_summary_run.
    rewrite (summary_key_of_hash data pred h Hh), Hup. simpl. by rewrite Hw1. }
  destruct (encrypt_vector ctx (S (clock _)) _) as [c_name|];
    [destruct (encrypt_vector ctx (S (S (clock _))) _) as [c_address|];
       [destruct (encrypt_vector ctx (clock _) _) as [c_nic|]|]|].
  1: rewrite Hup in *.
  all: cbn [fst snd] in *; apply Hsum; exact Hq.
Qed.

(** X15. Read after write: once a submission with a truthy NIC is answered 201
    and the store answers, [GET /api/patients/<digest of the NIC>] answers
    200, never 404. When no summary was stored under that digest before, it
    returns the submitted name and the prediction text of the 201 answer;
    when one was, it still returns what it returned before the submission
    (the first summary under the digest), not the new one. *)
Theorem created_patient_is_found data w r :
  let out := create_patient E (Some data) w in
  store_up E →
  out.1 = Ok r → status r = 201 →
  py_truthy (get data "NIC" PNone) = true →
  ∃ h v,
    hash_text (get data "NIC" PNone) = Ok h
    ∧ (Reads.get_patient E h out.2).1 = Ok (Reads.Payload 200 v)
    ∧ Reads.view_NIC_Hashed v = Some h
    ∧ (count_plain (Some h) (patients_plain w) = 0%nat →
       Reads.view_name v = get data "Name" PNone
       ∧ body r !! u "prediction" = Some (PStr (Reads.view_prediction v)))
    ∧ (count_plain (Some h) (patients_plain w) ≠ 0%nat →
       (Reads.get_patient E h out.2).1 = (Reads.get_patient E h w).1).
Proof.
  cbv zeta. intros Hup Hr Hs Htruthy.
  destruct (created_summary_appended data w r Hup Hr Hs)
    as (pred & h & -> & Hh & Hplain).
  rewrite Htruthy in Hplain. exists h.
  rewrite !get_patient_run by apply Hup. rewrite Hplain, find_one_app.
  cbn [fst plain_NIC_Hashed summary_of]. rewrite bool_decide_eq_true_2 by done.
  destruct (Reads.find_one h (patients_plain w)) as [old|] eqn:Hold.
  - exists (Reads.view old). split; [done|]. split; [done|]. split.
    + unfold Reads.find_one in Hold. apply List.find_some in Hold as [_ Hk].
      by apply bool_decide_eq_true in Hk.
    + split; [|done]. intros Hz. apply find_one_none in Hz. congruence.
  - eexists. split; [done|]. split; [reflexivity|]. split; [reflexivity|].
    split; [|intros Hnz; by apply find_one_none in Hold].
    intros _. split; [reflexivity|].
    unfold resp_saved, respond, dict_of, Reads.view.
    cbn [body fmap list_fmap prod_map list_to_map foldr fst snd
         Reads.view_prediction plain_diabetes summary_of id].
    rewrite lookup_insert_ne by (vm_compute; discriminate).
    rewrite lookup_insert_ne by (vm_compute; discriminate).
    apply lookup_insert_eq.
Qed.

Lemma get_patient_stats_run w :
  store_up E →
  Reads.get_patient_stats E w
  = (Ok (Reads.Payload 200
           {| Reads.total_patients := length (patients_plain w);
              Reads.diabetic_patients := Reads.count_diabetes 1 (patients_plain w);
              Reads.non_diabetic_patients :=
                Reads.count_diabetes 0 (patients_plain w) |}),
     tick (tick (tick (tick w)))).
Proof.
  intros Hup. unfold store_up in Hup.
  unfold Reads.get_patient_stats, try_stage, bind, Reads.store_read, ret.
  rewrite Hup. cbn [tick clock patients_plain]. by rewrite !Hup.
Qed.

Lemma count_diabetes_app label l s :
  Reads.count_diabetes label (l ++ [s])
  = (Reads.count_diabetes label l
     + if decide (plain_diabetes s = label) then 1 else 0)%nat.
Proof.
  unfold Reads.count_diabetes. rewrite filter_app, length_app, filter_cons.
  by destruct (decide _).
Qed.

(** X16. The statistics count submissions: with a store that answers,
    [GET /api/patients/stats] after a run answering 201 reports one patient
    more than before, one diabetic patient more exactly when the answer says
    Diabetic and one non-diabetic patient more exactly when the label is 0;
    after a run answering anything else it reports the same numbers. As
    every accepted submission counts, a NIC submitted twice counts twice. *)
Theorem stats_count_submissions request w r :
  let out := create_patient E request w in
  store_up E →
  out.1 = Ok r →
  ∃ before after,
    (Reads.get_patient_stats E w).1 = Ok (Reads.Payload 200 before)
    ∧ (Reads.get_patient_stats E out.2).1 = Ok (Reads.Payload 200 after)
    ∧ (status r ≠ 201 → after = before)
    ∧ (status r = 201 →
       ∃ pred, r = resp_saved pred
         ∧ Reads.total_patients after = S (Reads.total_patients before)
         ∧ Reads.diabetic_patients after
           = (Reads.diabetic_patients before
              + if decide (pred = 1%Z) then 1%nat else 0%nat)%nat
         ∧ Reads.non_diabetic_patients after
           = (Reads.non_diabetic_patients before
              + if decide (pred = 0%Z) then 1%nat else 0%nat)%nat
         ∧ (pred = 1 ↔
            body r !! u "prediction" = Some (PStr (u "Diabetic")))).
Proof.
  cbv zeta. intros Hup Hr. rewrite !get_patient_stats_run by done.
  eexists _, _. split; [reflexivity|]. split; [reflexivity|]. split.
  - intros Hs.
    destruct (create_patient_unchanged E request w r Hr Hs) as [_ ->].
    reflexivity.
  - intros Hs.
    destruct (create_patient_accepted E request w r Hr Hs)
      as (data & _ & _ & _ & -> & _).
    destruct (created_summary_appended data w r Hup Hr Hs)
      as (pred & h & -> & Hh & ->).
    exists pred. split; [done|].
    cbn [Reads.total_patients Reads.diabetic_patients
         Reads.non_diabetic_patients].
    rewrite length_app, !count_diabetes_app. cbn [plain_diabetes summary_of].
    split; [simpl; lia|]. split; [done|]. split; [done|].
    unfold resp_saved, respond, dict_of.
    cbn [body fmap list_fmap prod_map list_to_map foldr fst snd id].
    rewrite lookup_insert_ne by (vm_compute; discriminate).
    rewrite lookup_insert_ne by (vm_compute; discriminate).
    rewrite lookup_insert_eq.
    destruct (pred =? 1) eqn:Hp.
    + apply Z.eqb_eq in Hp. done.
    + apply Z.eqb_neq in Hp. split; [done|]. by intros [= Hd].
Qed.

End ReadAfterWrite.

(** Jane is found under the digest of her NIC right after her submission. *)
Lemma created_patient_is_found_witness :
  let jane := Fixtures.numeric_request "199012345V" "Jane Perera" in
  let h := u "9c8513b324846bc589ba743818c8c7d15c0e4be1eb00faaec4db213105215c06" in
  let out := create_patient Demo.demo_env (Some jane) Demo.empty_world in
  ∃ v, (Reads.get_patient Demo.demo_env h out.2).1 = Ok (Reads.Payload 200 v)
       ∧ Reads.view_name v = PStr (u "Jane Perera")
       ∧ Reads.view_prediction v = u "Diabetic".
Proof.
  cbv zeta.
  destruct (created_patient_is_found Demo.demo_env
              (Fixtures.numeric_request "199012345V" "Jane Perera")
              Demo.empty_world (resp_saved 1))
    as (h & v & Hh & Hv & _ & Hnew & _).
  - apply demo_store_up.
  - vm_compute. reflexivity.
  - reflexivity.
  - vm_compute. reflexivity.
  - vm_compute in Hh. injection Hh as <-.
    destruct Hnew as [Hname Hpred]; [vm_compute; reflexivity|].
    exists v. split; [exact Hv|]. split; [exact Hname|].
    assert (body (resp_saved 1) !! u "prediction"
            = Some (PStr (u "Diabetic"))) as Hbody by (vm_compute; reflexivity).
    rewrite Hbody in Hpred. injection Hpred as Hpred. symmetry. exact Hpred.
Defined.

(** One accepted submission on empty collections: one patient, diabetic. *)
Lemma stats_count_submissions_witness :
  let jane := Fixtures.numeric_request "199012345V" "Jane Perera" in
  let out := create_patient Demo.demo_env (Some jane) Demo.empty_world in
  ∃ after,
    (Reads.get_patient_stats Demo.demo_env out.2).1
    = Ok (Reads.Payload 200 after)
    ∧ Reads.total_patients after = 1%nat
    ∧ Reads.diabetic_patients after = 1%nat
    ∧ Reads.non_diabetic_patients after = 0%nat.
Proof.
  cbv zeta.
  destruct (stats_count_submissions Demo.demo_env
              (Some (Fixtures.numeric_request "199012345V" "Jane Perera"))
              Demo.empty_world (resp_saved 1))
    as (before & after & Hbefore & Hafter & _ & Hcreated).
  - apply demo_store_up.
  - vm_compute. reflexivity.
  - destruct (Hcreated eq_refl) as (pred & _ & Htotal & Hd & Hn & Hiff).
    assert (pred = 1) as -> by (apply Hiff; vm_compute; reflexivity).
    vm_compute in Hbefore. injection Hbefore as <-.
    exists after. split; [exact Hafter|]. rewrite Htotal, Hd, Hn.
    repeat split; reflexivity.
Defined.

(** ** Reading back a resubmitted NIC *)

(** C4. The same NIC submitted twice: 199012345V as Jane Perera at age 45
    and then as Jane Silva at age 46, both answered 201. The encrypted record
    is upserted by the digest of the NIC: one document, holding age 46. The
    summary is written with [insert_one], not upserted: two summaries carry
    the digest; the lookup by digest, [GET /api/patients/<nic_hash>], answers
    with the first of them, which holds the name of the first submission,
    and [GET /api/patients/stats] counts two patients. *)
Theorem resubmission_leaves_stale_summary :
  let d1 := Fixtures.numeric_request "199012345V" "Jane Perera" in
  let d2 := <[u "Name" := PStr (u "Jane Silva")]> (<[u "age" := PInt 46]> d1) in
  let h := u "9c8513b324846bc589ba743818c8c7d15c0e4be1eb00faaec4db213105215c06" in
  let out1 := create_patient Demo.demo_env (Some d1) Demo.empty_world in
  let out2 := create_patient Demo.demo_env (Some d2) out1.2 in
  hash_text (get d1 "NIC" PNone) = Ok h
  ∧ hash_text (get d2 "NIC" PNone) = Ok h
  ∧ out1.1 = Ok (resp_saved 1)
  ∧ out2.1 = Ok (resp_saved 1)
  ∧ count_documents h (patients out2.2) = 1%nat
  ∧ (age ∘ doc_medical) <$> patients out2.2 = [PInt 46]
  ∧ count_plain (Some h) (patients_plain out2.2) = 2%nat
  ∧ name <$> patients_plain out2.2
    = [PStr (u "Jane Perera"); PStr (u "Jane Silva")]
  ∧ (∃ v, (Reads.get_patient Demo.demo_env h out2.2).1
          = Ok (Reads.Payload 200 v)
          ∧ Reads.view_name v = PStr (u "Jane Perera"))
  ∧ ∃ stats, (Reads.get_patient_stats Demo.demo_env out2.2).1
             = Ok (Reads.Payload 200 stats)
             ∧ Reads.total_patients stats = 2%nat.
Proof.
  cbv zeta. do 8 (split; [vm_compute; reflexivity|]).
  split; eexists; (split; [vm_compute; reflexivity|]);
    vm_compute; reflexivity.
Qed.

(** ** The hospital collections: upload, lookup and linkage demonstration *)

Section UploadRuns.
Context `{Interp} (int_of_str : pystr → option Z) (F : Upload.files).

#[local] Abbreviation document_of_row := (Upload.document_of_row int_of_str).
#[local] Abbreviation insert_rows := (Upload.insert_rows int_of_str F).
#[local] Abbreviation upload_hospital := (Upload.upload_hospital int_of_str F).
#[local] Abbreviation upload_encrypted_data :=
  (Upload.upload_encrypted_data int_of_str F).

Lemma rbind_ok {A B} (r : result A) (k : A → result B) b :
  rbind r k = Ok b → ∃ a, r = Ok a ∧ k a = Ok b.
Proof. destruct r as [a|e]; [eauto|discriminate]. Qed.

Lemma document_of_row_stored ctx n r doc :
  document_of_row ctx n r = Ok doc → stored_for r doc.
Proof.
  unfold Upload.document_of_row, mbind, Upload.result_bind, Upload.getitem.
  intros Hdoc.
  repeat (apply rbind_ok in Hdoc as (? & ? & Hdoc)).
  injection Hdoc as <-.
  destruct (r !! u "NIC") as [nic|] eqn:Hnic; [|discriminate].
  simplify_eq. exists x0. split; [|split].
  - unfold digest_of_row. rewrite Hnic. by rewrite H1.
  - reflexivity.
  - unfold Upload.document. rewrite !dom_insert_L, dom_empty_L. reflexivity.
Qed.

Lemma collection_set h col s :
  Upload.collection h (Upload.set_collection h col s) = col.
Proof. by destruct h. Qed.

Lemma collection_set_other h col s :
  Upload.collection (other h) (Upload.set_collection h col s)
  = Upload.collection (other h) s.
Proof. by destruct h. Qed.

Lemma collection_advance h n s :
  Upload.collection h (Upload.advance n s) = Upload.collection h s.
Proof. by destruct h. Qed.

(** The loop stores the documents of the rows it got through, after those the
    collection held, and leaves the other collection alone. *)
Lemma insert_rows_run ctx h rows s :
  let out := insert_rows ctx h rows s in
  ∃ k docs,
    (k ≤ length rows)%nat
    ∧ Upload.collection h out.2 = Upload.collection h s ++ docs
    ∧ Upload.collection (other h) out.2 = Upload.collection (other h) s
    ∧ Forall2 stored_for (take k rows) docs
    ∧ (out.1 = Ok () → k = length rows).
Proof.
  cbv zeta. revert s. induction rows as [|r rows IH]; intros s.
  - exists 0%nat, []. rewrite app_nil_r. repeat split; auto.
  - cbn [Upload.insert_rows].
    destruct (document_of_row ctx (Upload.calls s) r) as [doc|e] eqn:Hdoc.
    2: { exists 0%nat, []. rewrite app_nil_r. simpl.
         repeat split; auto; try lia; try constructor; discriminate. }
    unfold Upload.driver_call.
    destruct (Upload.driver_fault F _) as [e|].
    { exists 0%nat, []. rewrite app_nil_r. cbn [fst snd].
      rewrite !collection_advance. simpl.
      repeat split; auto; try lia; try constructor; discriminate. }
    match goal with |- context [Upload.insert_rows _ _ _ _ _ ?s1] =>
      destruct (IH s1) as (k & docs & Hk & Hcol & Hother & Hst & Hok) end.
    exists (S k), (doc :: docs).
    rewrite Hcol, Hother, !collection_advance, collection_set,
      collection_set_other, !collection_advance.
    split; [simpl; lia|]. split; [by rewrite <- app_assoc|]. split; [done|].
    split; [|intros Hr; simpl; f_equal; auto].
    cbn [take]. constructor; [|done].
    by apply (document_of_row_stored ctx (Upload.calls s)).
Qed.

(** One hospital: unless the delete itself fails, the collection ends up
    holding the documents of the first rows of the file, and nothing of what
    it held. *)
Lemma upload_hospital_run ctx h s :
  let out := upload_hospital ctx h s in
  Upload.collection (other h) out.2 = Upload.collection (other h) s
  ∧ ((∃ e, Upload.driver_fault F (Upload.calls s) = Some e ∧ out.1 = Raise e
           ∧ Upload.collection h out.2 = Upload.collection h s)
     ∨ (Upload.driver_fault F (Upload.calls s) = None
        ∧ ∃ k rows,
            (k ≤ length rows)%nat
            ∧ Forall2 stored_for (take k rows) (Upload.collection h out.2)
            ∧ match Upload.hospital_csv F h with
              | Ok rows' => rows = rows'
              | Raise e => rows = [] ∧ out.1 = Raise e
              end
            ∧ (out.1 = Ok () → k = length rows))).
Proof.
  cbv zeta. unfold Upload.upload_hospital, Upload.driver_call.
  destruct (Upload.driver_fault F (Upload.calls s)) as [e|] eqn:Hf.
  { cbn [fst snd]. rewrite !collection_advance. split; [done|]. left. eauto. }
  destruct (Upload.hospital_csv F h) as [rows|e] eqn:Hcsv.
  - match goal with |- context [Upload.insert_rows _ _ _ _ rows ?s1] =>
      destruct (insert_rows_run ctx h rows s1)
        as (k & docs & Hk & Hcol & Hother & Hst & Hok) end.
    rewrite Hother, Hcol, !collection_advance, collection_set,
      collection_set_other. split; [done|]. right. split; [done|].
    exists k, rows. auto.
  - cbn [fst snd]. rewrite !collection_advance, collection_set,
      collection_set_other. split; [done|]. right. split; [done|].
    exists 0%nat, []. repeat split; auto; constructor.
Qed.

Lemma hashes_of_stored rows docs :
  Forall2 stored_for rows docs →
  Upload.hashes_of docs = Ok (list_to_set (omap digest_of_row rows)).
Proof.
  induction 1 as [|r d rows docs (h & Hh & Hd & _) _ IH]; [reflexivity|].
  cbn [Upload.hashes_of omap list_omap]. unfold Upload.document in *.
  rewrite Hd, IH, Hh. reflexivity.
Qed.

Lemma upload_success s n s' :
  upload_encrypted_data s = (Ok n, s') →
  ∃ rows_a rows_b,
    Upload.hospital_csv F Upload.A = Ok rows_a
    ∧ Upload.hospital_csv F Upload.B = Ok rows_b
    ∧ Forall2 stored_for rows_a (Upload.hospital_a_patients s')
    ∧ Forall2 stored_for rows_b (Upload.hospital_b_patients s')
    ∧ n = size (PSI.common_hashed_nics (omap digest_of_row rows_a)
                  (omap digest_of_row rows_b)).
Proof.
  unfold Upload.upload_encrypted_data.
  destruct (Upload.public_key F) as [ctx|e]; [|discriminate].
  pose proof (upload_hospital_run ctx Upload.A s) as [HBa Ha].
  destruct (upload_hospital ctx Upload.A s) as [[[]|e] s1]; [|discriminate].
  pose proof (upload_hospital_run ctx Upload.B s1) as [HAb Hb].
  destruct (upload_hospital ctx Upload.B s1) as [[[]|e] s2]; [|discriminate].
  cbn [fst snd other Upload.collection] in *.
  destruct Ha as [(e & _ & ? & _)|(_ & ka & rows_a & _ & Hsa & Hca & Hka)];
    [discriminate|].
  destruct Hb as [(e & _ & ? & _)|(_ & kb & rows_b & _ & Hsb & Hcb & Hkb)];
    [discriminate|].
  rewrite (Hka eq_refl), firstn_all in Hsa.
  rewrite (Hkb eq_refl), firstn_all in Hsb.
  destruct (Upload.hospital_csv F Upload.A) as [rows_a'|e];
    [subst rows_a'|by destruct Hca].
  destruct (Upload.hospital_csv F Upload.B) as [rows_b'|e];
    [subst rows_b'|by destruct Hcb].
  rewrite <- HAb in Hsa.
  unfold Upload.find_hashes.
  destruct (Upload.driver_fault F (Upload.calls s2)); [discriminate|].
  cbn [Upload.collection Upload.advance Upload.calls
       Upload.hospital_a_patients Upload.hospital_b_patients].
  rewrite (hashes_of_stored _ _ Hsa).
  destruct (Upload.driver_fault F _); [discriminate|].
  rewrite (hashes_of_stored _ _ Hsb).
  intros [= <- <-]. exists rows_a, rows_b. auto.
Qed.

(** X17. A successful upload replaces the two hospital collections: whatever
    they held before, they end up with exactly one document per row of the
    respective CSV file, in row order, each keyed by the SHA-256 digest of
    the NIC of its row and holding the twelve fields of the script and no
    other, so that no document has a [NIC], [Name] or [Address] field; the
    number the verification prints is the number of digests the two files
    share. *)
Theorem upload_replaces_collections s n s' :
  upload_encrypted_data s = (Ok n, s') →
  ∃ rows_a rows_b,
    Upload.hospital_csv F Upload.A = Ok rows_a
    ∧ Upload.hospital_csv F Upload.B = Ok rows_b
    ∧ Forall2 stored_for rows_a (Upload.hospital_a_patients s')
    ∧ Forall2 stored_for rows_b (Upload.hospital_b_patients s')
    ∧ length (Upload.hospital_a_patients s') = length rows_a
    ∧ length (Upload.hospital_b_patients s') = length rows_b
    ∧ (∀ d, d ∈ Upload.hospital_a_patients s' ++ Upload.hospital_b_patients s' →
            d !! u "NIC" = None ∧ d !! u "Name" = None
            ∧ d !! u "Address" = None)
    ∧ n = size (PSI.common_hashed_nics (omap digest_of_row rows_a)
                  (omap digest_of_row rows_b)).
Proof.
  intros Hrun.
  destruct (upload_success s n s' Hrun)
    as (rows_a & rows_b & Ha & Hb & Hsa & Hsb & Hn).
  exists rows_a, rows_b. do 4 (split; [done|]).
  split; [symmetry; by eapply Forall2_length|].
  split; [symmetry; by eapply Forall2_length|]. split; [|done].
  assert (∀ rows docs d, Forall2 stored_for rows docs → d ∈ docs →
            d !! u "NIC" = None ∧ d !! u "Name" = None
            ∧ d !! u "Address" = None) as Hkeys.
  { intros rows docs d Hst Hd.
    apply list_elem_of_lookup in Hd as [i Hi].
    destruct (Forall2_lookup_r _ _ _ _ _ Hst Hi) as (r & _ & h & _ & _ & Hdom).
    unfold Upload.document in *.
    repeat split; apply not_elem_of_dom; rewrite Hdom;
      apply not_elem_of_list_to_set; intros Hin;
      apply list_elem_of_In in Hin; vm_compute in Hin;
      repeat (destruct Hin as [Hin|Hin]; [discriminate|]); done. }
  intros d Hd. apply elem_of_app in Hd as [Hd|Hd]; eauto.
Qed.

Lemma find_hashes_collections h s :
  Upload.hospital_a_patients (Upload.find_hashes F h s).2
  = Upload.hospital_a_patients s.
Proof.
  unfold Upload.find_hashes. by destruct (Upload.driver_fault F _).
Qed.

(** X18. The upload is not atomic: when it fails after its first call to the
    driver, the deletion of hospital A's documents, went through, hospital A
    is left with the documents of the first [k] rows of its file only ([k]
    may be 0, and is 0 when the file cannot be read): what the collection
    held before is gone. *)
Theorem failed_upload_keeps_a_prefix s e s' ctx :
  Upload.public_key F = Ok ctx →
  Upload.driver_fault F (Upload.calls s) = None →
  upload_encrypted_data s = (Raise e, s') →
  ∃ k rows,
    (k ≤ length rows)%nat
    ∧ Forall2 stored_for (take k rows) (Upload.hospital_a_patients s')
    ∧ length (Upload.hospital_a_patients s') = k
    ∧ match Upload.hospital_csv F Upload.A with
      | Ok rows' => rows = rows'
      | Raise _ => rows = []
      end.
Proof.
  intros Hctx Hf. unfold Upload.upload_encrypted_data. rewrite Hctx.
  pose proof (upload_hospital_run ctx Upload.A s) as [_ Ha].
  destruct Ha as [(e' & He' & _)|(_ & k & rows & Hk & Hst & Hcsv & _)];
    [congruence|].
  assert (∃ k rows, (k ≤ length rows)%nat
    ∧ Forall2 stored_for (take k rows)
        (Upload.hospital_a_patients (upload_hospital ctx Upload.A s).2)
    ∧ length (Upload.hospital_a_patients (upload_hospital ctx Upload.A s).2) = k
    ∧ match Upload.hospital_csv F Upload.A with
      | Ok rows' => rows = rows'
      | Raise _ => rows = []
      end) as Hafter.
  { exists k, rows. split; [done|]. split; [done|]. split.
    - apply Forall2_length in Hst. rewrite length_take in Hst.
      cbn [Upload.collection] in Hst.
      etrans; [symmetry; exact Hst|lia].
    - destruct (Upload.hospital_csv F Upload.A); [done|by destruct Hcsv]. }
  clear Hst Hcsv Hk k rows.
  destruct (upload_hospital ctx Upload.A s) as [[[]|e1] s1]; cbn [snd] in *;
    [|by intros [= <- <-]].
  pose proof (upload_hospital_run ctx Upload.B s1) as [HAb _].
  cbn [other Upload.collection] in HAb.
  destruct (upload_hospital ctx Upload.B s1) as [[[]|e2] s2]; cbn [snd] in *;
    [|intros [= <- <-]; by rewrite HAb].
  pose proof (find_hashes_collections Upload.A s2) as H3.
  destruct (Upload.find_hashes F Upload.A s2) as [[ha|e3] s3]; cbn [snd] in *;
    [|intros [= <- <-]; by rewrite H3, HAb].
  pose proof (find_hashes_collections Upload.B s3) as H4.
  destruct (Upload.find_hashes F Upload.B s3) as [[hb|e4] s4]; cbn [snd] in *;
    [discriminate|].
  intros [= <- <-]. by rewrite H4, H3, HAb.
Qed.

End UploadRuns.

Section Copies.
Context `{Interp} (int_of_str : pystr → option Z).


End Copies.

Section Unreadable.
Context `{Interp} (int_of_str : pystr → option Z).
Context (single_batch : ∀ A : Type, Z → list A → result (list A)).
Context (F : Upload.files) (fault : nat → option pystr) (I : Mpc.inference).

#[local] Abbreviation mpc_predict := (Mpc.mpc_predict fault I).
#[local] Abbreviation get_hospital_data :=
  (Mpc.get_hospital_data int_of_str single_batch fault).

Lemma find_by_nic_none nic col :
  (∀ d, d ∈ col → d !! u "NIC" = None) → Mpc.find_by_nic nic col = None.
Proof.
  unfold Mpc.find_by_nic. induction col as [|d col IH]; intros Hcol; [done|].
  cbn [List.find]. unfold Upload.document in *.
  rewrite (Hcol d) by apply list_elem_of_here.
  apply IH. intros d' Hd'. by apply Hcol, list_elem_of_further.
Qed.

Lemma mpc_predict_not_found nic s :
  (∀ d, d ∈ Upload.hospital_a_patients s ++ Upload.hospital_b_patients s →
        d !! u "NIC" = None) →
  let out := mpc_predict nic s in
  Reads.code_of out.1 ≠ 200
  ∧ (fault (Upload.calls s) = None → fault (S (Upload.calls s)) = None →
     out.1 = Reads.Failure 404 (u "Patient " ++ nic ++ u " not found")).
Proof.
  intros Hcol. cbv zeta. unfold Mpc.mpc_predict, Mpc.read.
  rewrite !find_by_nic_none
    by (intros d Hd; apply Hcol, elem_of_app; auto).
  destruct (fault (Upload.calls s)); [by split|].
  cbn [Upload.advance Upload.calls Upload.hospital_b_patients].
  rewrite !find_by_nic_none
    by (intros d Hd; apply Hcol, elem_of_app; auto).
  destruct (fault _); by split.
Qed.

Lemma stored_for_no_nic rows docs d :
  Forall2 stored_for rows docs → d ∈ docs → d !! u "NIC" = None.
Proof.
  intros Hst Hd. apply list_elem_of_lookup in Hd as [i Hi].
  destruct (Forall2_lookup_r _ _ _ _ _ Hst Hi) as (r & _ & h & _ & _ & Hdom).
  unfold Upload.document in *.
  apply not_elem_of_dom. rewrite Hdom. apply not_elem_of_list_to_set.
  intros Hin. apply list_elem_of_In in Hin. vm_compute in Hin.
  repeat (destruct Hin as [Hin|Hin]; [discriminate|]). done.
Qed.

(** X20. [GET /api/mpc/predict/<nic>] looks patients up by a [NIC] field, which
    the documents written by the upload script do not have: on the
    collections a successful upload leaves behind it never answers 200,
    whatever the NIC, and when the driver answers it answers 404 "Patient
    <nic> not found". *)
Theorem uploaded_patients_are_not_found s n s' nic :
  Upload.upload_encrypted_data int_of_str F s = (Ok n, s') →
  let out := mpc_predict nic s' in
  Reads.code_of out.1 ≠ 200
  ∧ (fault (Upload.calls s') = None → fault (S (Upload.calls s')) = None →
     out.1 = Reads.Failure 404 (u "Patient " ++ nic ++ u " not found")).
Proof.
  intros Hrun.
  destruct (upload_success int_of_str F s n s' Hrun)
    as (rows_a & rows_b & _ & _ & Hsa & Hsb & _).
  apply mpc_predict_not_found. intros d Hd.
  apply elem_of_app in Hd as [Hd|Hd];
    [exact (stored_for_no_nic _ _ _ Hsa Hd)|exact (stored_for_no_nic _ _ _ Hsb Hd)].
Qed.

Lemma nics_of_missing d docs :
  d !! u "NIC" = None → Mpc.nics_of (d :: docs) = Raise (repr_of_str (u "NIC")).
Proof. intros Hd. cbn [Mpc.nics_of]. unfold Upload.document in *. by rewrite Hd. Qed.

(** X21. [GET /api/mpc/hospital-data] reads the [NIC] field of every document it
    lists: after a successful upload of a non-empty file for hospital A, a
    request for hospital A or for both hospitals with a non-negative limit is
    answered 500 with the text of the [KeyError], when the driver answers. *)
Theorem hospital_data_fails_on_uploaded_collections s n s' a limit rows_a :
  Upload.upload_encrypted_data int_of_str F s = (Ok n, s') →
  Upload.hospital_csv F Upload.A = Ok rows_a → rows_a ≠ [] →
  Reads.int_arg int_of_str a "limit" 50 = Ok limit → 0 ≤ limit →
  a !! u "hospital" = None ∨ a !! u "hospital" = Some (u "both")
  ∨ a !! u "hospital" = Some (u "A") →
  fault (Upload.calls s') = None →
  (get_hospital_data a s').1 = Reads.Failure 500 (repr_of_str (u "NIC")).
Proof.
  intros Hrun Hcsv Hne Hlimit Hpos Hparam Hfault.
  destruct (upload_success int_of_str F s n s' Hrun)
    as (rows_a' & rows_b & Ha & _ & Hsa & _ & _).
  rewrite Hcsv in Ha. injection Ha as <-.
  unfold Mpc.get_hospital_data. rewrite Hlimit.
  assert (bool_decide (default (u "both") (a !! u "hospital") = u "A")
          || bool_decide (default (u "both") (a !! u "hospital") = u "both")
          = true) as ->.
  { destruct Hparam as [-> | [-> | ->]]; reflexivity. }
  unfold Mpc.sample_of, Mpc.read. rewrite Hfault.
  cbn [Upload.collection].
  destruct (Upload.hospital_a_patients s') as [|d docs] eqn:Hdocs.
  { apply Forall2_length in Hsa. destruct rows_a; [done|discriminate]. }
  assert (d !! u "NIC" = None) as Hd.
  { eapply stored_for_no_nic; [exact Hsa|apply list_elem_of_here]. }
  unfold Mpc.limited, mbind, Upload.result_bind.
  destruct (limit =? 0) eqn:Hz; cbn [rbind].
  - by rewrite (nics_of_missing d docs Hd).
  - rewrite (proj2 (Z.ltb_lt 0 limit)) by (apply Z.eqb_neq in Hz; lia).
    cbn [rbind].
    destruct (Z.to_nat limit) as [|m] eqn:Hm;
      [apply Z.eqb_neq in Hz; lia|].
    cbn [take]. by rewrite (nics_of_missing d _ Hd).
Qed.

End Unreadable.

Section Demonstration.
Context `{Interp}.

Lemma encrypted_record_digest ctx n r :
  rbind (PsiDemo.encrypted_record ctx n r) (λ p, Ok p.1)
  = match r !! u "NIC" with
    | None => Raise (repr_of_str (u "NIC"))
    | Some nic =>
        rbind (sha256_hexdigest (py_str nic)) (λ h,
        rbind (Upload.getitem r "Name") (λ _,
        rbind (Upload.getitem r "Address") (λ _,
        rbind (Upload.getitem r "gender") (λ _,
        rbind (Upload.getitem r "age") (λ _,
        rbind (Upload.getitem r "hypertension") (λ _,
        rbind (Upload.getitem r "heart_disease") (λ _,
        rbind (Upload.getitem r "bmi") (λ _,
        rbind (Upload.getitem r "HbA1c_level") (λ _,
        rbind (Upload.getitem r "blood_glucose_level") (λ _,
        rbind (Upload.getitem r "diabetes") (λ _, Ok h)))))))))))
    end.
Proof.
  unfold PsiDemo.encrypted_record, PsiDemo.hash_text, mbind,
    Upload.result_bind.
  unfold Upload.getitem at 1. destruct (r !! u "NIC") as [nic|]; [|done].
  cbn [rbind]. destruct (sha256_hexdigest (py_str nic)) as [h|e]; [|done].
  cbn [rbind].
  repeat (match goal with
          | |- context [Upload.getitem r ?k] =>
              destruct (Upload.getitem r k); cbn [rbind]; [|done]
          end).
  reflexivity.
Qed.

(** The digests collected do not depend on the context, nor on the
    randomness. *)
Lemma process_digests ctx1 ctx2 n1 n2 rows :
  digests_of (PsiDemo.process ctx1 n1 rows)
  = digests_of (PsiDemo.process ctx2 n2 rows).
Proof.
  revert n1 n2. induction rows as [|r rows IH]; intros n1 n2; [done|].
  cbn [PsiDemo.process]. unfold mbind, Upload.result_bind.
  pose proof (encrypted_record_digest ctx1 n1 r) as H1.
  pose proof (encrypted_record_digest ctx2 n2 r) as H2.
  rewrite <- H2 in H1. clear H2.
  specialize (IH (3 + n1)%nat (3 + n2)%nat). unfold digests_of in *.
  destruct (PsiDemo.encrypted_record ctx1 n1 r) as [[h1 d1]|e1],
    (PsiDemo.encrypted_record ctx2 n2 r) as [[h2 d2]|e2];
    cbn [rbind fst snd] in *; simplify_eq; try done.
  destruct (PsiDemo.process ctx1 _ rows) as [[ds1 hs1]|e1],
    (PsiDemo.process ctx2 _ rows) as [[ds2 hs2]|e2];
    cbn [rbind fst snd] in *; simplify_eq; done.
Qed.

Lemma process_ok ctx n rows docs hs :
  PsiDemo.process ctx n rows = Ok (docs, hs) →
  hs = omap digest_of_row rows ∧ length hs = length rows
  ∧ Forall (λ r, is_Some (r !! u "NIC") ∧ is_Some (digest_of_row r)) rows.
Proof.
  revert n docs hs. induction rows as [|r rows IH]; intros n docs hs.
  - intros [= <- <-]. repeat split. constructor.
  - cbn [PsiDemo.process]. unfold mbind, Upload.result_bind.
    pose proof (encrypted_record_digest ctx n r) as Hd.
    destruct (PsiDemo.encrypted_record ctx n r) as [[h d]|e];
      cbn [rbind fst snd] in *; [|discriminate].
    destruct (PsiDemo.process ctx _ rows) as [[ds hs']|e] eqn:Hp;
      cbn [rbind fst snd] in *; [|discriminate].
    intros [= <- <-]. destruct (IH _ _ _ Hp) as (-> & Hlen & Hall).
    assert (is_Some (r !! u "NIC") ∧ digest_of_row r = Some h) as [Hnic Hh].
    { unfold digest_of_row. destruct (r !! u "NIC") as [nic|]; [|discriminate].
      split; [by eexists|].
      destruct (sha256_hexdigest (py_str nic)) as [h'|]; [|discriminate].
      cbn [rbind] in Hd.
      repeat (match type of Hd with
              | context [Upload.getitem r ?k] =>
                  destruct (Upload.getitem r k); cbn [rbind] in Hd;
                  [|discriminate]
              end).
      congruence. }
    cbn [omap list_omap]. rewrite Hh. split; [done|]. split; [simpl; lia|].
    constructor; [|done]. split; [done|]. rewrite Hh. by eexists.
Qed.

Lemma matching_nics_ok common rows :
  Forall (λ r, is_Some (r !! u "NIC") ∧ is_Some (digest_of_row r)) rows →
  ∃ nics, PsiDemo.matching_nics common rows = Ok nics
    ∧ (∀ nic, nic ∈ nics ↔
              ∃ r h, r ∈ rows ∧ r !! u "NIC" = Some nic
                     ∧ digest_of_row r = Some h ∧ h ∈ common)
    ∧ length nics
      = length (filter (λ h, h ∈ common) (omap digest_of_row rows)).
Proof.
  induction 1 as [|r rows [[nic Hnic] [h Hh]] _ (nics & Hm & Hin & Hlen)].
  - exists []. split; [done|]. split; [|done]. intros nic. split.
    + by intros ?%elem_of_nil.
    + by intros (r & h & ?%elem_of_nil & _).
  - cbn [PsiDemo.matching_nics omap list_omap].
    unfold mbind, Upload.result_bind, Upload.getitem, PsiDemo.hash_text.
    rewrite Hnic, Hh. cbn [rbind].
    assert (sha256_hexdigest (py_str nic) = Ok h) as ->.
    { unfold digest_of_row in Hh. rewrite Hnic in Hh.
      by destruct (sha256_hexdigest (py_str nic)); simplify_eq. }
    cbn [rbind]. rewrite Hm. cbn [rbind]. rewrite filter_cons.
    eexists. split; [reflexivity|].
    destruct (decide (h ∈ common)) as [Hc|Hc]; split.
    + intros x. rewrite elem_of_cons, Hin. split.
      * intros [->|(r' & h' & Hr' & ?)].
        -- exists r, h. split; [apply list_elem_of_here|done].
        -- exists r', h'. split; [by apply list_elem_of_further|done].
      * intros (r' & h' & Hr' & Hn' & Hh' & Hc').
        apply elem_of_cons in Hr' as [->|Hr']; [left; congruence|].
        right. eauto 10.
    + simpl. by rewrite Hlen.
    + intros x. rewrite Hin. split.
      * intros (r' & h' & Hr' & ?). exists r', h'.
        split; [by apply list_elem_of_further|done].
      * intros (r' & h' & Hr' & Hn' & Hh' & Hc').
        apply elem_of_cons in Hr' as [->|Hr']; [congruence|]. eauto 10.
    + done.
Qed.

Lemma size_list_to_set_le (l : list pystr) :
  (size (list_to_set l : gset pystr) ≤ length l)%nat.
Proof.
  induction l as [|x l IH]; [done|]. cbn [list_to_set foldr length].
  rewrite size_union_alt, size_singleton.
  pose proof (subseteq_size (list_to_set l ∖ {[x]}) (list_to_set l : gset pystr))
    as Hsub.
  assert ((list_to_set l ∖ {[x]} : gset pystr) ⊆ list_to_set l) as Hdiff.
  { intros y Hy. by apply elem_of_difference in Hy as [? _]. }
  specialize (Hsub Hdiff). lia.
Qed.

(** X22. What the linkage demonstration reports: when [main] completes,
    hospital A has at least one row; the common digests are exactly the
    digests occurring in both files and [common_patients_count] is their
    number; the NICs listed as common are the NICs of the rows of hospital A
    whose digest is common; the count is at most the number of NICs listed
    and at most the number of rows of hospital B; and [encryption_status] is
    SUCCESS. *)
Theorem main_reports_the_intersection (F : Upload.files) (res : PsiDemo.results) :
  PsiDemo.main F = Ok res →
  ∃ rows_a rows_b,
    Upload.hospital_csv F Upload.A = Ok rows_a
    ∧ Upload.hospital_csv F Upload.B = Ok rows_b
    ∧ rows_a ≠ []
    ∧ PsiDemo.hospital_a_count res = length rows_a
    ∧ PsiDemo.hospital_b_count res = length rows_b
    ∧ (∀ h, h ∈ PsiDemo.common_hashed_nics res ↔
            h ∈ omap digest_of_row rows_a ∧ h ∈ omap digest_of_row rows_b)
    ∧ PsiDemo.common_patients_count res = size (PsiDemo.common_hashed_nics res)
    ∧ (∀ nic, nic ∈ PsiDemo.original_common_nics res ↔
              ∃ r h, r ∈ rows_a ∧ r !! u "NIC" = Some nic
                     ∧ digest_of_row r = Some h
                     ∧ h ∈ PsiDemo.common_hashed_nics res)
    ∧ (PsiDemo.common_patients_count res
       ≤ length (PsiDemo.original_common_nics res))%nat
    ∧ (PsiDemo.common_patients_count res ≤ PsiDemo.hospital_b_count res)%nat
    ∧ PsiDemo.encryption_status res = u "SUCCESS".
Proof.
  unfold PsiDemo.main, mbind, Upload.result_bind.
  destruct (Upload.hospital_csv F Upload.A) as [rows_a|e]; [|discriminate].
  destruct (Upload.hospital_csv F Upload.B) as [rows_b|e]; [|discriminate].
  cbn [rbind].
  destruct (Upload.public_key F) as [ctx|e]; [|discriminate]. cbn [rbind].
  destruct (PsiDemo.process ctx 0 rows_a) as [[da ha]|e] eqn:Hpa;
    [|discriminate]. cbn [rbind].
  destruct (PsiDemo.process ctx _ rows_b) as [[db hb]|e] eqn:Hpb;
    [|discriminate]. cbn [rbind fst snd].
  destruct (process_ok _ _ _ _ _ Hpa) as (-> & Hla & Halla).
  destruct (process_ok _ _ _ _ _ Hpb) as (-> & Hlb & _).
  destruct (omap digest_of_row rows_a) as [|h0 hs] eqn:Hha; [discriminate|].
  destruct (matching_nics_ok
              (PSI.common_hashed_nics (h0 :: hs) (omap digest_of_row rows_b))
              rows_a Halla) as (nics & -> & Hin & Hlen).
  cbn [rbind]. intros [= <-].
  cbn [PsiDemo.hospital_a_count PsiDemo.hospital_b_count
       PsiDemo.common_hashed_nics PsiDemo.common_patients_count
       PsiDemo.original_common_nics PsiDemo.encryption_status].
  exists rows_a, rows_b. split; [done|]. split; [done|].
  split; [by intros ->|]. split; [done|]. split; [done|]. split.
  { intros h. unfold PSI.common_hashed_nics.
    by rewrite elem_of_intersection, !elem_of_list_to_set, Hha. }
  split; [done|]. split; [exact Hin|]. split.
  - rewrite Hlen, Hha. etrans; [|apply size_list_to_set_le].
    apply subseteq_size. intros h Hh. apply elem_of_list_to_set.
    apply list_elem_of_filter. split; [done|].
    unfold PSI.common_hashed_nics in Hh.
    apply elem_of_intersection in Hh as [Hh _].
    by apply elem_of_list_to_set in Hh.
  - split; [|done]. rewrite <- Hlb. etrans; [|apply size_list_to_set_le].
    apply subseteq_size. unfold PSI.common_hashed_nics.
    intros h Hh. by apply elem_of_intersection in Hh as [_ ?].
Qed.

(** X23. The linkage demonstration does not depend on the encryption: with the
    same two files, [main] gives the same outcome (the same report, or the
    same exception) under any two contexts that load, even under one whose
    every encryption fails, the report saying SUCCESS all the same. *)
Theorem main_ignores_the_context (F1 F2 : Upload.files) (c1 c2 : context) :
  Upload.hospital_csv F1 = Upload.hospital_csv F2 →
  Upload.public_key F1 = Ok c1 → Upload.public_key F2 = Ok c2 →
  PsiDemo.main F1 = PsiDemo.main F2.
Proof.
  intros Hcsv H1 H2. unfold PsiDemo.main, mbind, Upload.result_bind.
  rewrite Hcsv, H1, H2.
  destruct (Upload.hospital_csv F2 Upload.A) as [rows_a|e]; [|done].
  destruct (Upload.hospital_csv F2 Upload.B) as [rows_b|e]; [|done].
  cbn [rbind].
  pose proof (process_digests c1 c2 0 0 rows_a) as Ha.
  pose proof (process_digests c1 c2 (3 * length rows_a) (3 * length rows_a)
                rows_b) as Hb.
  unfold digests_of in *.
  destruct (PsiDemo.process c1 0 rows_a) as [[da1 ha1]|e1],
    (PsiDemo.process c2 0 rows_a) as [[da2 ha2]|e2];
    cbn [rbind fst snd] in *; simplify_eq; try done.
  destruct (PsiDemo.process c1 _ rows_b) as [[db1 hb1]|e1],
    (PsiDemo.process c2 _ rows_b) as [[db2 hb2]|e2];
    cbn [rbind fst snd] in *; simplify_eq; done.
Qed.

End Demonstration.

Lemma upload_linked_files :
  Upload.upload_encrypted_data Fixtures.int_of_str Fixtures.linked_files
    Fixtures.empty_store = (Ok 1%nat, Fixtures.uploaded).
Proof.
  assert ((Upload.upload_encrypted_data Fixtures.int_of_str
             Fixtures.linked_files Fixtures.empty_store).1 = Ok 1%nat) as Hn
    by (vm_compute; reflexivity).
  unfold Fixtures.uploaded. revert Hn.
  destruct (Upload.upload_encrypted_data Fixtures.int_of_str
              Fixtures.linked_files Fixtures.empty_store) as [r s].
  cbn [fst snd]. intros ->. reflexivity.
Qed.

(** The two files of two rows each share one NIC: two documents per
    hospital, none with a [NIC] field, and one common digest. *)
Lemma upload_replaces_collections_witness :
  length (Upload.hospital_a_patients Fixtures.uploaded) = 2%nat
  ∧ length (Upload.hospital_b_patients Fixtures.uploaded) = 2%nat
  ∧ (∀ d, d ∈ Upload.hospital_a_patients Fixtures.uploaded
              ++ Upload.hospital_b_patients Fixtures.uploaded →
          d !! u "NIC" = None ∧ d !! u "Name" = None
          ∧ d !! u "Address" = None).
Proof.
  destruct (@upload_replaces_collections Demo.demo_interp Fixtures.int_of_str
              Fixtures.linked_files Fixtures.empty_store 1%nat Fixtures.uploaded
              upload_linked_files)
    as (rows_a & rows_b & Ha & Hb & _ & _ & Hla & Hlb & Hnone & _).
  injection Ha as <-. injection Hb as <-.
  split; [exact Hla|]. split; [exact Hlb|]. exact Hnone.
Defined.

Lemma upload_missing_b_files :
  Upload.upload_encrypted_data Fixtures.int_of_str Fixtures.missing_b_files
    Fixtures.stale_store = (Raise (u "No such file or directory"), Fixtures.after_failed_upload).
Proof.
  assert ((Upload.upload_encrypted_data Fixtures.int_of_str
             Fixtures.missing_b_files Fixtures.stale_store).1
          = Raise (u "No such file or directory")) as Hn
    by (vm_compute; reflexivity).
  unfold Fixtures.after_failed_upload. revert Hn.
  destruct (Upload.upload_encrypted_data Fixtures.int_of_str
              Fixtures.missing_b_files Fixtures.stale_store) as [r s].
  cbn [fst snd]. intros ->. reflexivity.
Qed.

(** The file of hospital B is missing: the upload fails, and hospital A,
    which held three other documents, is left with the two of its file. *)
Lemma failed_upload_keeps_a_prefix_witness :
  ∃ k, (k ≤ 2)%nat
       ∧ length (Upload.hospital_a_patients Fixtures.after_failed_upload) = k.
Proof.
  destruct (@failed_upload_keeps_a_prefix Demo.demo_interp Fixtures.int_of_str
              Fixtures.missing_b_files Fixtures.stale_store
              (u "No such file or directory") Fixtures.after_failed_upload
              Demo.demo_context eq_refl eq_refl upload_missing_b_files)
    as (k & rows & Hk & _ & Hlen & Hrows).
  cbn in Hrows. subst rows. exists k. split; [exact Hk|exact Hlen].
Defined.

(** Jane was Fixtures.uploaded by both hospitals and is not found under her NIC. *)
Lemma uploaded_patients_are_not_found_witness :
  (Mpc.mpc_predict (λ _, None) Fixtures.identity_inference (u "199012345V")
     Fixtures.uploaded).1
  = Reads.Failure 404 (u "Patient 199012345V not found").
Proof.
  destruct (@uploaded_patients_are_not_found Demo.demo_interp Fixtures.int_of_str
              Fixtures.linked_files (λ _, None) Fixtures.identity_inference
              Fixtures.empty_store 1%nat Fixtures.uploaded (u "199012345V")
              upload_linked_files) as [_ Hfound].
  eapply eq_trans; [exact (Hfound eq_refl eq_refl)|].
  vm_compute. reflexivity.
Defined.

(** The sample of hospital A after the upload: 500, KeyError 'NIC'. *)
Lemma hospital_data_fails_on_uploaded_collections_witness :
  (Mpc.get_hospital_data Fixtures.int_of_str Fixtures.single_batch (λ _, None)
     (Fixtures.query [("hospital", "A"); ("limit", "5")]) Fixtures.uploaded).1
  = Reads.Failure 500 (u "'NIC'").
Proof.
  eapply eq_trans;
    [exact (@hospital_data_fails_on_uploaded_collections Demo.demo_interp Fixtures.int_of_str
              Fixtures.single_batch Fixtures.linked_files (λ _, None)
              Fixtures.empty_store 1%nat Fixtures.uploaded
              (Fixtures.query [("hospital", "A"); ("limit", "5")]) 5
              Fixtures.rows_a upload_linked_files eq_refl
              ltac:(discriminate) ltac:(vm_compute; reflexivity) ltac:(lia)
              ltac:(right; right; vm_compute; reflexivity) eq_refl)|].
  vm_compute. reflexivity.
Defined.

Lemma main_linked_files : PsiDemo.main Fixtures.linked_files = Ok Fixtures.linked_report.
Proof. vm_compute. reflexivity. Qed.

(** The digest of Jane's NIC is the only one in both example files. *)
Lemma main_reports_the_intersection_witness :
  PsiDemo.main Fixtures.linked_files = Ok Fixtures.linked_report
  ∧ ∀ h, h ∈ PsiDemo.common_hashed_nics Fixtures.linked_report ↔
         h ∈ omap digest_of_row Fixtures.rows_a
         ∧ h ∈ omap digest_of_row Fixtures.rows_b.
Proof.
  split; [exact main_linked_files|].
  destruct (@main_reports_the_intersection Demo.demo_interp
              Fixtures.linked_files Fixtures.linked_report main_linked_files)
    as (rows_a & rows_b & Ha & Hb & _ & _ & _ & Hcommon & _).
  injection Ha as <-. injection Hb as <-. exact Hcommon.
Defined.

(** The demonstration reports the same with a context whose every encryption
    fails. *)
Lemma main_ignores_the_context_witness :
  PsiDemo.main Fixtures.linked_files
  = PsiDemo.main Fixtures.broken_context_files.
Proof.
  exact (@main_ignores_the_context Demo.demo_interp Fixtures.linked_files
           Fixtures.broken_context_files Demo.demo_context
           (λ _ _, Raise (u "encryption failed")) eq_refl eq_refl eq_refl).
Defined.

(** ** The pattern of [validate_email] *)

Section Matching.
Import Regex.

Lemma lang_eps_inv w : lang Eps w → w = [].
Proof. by inversion 1. Qed.

Lemma lang_class_inv p w : lang (Class p) w → ∃ c, w = [c] ∧ p c = true.
Proof. inversion 1; eauto. Qed.

Lemma lang_cat_inv r s w :
  lang (Cat r s) w → ∃ x y, w = x ++ y ∧ lang r x ∧ lang s y.
Proof. inversion 1; eauto. Qed.

Lemma lang_alt_inv r s w : lang (Alt r s) w → lang r w ∨ lang s w.
Proof. inversion 1; auto. Qed.

Lemma lang_star_cons_inv r c w :
  lang (Star r) (c :: w) →
  ∃ x y, w = x ++ y ∧ lang r (c :: x) ∧ lang (Star r) y.
Proof.
  intros Hl. remember (Star r) as sr eqn:Hsr. remember (c :: w) as cw eqn:Hcw.
  revert Hsr Hcw.
  induction Hl as [| | | | | |r0 x y Hx _ Hy IH]; try discriminate.
  intros [= ->] Hcw. destruct x as [|c' x]; simpl in Hcw.
  - by apply IH.
  - injection Hcw as -> <-. eauto.
Qed.

Lemma nullable_lang r : nullable r = true ↔ lang r [].
Proof.
  induction r as [|p|r IHr s IHs|r IHr s IHs|r IH]; simpl.
  - split; [constructor|done].
  - split; [done|]. intros (c & ? & _)%lang_class_inv. discriminate.
  - rewrite andb_true_iff, IHr, IHs. split.
    + intros [Hr Hs]. by apply (lang_cat r s [] []).
    + intros (x & y & Hxy & Hr & Hs)%lang_cat_inv.
      symmetry in Hxy. apply app_eq_nil in Hxy as [-> ->]. done.
  - rewrite orb_true_iff, IHr, IHs. split.
    + intros [?|?]; [by apply lang_alt_l|by apply lang_alt_r].
    + apply lang_alt_inv.
  - split; [constructor|done].
Qed.

Lemma deriv_lang c r w :
  lang r (c :: w) ↔ ∃ r', deriv c r = Some r' ∧ lang r' w.
Proof.
  revert w. induction r as [|p|r IHr s IHs|r IHr s IHs|r IH]; intros w; simpl.
  - split; [intros ?%lang_eps_inv; discriminate|by intros (? & ? & _)].
  - split.
    + intros (c' & [= -> ->] & Hp)%lang_class_inv. rewrite Hp.
      eexists. split; [done|constructor].
    + intros (r' & Hd & Hl). destruct (p c) eqn:Hp; [|discriminate].
      injection Hd as <-. apply lang_eps_inv in Hl as ->. by constructor.
  - split.
    + intros (x & y & Hxy & Hr & Hs)%lang_cat_inv.
      destruct x as [|c' x]; simpl in Hxy.
      * subst y. apply nullable_lang in Hr. rewrite Hr.
        apply IHs in Hs as (s' & -> & Hs').
        destruct (deriv c r) as [r'|]; eexists; (split; [done|]);
          [by apply lang_alt_r|done].
      * injection Hxy as <- ->. apply IHr in Hr as (r' & -> & Hr').
        destruct (if nullable r then deriv c s else None);
          eexists; (split; [done|]);
          [apply lang_alt_l|]; by constructor.
    + intros (d & Hd & Hl).
      destruct (deriv c r) as [r'|] eqn:Hdr;
        destruct (nullable r) eqn:Hn;
        try destruct (deriv c s) as [s'|] eqn:Hds; simplify_eq.
      * apply lang_alt_inv in Hl as [Hl|Hl].
        -- apply lang_cat_inv in Hl as (x & y & -> & Hx & Hy).
           apply (lang_cat r s (c :: x) y); [|done]. apply IHr. eauto.
        -- apply (lang_cat r s [] (c :: w)); [by apply nullable_lang|].
           apply IHs. eauto.
      * apply lang_cat_inv in Hl as (x & y & -> & Hx & Hy).
        apply (lang_cat r s (c :: x) y); [|done]. apply IHr. eauto.
      * apply lang_cat_inv in Hl as (x & y & -> & Hx & Hy).
        apply (lang_cat r s (c :: x) y); [|done]. apply IHr. eauto.
      * apply lang_cat_inv in Hl as (x & y & -> & Hx & Hy).
        apply (lang_cat r s (c :: x) y); [|done]. apply IHr. eauto.
      * apply (lang_cat r s [] (c :: w)); [by apply nullable_lang|].
        apply IHs. eauto.
  - split.
    + intros [Hl|Hl]%lang_alt_inv.
      * apply IHr in Hl as (r' & -> & Hr').
        destruct (deriv c s); eexists; (split; [done|]);
          [by apply lang_alt_l|done].
      * apply IHs in Hl as (s' & -> & Hs').
        destruct (deriv c r); eexists; (split; [done|]);
          [by apply lang_alt_r|done].
    + intros (d & Hd & Hl).
      destruct (deriv c r) as [r'|] eqn:Hdr;
        destruct (deriv c s) as [s'|] eqn:Hds; simplify_eq.
      * apply lang_alt_inv in Hl as [Hl|Hl].
        -- apply lang_alt_l, IHr. eauto.
        -- apply lang_alt_r, IHs. eauto.
      * apply lang_alt_l, IHr. eauto.
      * apply lang_alt_r, IHs. eauto.
  - split.
    + intros (x & y & -> & Hx & Hy)%lang_star_cons_inv.
      apply IH in Hx as (r' & -> & Hr').
      eexists. split; [done|]. by constructor.
    + intros (d & Hd & Hl). destruct (deriv c r) as [r'|] eqn:Hdr; [|done].
      injection Hd as <-.
      apply lang_cat_inv in Hl as (x & y & -> & Hx & Hy).
      apply (lang_star_cons r (c :: x) y); [|done]. apply IH. eauto.
Qed.

(** The matcher decides the language. *)
Lemma fullmatch_lang r w : fullmatch r w = true ↔ lang r w.
Proof.
  revert r. induction w as [|c w IH]; intros r; simpl.
  - apply nullable_lang.
  - rewrite deriv_lang. destruct (deriv c r) as [r'|].
    + rewrite IH. split; [eauto|]. by intros (? & [= <-] & ?).
    + split; [done|]. by intros (? & ? & _).
Qed.

Lemma lang_star_class p w :
  lang (Star (Class p)) w ↔ Forall (λ c, p c = true) w.
Proof.
  split.
  - induction w as [|c w IH]; [constructor|].
    intros (x & y & -> & Hx & Hy)%lang_star_cons_inv.
    apply lang_class_inv in Hx as (c' & [= -> Hnil] & Hp).
    symmetry in Hnil. subst x. constructor; [done|]. by apply IH.
  - induction 1 as [|c w Hc _ IH]; [constructor|].
    apply (lang_star_cons (Class p) [c] w); [by constructor|done].
Qed.

Lemma lang_plus_class p w :
  lang (plus (Class p)) w ↔ w ≠ [] ∧ Forall (λ c, p c = true) w.
Proof.
  unfold plus. split.
  - intros (x & y & -> & Hx & Hy)%lang_cat_inv.
    apply lang_class_inv in Hx as (c & -> & Hp).
    apply lang_star_class in Hy. split; [done|]. by constructor.
  - intros [Hne Hall]. destruct Hall as [|c w Hc Hw]; [done|].
    apply (lang_cat (Class p) _ [c] w); [by constructor|].
    by apply lang_star_class.
Qed.

Lemma lang_at_least_two_class p w :
  lang (at_least_two (Class p)) w
  ↔ (2 ≤ length w)%nat ∧ Forall (λ c, p c = true) w.
Proof.
  unfold at_least_two. split.
  - intros (x & y & -> & Hx & Hy)%lang_cat_inv.
    apply lang_class_inv in Hx as (c & -> & Hp).
    apply (lang_plus_class p) in Hy as [Hne Hall].
    split; [destruct y; [done|simpl; lia]|by constructor].
  - intros [Hlen Hall]. destruct Hall as [|c w Hc Hw]; [simpl in Hlen; lia|].
    apply (lang_cat (Class p) _ [c] w); [by constructor|].
    apply (lang_plus_class p). split; [|done].
    destruct w; [simpl in Hlen; lia|done].
Qed.

Lemma lang_char c w : lang (char c) w ↔ w = [c].
Proof.
  unfold char. split.
  - intros (c' & -> & Hc)%lang_class_inv. by apply N.eqb_eq in Hc as ->.
  - intros ->. constructor. apply N.eqb_refl.
Qed.

Lemma lang_pattern w :
  lang Auth.pattern w ↔ ∃ local domain tld nl, address_shape w local domain tld nl.
Proof.
  unfold Auth.pattern, address_shape. split.
  - intros (local & w1 & -> & Hlocal & H1)%lang_cat_inv.
    apply lang_cat_inv in H1 as (at_sign & w2 & -> & ->%lang_char & H2).
    apply lang_cat_inv in H2 as (domain & w3 & -> & Hdomain & H3).
    apply lang_cat_inv in H3 as (dot & w4 & -> & ->%lang_char & H4).
    apply lang_cat_inv in H4 as (tld & nl & -> & Htld & Hnl).
    apply lang_plus_class in Hlocal as [? ?].
    apply lang_plus_class in Hdomain as [? ?].
    apply lang_at_least_two_class in Htld as [? ?].
    exists local, domain, tld, nl. repeat split; auto.
    apply lang_alt_inv in Hnl as [->%lang_char| ->%lang_eps_inv]; auto.
  - intros (local & domain & tld & nl & -> & Hl1 & Hl2 & Hd1 & Hd2 & Ht1 & Ht2
            & Hnl).
    apply lang_cat; [by apply lang_plus_class|].
    apply (lang_cat _ _ [64%N]); [by apply lang_char|].
    apply lang_cat; [by apply lang_plus_class|].
    apply (lang_cat _ _ [46%N]); [by apply lang_char|].
    apply lang_cat; [by apply lang_at_least_two_class|].
    destruct Hnl as [-> | ->]; [apply lang_alt_r; constructor|].
    apply lang_alt_l. by apply lang_char.
Qed.

End Matching.

Section Email.

Lemma count_at_forall (p : N → bool) w :
  p 64%N = false → Forall (λ c, p c = true) w →
  filter (λ c, c = 64%N) (w : list N) = [].
Proof.
  intros Hp. induction 1 as [|c w Hc _ IH]; [done|].
  rewrite filter_cons, decide_False by congruence. exact IH.
Qed.

(** X24. The addresses [validate_email] accepts are exactly the texts made of a
    non-empty local part of letters, digits and [._%+-], an [@], a non-empty
    domain of letters, digits, full stops and hyphens, a full stop and a last
    label of at least two letters, possibly followed by one newline (which
    [$] lets through); such a text contains exactly one [@], and anything
    that is not text makes the function raise. *)
Theorem validate_email_accepts (email : pyval) :
  (Auth.validate_email email = Ok true ↔
   ∃ s local domain tld nl,
     email = PStr s ∧ address_shape s local domain tld nl)
  ∧ (Auth.validate_email email = Ok true →
     ∃ s : list N,
       email = PStr s ∧ length (filter (λ c, c = 64%N) s) = 1%nat)
  ∧ ((∃ e, Auth.validate_email email = Raise e) ↔ ∀ s, email ≠ PStr s).
Proof.
  assert (Auth.validate_email email = Ok true ↔
          ∃ s local domain tld nl,
            email = PStr s ∧ address_shape s local domain tld nl) as Hiff.
  { destruct email as [| | | |s]; simpl;
      try (split; [discriminate|by intros (? & ? & ? & ? & ? & ? & _)]).
    split.
    - intros [= Hm]. apply fullmatch_lang, lang_pattern in Hm
        as (local & domain & tld & nl & Hshape). eauto 10.
    - intros (s' & local & domain & tld & nl & [= <-] & Hshape).
      f_equal. apply fullmatch_lang, lang_pattern. eauto 10. }
  split; [exact Hiff|]. split.
  - intros (s & local & domain & tld & nl & -> & -> & _ & Hl & _ & Hd & _ & Ht
            & Hnl)%Hiff.
    eexists. split; [reflexivity|].
    unfold pystr.
    rewrite filter_app, filter_cons, decide_True by done.
    rewrite filter_app, filter_cons, decide_False by done.
    rewrite filter_app.
    rewrite (count_at_forall Auth.local_char local) by done.
    rewrite (count_at_forall Auth.domain_char domain) by done.
    rewrite (count_at_forall Auth.letter tld) by done.
    destruct Hnl as [-> | ->]; reflexivity.
  - destruct email as [| | | |s]; simpl.
    1-4: split; [intros _ s'; discriminate|intros _; eauto].
    split; [intros [e He]; discriminate|intros Hs; by destruct (Hs s)].
Qed.

End Email.

(** ** Accounts: registration, login and the two decorators *)

Section Accounts.
Context `{Interp} (S : Auth.services).

Lemma find_one_run q s :
  Auth.find_one S q s
  = match Auth.users_fault S (Auth.time s) with
    | Some e => (Raise e, Auth.tick s)
    | None => (Ok (List.find q (Auth.users s)), Auth.tick s)
    end.
Proof.
  unfold Auth.find_one, Auth.users_call.
  by destruct (Auth.users_fault S (Auth.time s)).
Qed.

Lemma find_none {A} (q : A → bool) l :
  List.find q l = None → Forall (λ x, q x = false) l.
Proof.
  induction l as [|x l IH]; simpl; [constructor|].
  destruct (q x) eqn:Hq; [discriminate|]. intros Hl. constructor; auto.
Qed.

Lemma required_present data :
  List.find (Auth.absent_or_falsy data) Auth.required = None →
  ∀ k, k ∈ Auth.required → ∃ v, data !! k = Some v ∧ py_truthy v = true.
Proof.
  intros Hf%find_none k Hk. rewrite Forall_forall in Hf. specialize (Hf k Hk).
  unfold Auth.absent_or_falsy in Hf.
  destruct (data !! k) as [v|]; [|discriminate].
  exists v. split; [done|]. by apply negb_false_iff.
Qed.

Lemma role_allowed role allowed :
  existsb (λ r, py_eq role (PStr r)) allowed = true →
  ∃ r, r ∈ allowed ∧ role = PStr r.
Proof.
  intros (r & Hr & Heq)%existsb_exists. exists r.
  split; [by apply list_elem_of_In|].
  destruct role; simpl in Heq; try discriminate.
  by apply bool_decide_eq_true in Heq as ->.
Qed.

Lemma user_exists_email_run e s :
  Auth.user_exists_email S (PStr e) s
  = match Auth.users_fault S (Auth.time s) with
    | Some x => (Raise x, Auth.tick s)
    | None =>
        (Ok (bool_decide
               (List.find (λ d, bool_decide
                                  (Auth.email d = Auth.strip (Auth.lower S e)))
                  (Auth.users s) ≠ None)), Auth.tick s)
    end.
Proof.
  unfold Auth.user_exists_email, mbind, Auth.auth_bind, Auth.pure, Auth.as_str.
  rewrite find_one_run. by destruct (Auth.users_fault S (Auth.time s)).
Qed.

Lemma user_exists_username_run n s :
  Auth.user_exists_username S (PStr n) s
  = match Auth.users_fault S (Auth.time s) with
    | Some x => (Raise x, Auth.tick s)
    | None =>
        (Ok (bool_decide
               (List.find (λ d, bool_decide (Auth.username d = Auth.strip n))
                  (Auth.users s) ≠ None)), Auth.tick s)
    end.
Proof.
  unfold Auth.user_exists_username, mbind, Auth.auth_bind, Auth.pure,
    Auth.as_str.
  rewrite find_one_run. by destruct (Auth.users_fault S (Auth.time s)).
Qed.

(** [create_user] on text arguments: it fails without writing, or appends one
    account and returns its identifier. *)
Lemma create_user_cases e n p v_first v_last role s :
  let out := Auth.create_user S (PStr e) (PStr n) (PStr p) v_first v_last role s in
  (∃ x, out.1 = Raise x ∧ Auth.users out.2 = Auth.users s
        ∧ Auth.next_id out.2 = Auth.next_id s)
  ∨ ∃ bytes h f l,
      encode p = Some bytes ∧ Auth.hashpw S bytes (Auth.time s) = Ok h
      ∧ out = (Ok (Auth.next_id s),
               Auth.tick
                 {| Auth.users := Auth.users s ++
                      [{| Auth._id := Auth.next_id s;
                          Auth.email := Auth.strip (Auth.lower S e);
                          Auth.username := Auth.strip n;
                          Auth.password := h;
                          Auth.firstName := Auth.strip f;
                          Auth.lastName := Auth.strip l;
                          Auth.role := role;
                          Auth.isActive := true;
                          Auth.lastLogin := None |}];
                    Auth.next_id := Datatypes.S (Auth.next_id s);
                    Auth.time := Auth.time s |}).
Proof.
  cbv zeta. unfold Auth.create_user, mbind, Upload.result_bind, Auth.as_str.
  cbn [rbind].
  destruct (encode p) as [bytes|]; cbn [rbind]; [|left; eexists; by repeat split].
  destruct (Auth.hashpw S bytes (Auth.time s)) as [h|x] eqn:Hh; cbn [rbind];
    [|left; eexists; by repeat split].
  destruct v_first as [| | | |f]; cbn [rbind]; try (left; eexists; by repeat split).
  destruct v_last as [| | | |l]; cbn [rbind]; try (left; eexists; by repeat split).
  unfold Auth.users_call.
  destruct (Auth.users_fault S (Auth.time s)) as [x|]; [left; eexists; by repeat split|].
  right. exists bytes, h, f, l. auto.
Qed.

Lemma find_by_id_object i s :
  ∃ found, Auth.find_by_id S (Auth.IdObject i) s = (Ok found, Auth.tick s).
Proof.
  unfold Auth.find_by_id, Auth.guarded, mbind, Auth.auth_bind, Auth.pure.
  rewrite find_one_run.
  destruct (Auth.users_fault S (Auth.time s)); eauto.
Qed.

(** The body of [register]: either nothing is written and the answer, if any,
    is a 400; or one account is appended, and the answer, if any, is the
    201. *)
Lemma register_body_cases data s :
  let out := Auth.register_body S data s in
  (Auth.users out.2 = Auth.users s ∧ Auth.next_id out.2 = Auth.next_id s
   ∧ ∀ r, out.1 = Ok r → Auth.status r = 400)
  ∨ ∃ d, Auth.users out.2 = Auth.users s ++ [d]
         ∧ Auth.next_id out.2 = Datatypes.S (Auth.next_id s)
         ∧ created S data s d
         ∧ ∀ r, out.1 = Ok r → Auth.status r = 201 ∧ is_Some (Auth.token r).
Proof.
  cbv zeta. unfold Auth.register_body.
  unfold mret, Auth.auth_ret, Auth.refuse.
  assert (∀ c m t uf (s0 : Auth.store),
    Auth.users s0 = Auth.users s → Auth.next_id s0 = Auth.next_id s →
    let out := (Ok {| Auth.status := 400; Auth.success := c; Auth.message := m;
                      Auth.token := t; Auth.user_field := uf |}, s0) in
    Auth.users out.2 = Auth.users s ∧ Auth.next_id out.2 = Auth.next_id s
    ∧ ∀ r, out.1 = Ok r → Auth.status r = 400) as H400.
  { intros c m t uf s0 Hu Hn. repeat split; try done. by intros r [= <-]. }
  assert (∀ e (s0 : Auth.store),
    Auth.users s0 = Auth.users s → Auth.next_id s0 = Auth.next_id s →
    Auth.users (@Raise Auth.response e, s0).2 = Auth.users s
    ∧ Auth.next_id (@Raise Auth.response e, s0).2 = Auth.next_id s
    ∧ ∀ r, (@Raise Auth.response e, s0).1 = Ok r → Auth.status r = 400)
    as Hraise.
  { intros e s0 Hu Hn. repeat split; try done. }
  destruct (List.find _ Auth.required) as [field|] eqn:Hreq;
    [left; by apply H400|].
  pose proof (required_present data Hreq) as Hpresent.
  destruct (Hpresent (u "email")) as (v_email & Hemail & _);
    [apply list_elem_of_In; vm_compute; auto 10|].
  destruct (Hpresent (u "username")) as (v_username & Husername & _);
    [apply list_elem_of_In; vm_compute; auto 10|].
  destruct (Hpresent (u "password")) as (v_password & Hpassword & _);
    [apply list_elem_of_In; vm_compute; auto 10|].
  destruct (Hpresent (u "firstName")) as (v_first & Hfirst & _);
    [apply list_elem_of_In; vm_compute; auto 10|].
  destruct (Hpresent (u "lastName")) as (v_last & Hlast & _);
    [apply list_elem_of_In; vm_compute; auto 10|].
  destruct (Hpresent (u "role")) as (v_role & Hrole & _);
    [apply list_elem_of_In; vm_compute; auto 10|].
  unfold mbind, Auth.auth_bind, Auth.pure, Auth.item.
  rewrite Hemail, Husername, Hpassword, Hfirst, Hlast, Hrole.
  destruct (Auth.validate_email v_email) as [[]|e0] eqn:Hvalid; cbn [negb];
    [|left; by apply H400|left; by apply Hraise].
  destruct v_email as [| | | |e]; try discriminate.
  injection Hvalid as Hvalid.
  destruct (Auth.py_len v_username) as [n_len|e0] eqn:Hulen;
    [|left; by apply Hraise].
  destruct v_username as [| | | |n]; try discriminate.
  injection Hulen as <-.
  destruct (length n <? 3)%nat eqn:Hn3; [left; by apply H400|].
  apply Nat.ltb_ge in Hn3.
  destruct (Auth.py_len v_password) as [p_len|e0] eqn:Hplen;
    [|left; by apply Hraise].
  destruct v_password as [| | | |p]; try discriminate.
  injection Hplen as <-.
  destruct (length p <? 6)%nat eqn:Hp6; [left; by apply H400|].
  apply Nat.ltb_ge in Hp6.
  destruct (existsb _ Auth.roles) eqn:Hroles; cbn [negb];
    [|left; by apply H400].
  apply role_allowed in Hroles as (r & Hr & ->).
  (* the two uniqueness checks *)
  rewrite user_exists_email_run.
  destruct (Auth.users_fault S (Auth.time s)); [left; by apply Hraise|].
  destruct (List.find _ (Auth.users s)) as [taken|] eqn:Hfree_email.
  { rewrite bool_decide_eq_true_2 by done. left. by apply H400. }
  rewrite bool_decide_eq_false_2 by (by intros ?).
  rewrite user_exists_username_run. cbn [Auth.tick Auth.time Auth.users].
  destruct (Auth.users_fault S _); [left; by apply Hraise|].
  destruct (List.find (λ d, bool_decide (Auth.username d = Auth.strip n))
              (Auth.users s)) as [taken|] eqn:Hfree_username.
  { rewrite bool_decide_eq_true_2 by done. left. by apply H400. }
  rewrite bool_decide_eq_false_2 by (by intros ?).
  (* create_user *)
  match goal with |- context [Auth.create_user S _ _ _ _ _ _ ?s2] =>
    destruct (create_user_cases e n p v_first v_last (PStr r) s2)
      as [(x & Hx & Hu & Hn)|(bytes & h & f & l & Hbytes & Hh & Hout)] end.
  { destruct (Auth.create_user S _ _ _ _ _ _ _) as [[i|x'] s3];
      cbn [fst snd] in *; [discriminate|]. left. by apply Hraise. }
  rewrite Hout. clear Hout.
  match goal with |- context [Auth.find_by_id S (Auth.IdObject ?i) ?s3] =>
    destruct (find_by_id_object i s3) as [found ->] end.
  unfold Auth.generate_token.
  cbn [Auth.tick Auth.users Auth.next_id Auth.time] in *.
  right. eexists.
  split; [|split; [|split]].
  4: { destruct (Auth.jwt_encode S _ _) as [tok|x]; cbn [fst snd];
         [|discriminate]. intros r0 [= <-]. split; [done|by eexists]. }
  - by destruct (Auth.jwt_encode S _ _).
  - by destruct (Auth.jwt_encode S _ _).
  - exists e, n, p, bytes, r. cbn.
    repeat (split; [done||by eauto|]).
    apply find_none in Hfree_email, Hfree_username.
    rewrite Forall_forall in *. intros d' Hd'.
    specialize (Hfree_email d' Hd'). specialize (Hfree_username d' Hd').
    apply bool_decide_eq_false in Hfree_email, Hfree_username. done.
Qed.

Lemma register_cases request s :
  let out := Auth.register S request s in
  ∃ r, out.1 = Ok r
    ∧ ((Auth.users out.2 = Auth.users s ∧ Auth.next_id out.2 = Auth.next_id s
        ∧ (Auth.status r = 400 ∨ Auth.status r = 500))
       ∨ ∃ data d,
           request = Some data
           ∧ Auth.users out.2 = Auth.users s ++ [d]
           ∧ Auth.next_id out.2 = Datatypes.S (Auth.next_id s)
           ∧ created S data s d
           ∧ (Auth.status r = 500
              ∨ (Auth.status r = 201 ∧ is_Some (Auth.token r)))).
Proof.
  cbv zeta. unfold Auth.register, Auth.guarded.
  destruct request as [data|].
  - pose proof (register_body_cases data s) as Hcases. cbv zeta in Hcases.
    destruct (Auth.register_body S data s) as [[r|x] s1]; cbn [fst snd] in *;
      eexists; (split; [reflexivity|]).
    + destruct Hcases as [(Hu & Hn & Hr)|(d & Hu & Hn & Hc & Hr)].
      * left. split; [done|]. split; [done|]. left. by apply Hr.
      * right. exists data, d. do 4 (split; [done|]). right. by apply Hr.
    + destruct Hcases as [(Hu & Hn & Hr)|(d & Hu & Hn & Hc & Hr)].
      * left. split; [done|]. split; [done|]. by right.
      * right. exists data, d. do 4 (split; [done|]). by left.
  - eexists. split; [reflexivity|]. left. cbn. auto.
Qed.

(** X25. What [register] writes: every call answers with 201, 400 or 500; it
    adds at most one account, and none when it answers 400; an account it
    adds has a well-formed address stored lowercased and stripped, a username
    of at least 3 characters stored stripped, a password of at least 6
    characters stored as its bcrypt hash, one of the three roles, and an
    address and a username no earlier account has; the answer 201 is given
    only after such an account was added, and carries a token. An account can
    also have been added when the answer is 500. *)
Theorem register_adds_valid_accounts request s :
  let out := Auth.register S request s in
  ∃ r, out.1 = Ok r
    ∧ Auth.status r ∈ [201; 400; 500]
    ∧ (Auth.status r = 400 → Auth.users out.2 = Auth.users s)
    ∧ (Auth.status r = 201 →
       ∃ data d, request = Some data ∧ Auth.users out.2 = Auth.users s ++ [d]
                 ∧ created S data s d ∧ is_Some (Auth.token r))
    ∧ (Auth.users out.2 = Auth.users s
       ∨ ∃ data d, request = Some data
                   ∧ Auth.users out.2 = Auth.users s ++ [d]
                   ∧ created S data s d).
Proof.
  cbv zeta.
  destruct (register_cases request s)
    as (r & Hr & [(Hu & Hn & Hs)|(data & d & -> & Hu & Hn & Hc & Hs)]);
    exists r; (split; [exact Hr|]).
  - split; [destruct Hs as [-> | ->]; set_solver|].
    split; [done|]. split; [|by left].
    intros H201. destruct Hs; congruence.
  - split; [destruct Hs as [-> | [-> _]]; set_solver|].
    split; [intros H400; destruct Hs as [?|[? _]]; congruence|].
    split; [|right; eauto].
    intros H201. destruct Hs as [?|[_ Htok]]; [congruence|]. eauto 10.
Qed.

(** X26. The accounts stay distinct: if no two accounts share an address, a
    username or an identifier before a call of [register], none do after it,
    whatever the request and however the call ends. *)
Theorem accounts_stay_distinct request s :
  accounts_distinct s →
  accounts_distinct (Auth.register S request s).2.
Proof.
  intros (He & Hu & Hi & Hlt).
  destruct (register_cases request s)
    as (r & _ & [(Husers & Hnext & _)|(data & d & _ & Husers & Hnext & Hc & _)]);
    unfold accounts_distinct; rewrite Husers, Hnext; [done|].
  destruct Hc as (e & n & p & bytes & ro & _ & _ & _ & _ & _ & _ & _ & _ & _
                  & _ & _ & _ & _ & _ & Hid & Hfresh).
  rewrite !fmap_app. cbn [fmap list_fmap].
  rewrite Forall_forall in Hfresh, Hlt.
  assert (∀ {A} (f : Auth.user → A),
    NoDup (f <$> Auth.users s) →
    (∀ d', d' ∈ Auth.users s → f d' ≠ f d) →
    NoDup ((f <$> Auth.users s) ++ [f d])) as Hnodup.
  { intros A f Hnd Hne. apply NoDup_app. split; [done|].
    split; [|apply NoDup_singleton].
    intros x Hx ->%list_elem_of_singleton.
    apply list_elem_of_fmap in Hx as (d' & Heq & Hd'). by apply (Hne d'). }
  split; [apply Hnodup; [done|]; intros d' Hd'; by apply Hfresh|].
  split; [apply Hnodup; [done|]; intros d' Hd'; by apply Hfresh|].
  split.
  - apply Hnodup; [done|]. intros d' Hd'. specialize (Hlt d' Hd'). lia.
  - apply Forall_app. split.
    + apply Forall_forall. intros d' Hd'. specialize (Hlt d' Hd'). lia.
    + constructor; [lia|constructor].
Qed.

Lemma update_last_login_run i s :
  Auth.update_last_login S i s
  = match Auth.users_fault S (Auth.time s) with
    | Some x => (Raise x, Auth.tick s)
    | None =>
        (Ok (),
         Auth.tick
           {| Auth.users :=
                (λ d, if bool_decide (Auth._id d = i)
                      then {| Auth._id := Auth._id d; Auth.email := Auth.email d;
                              Auth.username := Auth.username d;
                              Auth.password := Auth.password d;
                              Auth.firstName := Auth.firstName d;
                              Auth.lastName := Auth.lastName d;
                              Auth.role := Auth.role d;
                              Auth.isActive := Auth.isActive d;
                              Auth.lastLogin := Some (Auth.time s) |}
                      else d) <$> Auth.users s;
              Auth.next_id := Auth.next_id s; Auth.time := Auth.time s |})
    end.
Proof.
  unfold Auth.update_last_login, Auth.users_call.
  by destruct (Auth.users_fault S (Auth.time s)).
Qed.

Lemma find_by_email_run e s :
  Auth.find_by_email S (PStr e) s
  = match Auth.users_fault S (Auth.time s) with
    | Some x => (Raise x, Auth.tick s)
    | None =>
        (Ok (List.find (λ d, bool_decide
                               (Auth.email d = Auth.strip (Auth.lower S e)))
               (Auth.users s)), Auth.tick s)
    end.
Proof.
  unfold Auth.find_by_email, mbind, Auth.auth_bind, Auth.pure, Auth.as_str.
  rewrite find_one_run. by destruct (Auth.users_fault S (Auth.time s)).
Qed.

(** The way through [login] that ends in 200. *)
Lemma login_body_ok data s e p bytes d tok :
  data !! u "email" = Some (PStr e) → e ≠ [] →
  data !! u "password" = Some (PStr p) → p ≠ [] →
  Auth.users_fault S (Auth.time s) = None →
  Auth.users_fault S (Datatypes.S (Auth.time s)) = None →
  List.find (λ d, bool_decide (Auth.email d = Auth.strip (Auth.lower S e)))
    (Auth.users s) = Some d →
  Auth.isActive d = true →
  encode p = Some bytes →
  Auth.checkpw S bytes (Auth.password d) = Ok true →
  Auth.jwt_encode S (Auth.object_id_text S (Auth._id d))
    (Datatypes.S (Datatypes.S (Auth.time s))) = Ok tok →
  (Auth.login_body S data s).1
  = Ok {| Auth.status := 200; Auth.success := true;
          Auth.message := u "Login successful"; Auth.token := Some tok;
          Auth.user_field := Some (Some (Auth.to_dict S d)) |}.
Proof.
  intros He Hene Hp Hpne Hf0 Hf1 Hfind Hactive Hbytes Hcheck Htok.
  unfold Auth.login_body, Auth.get_falsy. rewrite He, Hp. cbn [py_truthy].
  rewrite !bool_decide_eq_false_2 by done. cbn [negb orb].
  unfold mbind, Auth.auth_bind, Auth.pure, Auth.item. rewrite He, Hp.
  rewrite find_by_email_run, Hf0, Hfind, Hactive. cbn [negb].
  unfold Auth.verify_password, mbind, Upload.result_bind, Auth.as_str.
  cbn [rbind]. rewrite Hbytes. cbn [rbind]. rewrite Hcheck. cbn [negb].
  rewrite update_last_login_run. cbn [Auth.tick Auth.time]. rewrite Hf1.
  unfold Auth.generate_token. cbn [Auth.tick Auth.time]. rewrite Htok.
  reflexivity.
Qed.

(** What a 200 of [login] went through. *)
Lemma login_body_sound data s r :
  (Auth.login_body S data s).1 = Ok r → Auth.status r = 200 →
  ∃ e p bytes d,
    data !! u "email" = Some (PStr e)
    ∧ data !! u "password" = Some (PStr p)
    ∧ List.find (λ d, bool_decide (Auth.email d = Auth.strip (Auth.lower S e)))
        (Auth.users s) = Some d
    ∧ Auth.isActive d = true
    ∧ encode p = Some bytes
    ∧ Auth.checkpw S bytes (Auth.password d) = Ok true
    ∧ Auth.user_field r = Some (Some (Auth.to_dict S d))
    ∧ is_Some (Auth.token r).
Proof.
  unfold Auth.login_body, Auth.get_falsy, Auth.refuse, mret, Auth.auth_ret.
  destruct (data !! u "email") as [v_email|] eqn:He; cbn [orb];
    [|by intros [= <-]].
  destruct (negb (py_truthy v_email)); cbn [orb]; [by intros [= <-]|].
  destruct (data !! u "password") as [v_password|] eqn:Hp;
    [|by intros [= <-]].
  destruct (negb (py_truthy v_password)); [by intros [= <-]|].
  unfold mbind, Auth.auth_bind, Auth.pure, Auth.item. rewrite He, Hp.
  destruct v_email as [| | | |e];
    try (unfold Auth.find_by_email, mbind, Auth.auth_bind, Auth.pure;
         cbn; discriminate).
  rewrite find_by_email_run.
  destruct (Auth.users_fault S (Auth.time s)); [discriminate|].
  destruct (List.find _ (Auth.users s)) as [d|] eqn:Hfind; [|by intros [= <-]].
  destruct (Auth.isActive d) eqn:Hactive; cbn [negb]; [|by intros [= <-]].
  destruct (Auth.verify_password S v_password (Auth.password d))
    as [[]|x] eqn:Hverify; cbn [negb]; [|by intros [= <-]|discriminate].
  rewrite update_last_login_run. cbn [Auth.tick Auth.time].
  destruct (Auth.users_fault S _); [discriminate|].
  unfold Auth.generate_token.
  destruct (Auth.jwt_encode S _ _) as [tok|x]; [|discriminate].
  intros [= <-] _.
  unfold Auth.verify_password, mbind, Upload.result_bind, Auth.as_str in Hverify.
  destruct v_password as [| | | |p]; try discriminate. cbn [rbind] in Hverify.
  destruct (encode p) as [bytes|] eqn:Hbytes; [|discriminate].
  cbn [rbind] in Hverify.
  exists e, p, bytes, d. repeat (split; [done|]). by eexists.
Qed.

Lemma find_app_fresh {A} (q : A → bool) l x :
  Forall (λ y, q y = false) l → q x = true → List.find q (l ++ [x]) = Some x.
Proof.
  induction 1 as [|y l Hy _ IH]; intros Hx; simpl; [by rewrite Hx|].
  rewrite Hy. by apply IH.
Qed.

Lemma fullmatch_pattern_nonempty e :
  Regex.fullmatch Auth.pattern e = true → e ≠ [].
Proof. intros Hm ->. vm_compute in Hm. discriminate. Qed.

(** X27. Register, then log in: when bcrypt verifies the hashes it makes, the
    driver answers and tokens can be signed, a registration answered 201
    followed by a login with the same address and password is answered 200,
    with a token and the view of the account just created, whose address is
    the submitted one lowercased and stripped. *)
Theorem login_after_register data data' s r :
  let s1 := (Auth.register S (Some data) s).2 in
  (Auth.register S (Some data) s).1 = Ok r → Auth.status r = 201 →
  data' !! u "email" = data !! u "email" →
  data' !! u "password" = data !! u "password" →
  (∀ bytes t h, Auth.hashpw S bytes t = Ok h →
                Auth.checkpw S bytes h = Ok true) →
  (∀ k, Auth.users_fault S k = None) →
  (∀ x t, ∃ tok, Auth.jwt_encode S x t = Ok tok) →
  ∃ r' e view,
    (Auth.login S (Some data') s1).1 = Ok r'
    ∧ Auth.status r' = 200 ∧ is_Some (Auth.token r')
    ∧ data !! u "email" = Some (PStr e)
    ∧ Auth.user_field r' = Some (Some view)
    ∧ Auth.view_email view = Auth.strip (Auth.lower S e)
    ∧ Auth.view_isActive view = true.
Proof.
  cbv zeta. intros Hr H201 Hemail Hpassword Hbcrypt Hup Hjwt.
  destruct (register_cases (Some data) s)
    as (r0 & Hr0 & [(_ & _ & Hs)|(data0 & d & [= <-] & Hu & _ & Hc & _)]).
  { rewrite Hr in Hr0. injection Hr0 as <-. destruct Hs; congruence. }
  destruct Hc as (e & n & p & bytes & ro & He & Hvalid & Hde & _ & _ & _ & Hp
                  & Hp6 & Hbytes & [t Hhash] & _ & _ & Hactive & _ & _ & Hfresh).
  set (s1 := (Auth.register S (Some data) s).2) in *.
  destruct (Hjwt (Auth.object_id_text S (Auth._id d))
              (Datatypes.S (Datatypes.S (Auth.time s1)))) as [tok Htok].
  assert ((Auth.login_body S data' s1).1
          = Ok {| Auth.status := 200; Auth.success := true;
                  Auth.message := u "Login successful"; Auth.token := Some tok;
                  Auth.user_field := Some (Some (Auth.to_dict S d)) |}) as Hlogin.
  { apply (login_body_ok data' s1 e p bytes d tok); auto.
    - congruence.
    - by apply fullmatch_pattern_nonempty.
    - congruence.
    - intros ->. simpl in Hp6. lia.
    - rewrite Hu. apply find_app_fresh.
      + eapply Forall_impl; [exact Hfresh|]. intros d' [Hne _].
        apply bool_decide_eq_false. congruence.
      + by apply bool_decide_eq_true.
    - by apply (Hbcrypt bytes t). }
  unfold Auth.login, Auth.guarded.
  destruct (Auth.login_body S data' s1) as [[r'|x] s2]; cbn [fst] in *;
    [|discriminate].
  injection Hlogin as ->.
  eexists _, e, _. split; [reflexivity|]. cbn.
  repeat (split; [done||by eexists|]). done.
Qed.

(** X28. [login] answers 200 only to the holder of the password: the body has a
    textual address and password, the first account stored under the address
    (lowercased and stripped) is active, and bcrypt verified the password
    against the stored hash; the answer carries a token and the view of that
    account as it was read, before [lastLogin] was updated. *)
Theorem login_requires_the_password request s r :
  (Auth.login S request s).1 = Ok r → Auth.status r = 200 →
  ∃ data e p bytes d,
    request = Some data
    ∧ data !! u "email" = Some (PStr e)
    ∧ data !! u "password" = Some (PStr p)
    ∧ d ∈ Auth.users s
    ∧ Auth.email d = Auth.strip (Auth.lower S e)
    ∧ Auth.isActive d = true
    ∧ encode p = Some bytes
    ∧ Auth.checkpw S bytes (Auth.password d) = Ok true
    ∧ Auth.user_field r = Some (Some (Auth.to_dict S d))
    ∧ is_Some (Auth.token r).
Proof.
  unfold Auth.login, Auth.guarded.
  destruct request as [data|]; [|by intros [= <-]].
  pose proof (login_body_sound data s) as Hsound.
  destruct (Auth.login_body S data s) as [[r0|x] s1]; cbn [fst] in *;
    [|by intros [= <-]].
  intros [= <-] H200.
  destruct (Hsound r0 eq_refl H200)
    as (e & p & bytes & d & He & Hp & Hfind & Hactive & Hbytes & Hcheck & Hview
        & Htok).
  apply List.find_some in Hfind as [Hin Hq].
  apply list_elem_of_In in Hin. apply bool_decide_eq_true in Hq.
  exists data, e, p, bytes, d. repeat (split; [done|]). done.
Qed.

Lemma find_by_id_value v s :
  Auth.find_by_id S (Auth.IdValue v) s
  = match Auth.object_id S v with
    | None => (Ok None, s)
    | Some i =>
        match Auth.users_fault S (Auth.time s) with
        | Some _ => (Ok None, Auth.tick s)
        | None => (Ok (List.find (λ d, bool_decide (Auth._id d = i))
                         (Auth.users s)), Auth.tick s)
        end
    end.
Proof.
  unfold Auth.find_by_id, Auth.guarded, mbind, Auth.auth_bind, Auth.pure.
  destruct (Auth.object_id S v) as [i|]; [|done].
  rewrite find_one_run. by destruct (Auth.users_fault S (Auth.time s)).
Qed.

(** What [token_required] does before it hands over to the route: it either
    answers 401 itself, or fails on a payload without [user_id], or calls the
    route with an active account of the collection, found under the
    identifier of a payload that the second piece of the header decodes to;
    the accounts are as before. *)
Lemma token_required_cases {R} (f : Auth.user → Auth.AuthM R) authorization s :
  (∃ r s', Auth.token_required S f authorization s = (Ok (inl r), s')
           ∧ Auth.status r = 401 ∧ Auth.users s' = Auth.users s)
  ∨ (∃ x, Auth.token_required S f authorization s = (Raise x, s))
  ∨ (∃ auth_header token payload v i d,
       authorization = Some auth_header
       ∧ Auth.split_space auth_header !! 1%nat = Some token
       ∧ token ≠ []
       ∧ Auth.jwt_decode S token (Auth.time s) = Some payload
       ∧ payload !! u "user_id" = Some v
       ∧ Auth.object_id S v = Some i
       ∧ List.find (λ d', bool_decide (Auth._id d' = i)) (Auth.users s) = Some d
       ∧ d ∈ Auth.users s ∧ Auth._id d = i ∧ Auth.isActive d = true
       ∧ Auth.token_required S f authorization s
         = match f d (Auth.tick s) with
           | (Ok r, s') => (Ok (inr r), s')
           | (Raise x, s') => (Raise x, s')
           end).
Proof.
  unfold Auth.token_required.
  destruct authorization as [auth_header|]; [|left; by eexists _, _].
  destruct (Auth.split_space auth_header !! 1%nat) as [token|] eqn:Htoken;
    [|left; by eexists _, _].
  destruct token as [|c token]; [left; by eexists _, _|].
  unfold mbind, Auth.auth_bind, Auth.decode_token, Auth.pure, mret,
    Auth.auth_ret.
  destruct (Auth.jwt_decode S (c :: token) (Auth.time s)) as [payload|] eqn:Hdec;
    [|left; by eexists _, _].
  case_bool_decide as Hempty; [left; by eexists _, _|].
  destruct (payload !! u "user_id") as [v|] eqn:Hv; [|right; left; by eexists].
  rewrite find_by_id_value.
  destruct (Auth.object_id S v) as [i|] eqn:Hi; [|left; by eexists _, _].
  destruct (Auth.users_fault S (Auth.time s)); [left; by eexists _, _|].
  destruct (List.find _ (Auth.users s)) as [d|] eqn:Hfind;
    [|left; by eexists _, _].
  pose proof Hfind as Hfound.
  apply List.find_some in Hfind as [Hin Hq].
  apply list_elem_of_In in Hin. apply bool_decide_eq_true in Hq.
  destruct (Auth.isActive d) eqn:Hactive; [|left; by eexists _, _].
  right; right. exists auth_header, (c :: token), payload, v, i, d.
  repeat (split; [done|]).
  simpl. by destruct (f d (Auth.tick s)) as [[r|x] s'].
Qed.

(** The decorator reads the header through its second piece only. *)
Lemma token_required_second_piece {R} (f : Auth.user → Auth.AuthM R)
    (header header' : pystr) s :
  Auth.split_space header !! 1%nat = Auth.split_space header' !! 1%nat →
  Auth.token_required S f (Some header) s
  = Auth.token_required S f (Some header') s.
Proof.
  intros Heq. unfold Auth.token_required.
  change (list N) with pystr. by rewrite Heq.
Qed.

(** X29. A route under [token_required] runs only for an active account of the
    collection: the header has a second space-separated piece, which is not
    empty and decodes to a payload whose [user_id] names the account, the
    first one of the collection with that identifier; the route is called
    with that account and starts from the accounts as they were. The first
    piece of the header (the scheme) is not looked at: any header with the
    same second piece, whatever stands before the first space and after the
    second, makes the same run. *)
Theorem token_required_admits_active_accounts {R}
    (f : Auth.user → Auth.AuthM R) authorization s r :
  (Auth.token_required S f authorization s).1 = Ok (inr r) →
  ∃ auth_header token payload v d,
    authorization = Some auth_header
    ∧ Auth.split_space auth_header !! 1%nat = Some token
    ∧ token ≠ []
    ∧ Auth.jwt_decode S token (Auth.time s) = Some payload
    ∧ payload !! u "user_id" = Some v
    ∧ Auth.object_id S v = Some (Auth._id d)
    ∧ List.find (λ d', bool_decide (Auth._id d' = Auth._id d)) (Auth.users s)
      = Some d
    ∧ d ∈ Auth.users s ∧ Auth.isActive d = true
    ∧ (f d (Auth.tick s)).1 = Ok r
    ∧ Auth.users (Auth.tick s) = Auth.users s
    ∧ ∀ other_header,
        Auth.split_space other_header !! 1%nat = Some token →
        Auth.token_required S f (Some other_header) s
        = Auth.token_required S f authorization s.
Proof.
  intros Hrun.
  destruct (token_required_cases f authorization s)
    as [(r0 & s' & Heq & _)|[(x & Heq)|(auth_header & token & payload & v & i
         & d & -> & Htoken & Hne & Hdec & Hv & Hi & Hfound & Hin & <- & Hactive
         & Heq)]];
    rewrite Heq in Hrun; try discriminate.
  exists auth_header, token, payload, v, d. repeat (split; [done|]).
  split; [destruct (f d (Auth.tick s)) as [[r1|x] s']; by simplify_eq/=|].
  split; [done|].
  intros other_header Hother. apply token_required_second_piece.
  exact (eq_trans Hother (eq_sym Htoken)).
Qed.

(** X30. Under [token_required] and then [role_required], once the token is
    accepted the answer is decided by the role of the account the token
    names, the one [token_required] found and passed on: the route runs only
    when that role is one of the allowed ones, and otherwise the answer is the
    403, the route is not run and nothing but the lookup of the account has
    touched the store. *)
Theorem role_required_admits_allowed_roles {R} allowed
    (f : Auth.user → Auth.AuthM R) authorization s out :
  let route := λ user, Auth.role_required allowed f (Some user) in
  (Auth.token_required S route authorization s).1 = Ok (inr out) →
  ∃ auth_header token payload v d,
    authorization = Some auth_header
    ∧ Auth.split_space auth_header !! 1%nat = Some token
    ∧ Auth.jwt_decode S token (Auth.time s) = Some payload
    ∧ payload !! u "user_id" = Some v
    ∧ Auth.object_id S v = Some (Auth._id d)
    ∧ List.find (λ d', bool_decide (Auth._id d' = Auth._id d)) (Auth.users s)
      = Some d
    ∧ Auth.isActive d = true
    ∧ match out with
      | inr r =>
          (∃ ro, Auth.role d = PStr ro ∧ ro ∈ allowed)
          ∧ (f d (Auth.tick s)).1 = Ok r
      | inl refusal =>
          Auth.status refusal = 403
          ∧ (∀ ro, Auth.role d = PStr ro → ro ∉ allowed)
          ∧ (Auth.token_required S route authorization s).2 = Auth.tick s
      end.
Proof.
  cbv zeta. intros Hrun.
  destruct (token_required_cases
              (λ user, Auth.role_required allowed f (Some user)) authorization s)
    as [(r0 & s' & Heq & _)|[(x & Heq)|(auth_header & token & payload & v & i
         & d & -> & Htoken & Hne & Hdec & Hv & Hi & Hfound & Hin & <- & Hactive
         & Heq)]];
    rewrite Heq in Hrun; try discriminate.
  exists auth_header, token, payload, v, d. repeat (split; [done|]).
  rewrite Heq. clear Heq. revert Hrun. unfold Auth.role_required.
  destruct (existsb _ allowed) eqn:Hrole; simpl.
  - apply role_allowed in Hrole as (ro & Hro & Heq).
    unfold mbind, Auth.auth_bind, mret, Auth.auth_ret.
    destruct (f d (Auth.tick s)) as [[r|x] s'] eqn:Hf; simpl; [|done].
    intros [= <-]. split; [by exists ro|done].
  - intros [= <-]. split; [done|]. split; [|done].
    intros ro Hd Hro. apply not_true_iff_false in Hrole. apply Hrole.
    apply existsb_exists. exists ro. split; [by apply list_elem_of_In|].
    rewrite Hd. simpl. by apply bool_decide_eq_true.
Qed.

End Accounts.

Lemma plain_services_verify bytes t h :
  Auth.hashpw Fixtures.plain_services bytes t = Ok h →
  Auth.checkpw Fixtures.plain_services bytes h = Ok true.
Proof.
  intros [= <-]. cbn. f_equal. apply bool_decide_eq_true_2. reflexivity.
Qed.

Lemma jane_registered_distinct : accounts_distinct Fixtures.jane_registered.
Proof.
  unfold accounts_distinct. vm_compute.
  repeat split; try apply NoDup_singleton. repeat constructor.
Qed.

(** A second registration under Jane's address is refused, and one under a
    new address adds an account: the accounts stay distinct either way. *)
Lemma accounts_stay_distinct_witness :
  accounts_distinct
    (Auth.register Fixtures.plain_services
       (Some (Fixtures.registration "jane@example.com" "janet" "admin"))
       Fixtures.jane_registered).2
  ∧ accounts_distinct
      (Auth.register Fixtures.plain_services
         (Some (Fixtures.registration "kamal@example.com" "kamal" "hospital"))
         Fixtures.jane_registered).2.
Proof.
  split.
  - exact (@accounts_stay_distinct Demo.demo_interp Fixtures.plain_services
             _ Fixtures.jane_registered jane_registered_distinct).
  - exact (@accounts_stay_distinct Demo.demo_interp Fixtures.plain_services
             _ Fixtures.jane_registered jane_registered_distinct).
Defined.

(** Jane registers as [Jane@Example.com] and logs in with the same address
    and password: 200, and the address on file is [jane@example.com]. *)
Lemma login_after_register_witness :
  ∃ r' view,
    (Auth.login Fixtures.plain_services
       (Some (Fixtures.credentials "Jane@Example.com" "correct horse"))
       Fixtures.jane_registered).1 = Ok r'
    ∧ Auth.status r' = 200
    ∧ Auth.user_field r' = Some (Some view)
    ∧ Auth.view_email view = u "jane@example.com".
Proof.
  destruct (@login_after_register Demo.demo_interp Fixtures.plain_services
              (Fixtures.registration "Jane@Example.com" "jane" "patient")
              (Fixtures.credentials "Jane@Example.com" "correct horse")
              Fixtures.no_accounts
              (Fixtures.answer_of
                 (Auth.register Fixtures.plain_services
                    (Some (Fixtures.registration "Jane@Example.com" "jane"
                             "patient"))
                    Fixtures.no_accounts)))
    as (r' & e & view & Hlogin & Hstatus & _ & He & Hview & Hemail & _).
  - vm_compute. reflexivity.
  - vm_compute. reflexivity.
  - vm_compute. reflexivity.
  - vm_compute. reflexivity.
  - exact plain_services_verify.
  - intros k. reflexivity.
  - intros x t. exists x. reflexivity.
  - exists r', view. split; [exact Hlogin|]. split; [exact Hstatus|].
    split; [exact Hview|]. rewrite Hemail.
    vm_compute in He. injection He as <-. vm_compute. reflexivity.
Defined.

(** The login of Jane is answered 200: her account is on file and active. *)
Lemma login_requires_the_password_witness :
  ∃ d, d ∈ Auth.users Fixtures.jane_registered
       ∧ Auth.email d = u "jane@example.com"
       ∧ Auth.isActive d = true
       ∧ Auth.checkpw Fixtures.plain_services
           (Z.of_N <$> u "correct horse") (Auth.password d) = Ok true.
Proof.
  destruct (@login_requires_the_password Demo.demo_interp
              Fixtures.plain_services
              (Some (Fixtures.credentials "Jane@Example.com" "correct horse"))
              Fixtures.jane_registered
              (Fixtures.answer_of
                 (Auth.login Fixtures.plain_services
                    (Some (Fixtures.credentials "Jane@Example.com"
                             "correct horse"))
                    Fixtures.jane_registered)))
    as (data & e & p & bytes & d & Hdata & He & Hp & Hin & Hemail & Hactive
        & Hbytes & Hcheck & _).
  - vm_compute. reflexivity.
  - vm_compute. reflexivity.
  - injection Hdata as <-.
    vm_compute in He. injection He as <-.
    vm_compute in Hp. injection Hp as <-.
    vm_compute in Hbytes. injection Hbytes as <-.
    exists d. split; [exact Hin|]. split; [|split; [exact Hactive|]].
    + rewrite Hemail. vm_compute. reflexivity.
    + etransitivity; [|exact Hcheck]. reflexivity.
Defined.

(** Jane's token under the scheme [Basic]: the route runs for her account,
    as it does under [Bearer]. *)
Lemma token_required_admits_active_accounts_witness :
  (∃ d, d ∈ Auth.users Fixtures.jane_registered
        ∧ Auth.isActive d = true
        ∧ (Fixtures.whoami d (Auth.tick Fixtures.jane_registered)).1 = Ok (u "jane"))
  ∧ Auth.token_required Fixtures.plain_services Fixtures.whoami
      (Some (u "Bearer 0")) Fixtures.jane_registered
    = Auth.token_required Fixtures.plain_services Fixtures.whoami
        (Some (u "Basic 0")) Fixtures.jane_registered.
Proof.
  destruct (@token_required_admits_active_accounts Demo.demo_interp
              Fixtures.plain_services pystr Fixtures.whoami (Some (u "Basic 0"))
              Fixtures.jane_registered (u "jane"))
    as (auth_header & token & payload & v & d & Hauth & Htoken & _ & _ & _ & _
        & _ & Hin & Hactive & Hrun & _ & Hscheme).
  - vm_compute. reflexivity.
  - injection Hauth as <-. split.
    + exists d. split; [exact Hin|]. split; [exact Hactive|exact Hrun].
    + apply Hscheme. rewrite <- Htoken. vm_compute. reflexivity.
Defined.

(** Jane, a patient, on a route for administrators: 403, and the route is
    not run. *)
Lemma role_required_admits_allowed_roles_witness :
  let route := λ user, Auth.role_required [u "admin"] Fixtures.whoami (Some user) in
  ∃ d, List.find (λ d', bool_decide (Auth._id d' = Auth._id d))
         (Auth.users Fixtures.jane_registered) = Some d
       ∧ Auth.isActive d = true
       ∧ (∀ ro, Auth.role d = PStr ro → ro ∉ [u "admin"])
       ∧ (Auth.token_required Fixtures.plain_services route
            (Some (u "Bearer 0")) Fixtures.jane_registered).2
         = Auth.tick Fixtures.jane_registered.
Proof.
  cbv zeta.
  destruct (@role_required_admits_allowed_roles Demo.demo_interp
              Fixtures.plain_services pystr [u "admin"] Fixtures.whoami
              (Some (u "Bearer 0")) Fixtures.jane_registered
              (inl {| Auth.status := 403; Auth.success := false;
                      Auth.message := u "Access denied. Required role: admin";
                      Auth.token := None; Auth.user_field := None |}))
    as (auth_header & token & payload & v & d & _ & _ & _ & _ & _ & Hfound
        & Hactive & _ & Hrole & Hstate).
  - vm_compute. reflexivity.
  - exists d. split; [exact Hfound|]. split; [exact Hactive|].
    split; [exact Hrole|exact Hstate].
Defined.
